(** * Verification of the kluster xarray/zarr helpers
    (src/HSTB/kluster/xarray_helpers.py)

    Shallow embedding of the zarr writer, the attribute combiner, the
    chunk-wise interpolator, the gap detector and the NaN stacking helpers,
    followed by the properties proved about them. *)

From Stdlib Require Import ZArith QArith Qround Qabs Qminmax Lqa Lia List String Ascii Bool.
From stdpp Require Import base option list gmap strings sorting.


(** ** Python exceptions and fallible results *)

Inductive exn :=
| IndexError | KeyError | ValueError | TypeError | AttributeError
| AssertionError | NotImplementedError
| ValueErrorWith (msg : string).   (* raise ValueError(msg) in the source *)

Inductive result (A : Type) :=
| Ok (a : A)
| Raise (e : exn).
Arguments Ok {A} a.
Arguments Raise {A} e.

#[global] Instance result_ret : MRet result := λ A, Ok.
#[global] Instance result_bind : MBind result :=
  λ A B f m, match m with Ok a => f a | Raise e => Raise e end.

(** ** Floating point values

    A float is either NaN or a number.  Numbers are modelled as exact
    rationals: rounding is not part of the model. *)

Inductive float :=
| NaN
| Num (q : Q).

Definition isnan (x : float) : bool :=
  match x with NaN => true | Num _ => false end.

(** Boolean comparisons on rationals (floats compare numerically). *)
Definition Qlt_bool (x y : Q) : bool := negb (Qle_bool y x).

(** np.min / np.max of a one-dimensional array; an empty array raises. *)
Definition np_min (l : list Q) : result Q :=
  match l with
  | [] => Raise ValueError
  | x :: xs => Ok (foldl Qmin x xs)
  end.

Definition np_max (l : list Q) : result Q :=
  match l with
  | [] => Raise ValueError
  | x :: xs => Ok (foldl Qmax x xs)
  end.

(** k[0:n] == p *)
Definition has_prefix (n : nat) (p k : string) : bool := String.eqb (substring 0 n k) p.

(** sorted(names) for strings *)
Fixpoint insert_sorted (s : string) (l : list string) : list string :=
  match l with
  | [] => [s]
  | x :: rest => if String.leb s x then s :: l else x :: insert_sorted s rest
  end.

Definition sorted (l : list string) : list string := foldr insert_sorted [] l.

(** l.index(x): the first position of x, [None] standing for ValueError. *)
Fixpoint index_of {A} `{EqDecision A} (x : A) (l : list A) : option nat :=
  match l with
  | [] => None
  | y :: rest => if decide (y = x) then Some 0 else S <$> index_of x rest
  end.

(** ** NaN stacking of ragged (time, beam) arrays:
     stack_nan_array / reform_nan_array *)

Module Ragged.

(** A two-dimensional float DataArray: the names of its two dimensions, its
    shape and its values as a list of rows (coordinates are carried along
    by the source unchanged and are left out). *)
Record DataArray := {
  dims : string * string;
  shape : nat * nat;
  values : list (list float)
}.

Definition wf (a : DataArray) : Prop :=
  length (values a) = fst (shape a) ∧
  Forall (λ row, length row = snd (shape a)) (values a).

(** np.where(~np.isnan(a)): row and column indices of the non-NaN cells,
    in row-major order. *)
Fixpoint where_row (i j : nat) (row : list float) : list (nat * nat) :=
  match row with
  | [] => []
  | x :: xs =>
      if isnan x then where_row i (S j) xs else (i, j) :: where_row i (S j) xs
  end.

Fixpoint where_rows (i : nat) (rows : list (list float)) : list (nat * nat) :=
  match rows with
  | [] => []
  | r :: rs => where_row i 0 r ++ where_rows (S i) rs
  end.

Definition np_where_notnan (rows : list (list float)) : list nat * list nat :=
  let ps := where_rows 0 rows in (ps.*1, ps.*2).

Definition transpose (ncols : nat) (rows : list (list float)) : list (list float) :=
  map (λ j, map (λ row, nth j row NaN) rows) (seq 0 ncols).

(** DataArray.stack(stck=stack_dims): the array is flattened with the
    dimensions taken in the order of [stack_dims]. *)
Definition stack (a : DataArray) (stack_dims : string * string) : result (list float) :=
  if decide (stack_dims = dims a) then Ok (concat (values a))
  else if decide (stack_dims = (snd (dims a), fst (dims a)))
       then Ok (concat (transpose (snd (shape a)) (values a)))
       else Raise ValueError.

Definition stack_nan_array (dataarray : DataArray) (stack_dims : string * string)
  : result ((list nat * list nat) * list float) :=
  let orig_idx := np_where_notnan (values dataarray) in
  dataarray_stck ← stack dataarray stack_dims;
  let nan_idx := λ x, negb (isnan x) in
  Ok (orig_idx, filter (λ x, nan_idx x = true) dataarray_stck).

(** final_arr[i, j] = v *)
Definition setitem2 (arr : list (list float)) (i j : nat) (v : float)
  : result (list (list float)) :=
  match arr !! i with
  | Some row =>
      if decide (j < length row) then Ok (<[i := <[j := v]> row]> arr)
      else Raise IndexError
  | None => Raise IndexError
  end.

Fixpoint scatter (arr : list (list float)) (entries : list ((nat * nat) * float))
  : result (list (list float)) :=
  match entries with
  | [] => Ok arr
  | ((i, j), v) :: es => arr' ← setitem2 arr i j v; scatter arr' es
  end.

(** final_arr[orig_idx] = dataarray_stack: the two index arrays are paired
    up, and the values are assigned to the indexed cells in order; a single
    value is broadcast to all of them. *)
Definition setitem_fancy (arr : list (list float)) (orig_idx : list nat * list nat)
    (vals : list float) : result (list (list float)) :=
  let '(rows, cols) := orig_idx in
  if decide (length rows = length cols) then
    let cells := zip rows cols in
    if decide (length vals = length cells) then scatter arr (zip cells vals)
    else match vals with
         | [v] => scatter arr (zip cells (replicate (length cells) v))
         | _ => Raise ValueError
         end
  else Raise IndexError.

Definition reform_nan_array (dataarray_stack : list float)
    (orig_idx : list nat * list nat) (orig_shape : nat * nat)
    (orig_dims : string * string) : result DataArray :=
  let final_arr := replicate (fst orig_shape) (replicate (snd orig_shape) NaN) in
  final_arr ← setitem_fancy final_arr orig_idx dataarray_stack;
  Ok {| dims := orig_dims; shape := orig_shape; values := final_arr |}.

(** arr[i, j] of a list of rows, and of a DataArray. *)
Definition cell_of (arr : list (list float)) (i j : nat) : option float :=
  row ← arr !! i; row !! j.

Definition cell (a : DataArray) (i j : nat) : option float := cell_of (values a) i j.


(** *** flatten_bool_xarray

    For a two-dimensional DataArray with time as its first dimension, a
    condition of the same shape and retain_dim='time' (dropping the
    coordinate [drop_var] leaves the values as they are). *)

(** datarray.where(cond): NaN where the condition is false. *)
Definition xr_where (rows : list (list float)) (cond : list (list bool)) : list (list float) :=
  zip_with (zip_with (λ x (c : bool), if c then x else NaN)) rows cond.

(** np.argmax of a vector of booleans: the first index of the greatest
    element; ValueError for an empty vector. *)
Fixpoint argmax_from (best : bool) (best_idx idx : nat) (l : list bool) : nat :=
  match l with
  | [] => best_idx
  | x :: l' =>
      if negb best && x then argmax_from x idx (S idx) l'
      else argmax_from best best_idx (S idx) l'
  end.

Definition np_argmax (l : list bool) : result nat :=
  match l with
  | [] => Raise ValueError
  | x :: l' => Ok (argmax_from x 0 1 l')
  end.

(** datarray[0:len(datarray.time), data_idx] with an index over time: the
    element of each row at the index of the row. *)
Definition isel_pointwise (rows : list (list float)) (data_idx : list nat)
  : result (list float) :=
  mapM (λ '(row, j), match row !! j with Some x => Ok x | None => Raise IndexError end)
       (zip rows data_idx).

Definition flatten_bool_xarray (datarray : DataArray) (cond : list (list bool))
  : result (list float) :=
  let datarray := xr_where (values datarray) cond in
  true_idx ← mapM (λ row, np_argmax (map (λ x, negb (isnan x)) row)) datarray;
  isel_pointwise datarray true_idx.

(** The tilt angles of two pings over three sectors, and the sectors that
    transmit. *)
Definition tiltangle : DataArray :=
  {| dims := ("time"%string, "sector"%string);
     shape := (2, 3);
     values := [[Num 0; Num (-38 # 100); Num 0]; [Num 1; Num 0; Num 2]] |}.

Definition transmits : list (list bool) :=
  [[false; true; false]; [false; false; false]].

End Ragged.

(** ** Gap detection: _find_gaps_split / compare_and_find_gaps *)

Module Gaps.

(** A gap is a two element list [start, end]. *)
Definition gap : Type := Q * Q.

Definition gap_eqb (a b : gap) : bool :=
  Qeq_bool (fst a) (fst b) && Qeq_bool (snd a) (snd b).

Fixpoint gaps_eqb (a b : list gap) : bool :=
  match a, b with
  | [], [] => true
  | x :: a', y :: b' => gap_eqb x y && gaps_eqb a' b'
  | _, _ => false
  end.

(** [[t[gp], t[gp + 1]] for gp in np.argwhere(t.diff() > max_gap_length)] *)
Fixpoint gap_times (times : list Q) (max_gap_length : Q) : list gap :=
  match times with
  | a :: (b :: _) as rest =>
      if Qlt_bool max_gap_length (b - a)
      then (a, b) :: gap_times rest max_gap_length
      else gap_times rest max_gap_length
  | _ => []
  end.

(** (dgtime[0] <= existtime[0] <= dgtime[1]) and
    (dgtime[0] <= existtime[1] <= dgtime[1]) *)
Definition contains (dgtime existtime : gap) : bool :=
  (Qle_bool (fst dgtime) (fst existtime) && Qle_bool (fst existtime) (snd dgtime))
  && (Qle_bool (fst dgtime) (snd existtime) && Qle_bool (snd existtime) (snd dgtime)).

(** The inner loop of _find_gaps_split: the pieces of [dgtime] around the
    first existing gap it contains ([break]), or [dgtime] itself when it
    contains none. *)
Fixpoint split_one (dgtime : gap) (existing_gap_times : list gap) : list gap :=
  match existing_gap_times with
  | [] => [dgtime]
  | existtime :: rest =>
      if contains dgtime existtime
      then [(fst dgtime, fst existtime); (snd existtime, snd dgtime)]
      else split_one dgtime rest
  end.

Definition _find_gaps_split (datagap_times existing_gap_times : list gap) : list gap :=
  flat_map (λ dgtime, split_one dgtime existing_gap_times) datagap_times.

(** while splitting: ...   The loop need not terminate, so it is run on
    fuel; [None] means the fuel ran out. *)
Fixpoint split_loop (fuel : nat) (datagap_times existing_gap_times : list gap)
  : option (list gap) :=
  match fuel with
  | O => None
  | S fuel' =>
      let dg_split_gaps := _find_gaps_split datagap_times existing_gap_times in
      if negb (gaps_eqb dg_split_gaps datagap_times)
      then split_loop fuel' dg_split_gaps existing_gap_times
      else Some datagap_times
  end.

(** The body of the final loop for one [dgtime]: the [continue] statement
    resumes the loop over the existing gaps, and [dgtime] as adjusted so
    far is what gets appended to finalgaps once that loop is over. *)
Fixpoint adjust (dgtime : gap) (existing_gap_times : list gap) : gap :=
  match existing_gap_times with
  | [] => dgtime
  | existtime :: rest =>
      let '(e0, e1) := existtime in
      let '(d0, d1) := dgtime in
      if (Qle_bool e0 d0 && Qle_bool d0 e1) && (Qle_bool e0 d1 && Qle_bool d1 e1)
      then adjust dgtime rest
      else if Qlt_bool e0 d0 && Qlt_bool d0 e1 then adjust (e1, d1) rest
      else if Qlt_bool e0 d1 && Qlt_bool d1 e1 then adjust (d0, e0) rest
      else adjust dgtime rest
  end.

(** The gaps of the new data, with the late start and the early end counted
    as gaps.  The late start calls [datagap_times.insert] with the gap as
    its only argument, which raises TypeError. *)
Definition initial_datagaps (source_dat new_dat : list Q) (max_gap_length : Q)
  : result (list gap) :=
  let datagap_times := gap_times new_dat max_gap_length in
  new_min ← np_min new_dat;
  source_min ← np_min source_dat;
  datagap_times ←
    (if Qlt_bool (source_min + max_gap_length) new_min
     then Raise TypeError
     else Ok datagap_times);
  new_max ← np_max new_dat;
  source_max ← np_max source_dat;
  Ok (if Qlt_bool (new_max + max_gap_length) source_max
      then datagap_times ++ [(new_max, source_max)]
      else datagap_times).

Definition compare_and_find_gaps (fuel : nat) (source_dat new_dat : list Q)
    (max_gap_length : Q) : option (result (list gap)) :=
  let existing_gap_times := gap_times source_dat max_gap_length in
  match initial_datagaps source_dat new_dat max_gap_length with
  | Raise e => Some (Raise e)
  | Ok datagap_times =>
      datagap_times ← split_loop fuel datagap_times existing_gap_times;
      let finalgaps := map (λ dgtime, adjust dgtime existing_gap_times) datagap_times in
      Some (Ok finalgaps)
  end.

(** What the documentation of the final loop asks of a gap: it lies fully
    within an existing gap. *)
Definition within (dgtime existtime : gap) : Prop :=
  (fst existtime <= fst dgtime <= snd existtime)%Q ∧
  (fst existtime <= snd dgtime <= snd existtime)%Q.

(** *** What the splitting loop works off *)

(** The existing gaps that a gap contains. *)
Definition contained (dgtime : gap) (existing_gap_times : list gap) : list gap :=
  filter (λ existtime, contains dgtime existtime = true) existing_gap_times.

(** The number of splits that are left to do: for each gap, the existing
    gaps it contains. *)
Definition splits_left (datagap_times existing_gap_times : list gap) : nat :=
  sum_list_with (λ dgtime, length (contained dgtime existing_gap_times)) datagap_times.

(** A gap that ends after it starts. *)
Definition proper (g : gap) : Prop := (fst g < snd g)%Q.

(** The interval of the first gap lies in the interval of the second. *)
Definition inside (g dgtime : gap) : Prop :=
  (fst dgtime <= fst g)%Q ∧ (snd g <= snd dgtime)%Q.

End Gaps.

(** ** Chunk-wise interpolation: interp_across_chunks *)

Module Interp.

(** A one-dimensional DataArray over the [time] dimension: its name, its
    time coordinate, its values, and its dask chunk sizes along time
    ([None] when the array is not chunked). *)
Record DataArray := {
  name : option string;
  time : list Q;
  values : list Q;
  chunks : option (list nat)
}.

(** The values and the coordinate of a DataArray have the same length. *)
Definition wf (xarr : DataArray) : Prop :=
  length (values xarr) = length (time xarr).

(** The floored remainder of numpy's [mod] and [%]. *)
Definition qmod (x m : Q) : Q := (x - m * inject_Z (Qfloor (x / m)))%Q.

(** *** np.rad2deg(np.unwrap(np.deg2rad(h)))

    np.unwrap with the angles kept in degrees: the period is 360 and the
    jump threshold 180. *)
Definition ph_correct (dd : Q) : Q :=
  let ddmod := (qmod (dd + 180) 360 - 180)%Q in
  let ddmod := if Qeq_bool ddmod (-180) && Qlt_bool 0 dd then 180%Q else ddmod in
  if Qlt_bool (Qabs dd) 180 then 0%Q else (ddmod - dd)%Q.

(** up[k] = p[k] + cumsum(ph_correct)[k - 1]; [prev] is p[k - 1] and [acc]
    the running sum of the corrections. *)
Fixpoint unwrap_from (prev acc : Q) (p : list Q) : list Q :=
  match p with
  | [] => []
  | x :: rest =>
      let acc' := (acc + ph_correct (x - prev))%Q in
      (x + acc')%Q :: unwrap_from x acc' rest
  end.

Definition unwrap_deg (p : list Q) : list Q :=
  match p with
  | [] => []
  | x :: rest => x :: unwrap_from x 0 rest
  end.

(** *** np.searchsorted(a, v) with side='left'

    The binary search numpy runs for one key, on [fuel] probes at most;
    the length of the array is fuel enough. *)
Fixpoint bsearch (fuel : nat) (a : list Q) (key : Q) (min_idx max_idx : nat) : nat :=
  match fuel with
  | O => min_idx
  | S fuel' =>
      if min_idx <? max_idx then
        let mid_idx := min_idx + (max_idx - min_idx) / 2 in
        if Qlt_bool (nth mid_idx a 0%Q) key
        then bsearch fuel' a key (mid_idx + 1) max_idx
        else bsearch fuel' a key min_idx mid_idx
      else min_idx
  end.

Definition searchsorted1 (a : list Q) (key : Q) : nat :=
  bsearch (length a) a key 0 (length a).

Definition searchsorted (a : list Q) (keys : list Q) : list nat :=
  map (searchsorted1 a) keys.

(** a[i:j] *)
Definition slice {A} (i j : nat) (a : list A) : list A := take (j - i) (drop i a).

(** np.split(a, indices): a[:i0], a[i0:i1], ..., a[ik:] *)
Fixpoint np_split_from {A} (start : nat) (indices : list nat) (a : list A) : list (list A) :=
  match indices with
  | [] => [drop start a]
  | i :: rest => slice start i a :: np_split_from i rest a
  end.

Definition np_split {A} (a : list A) (indices : list nat) : list (list A) :=
  np_split_from 0 indices a.

(** np.cumsum *)
Fixpoint cumsum_from (acc : nat) (l : list nat) : list nat :=
  match l with
  | [] => []
  | x :: rest => (acc + x) :: cumsum_from (acc + x) rest
  end.

Definition cumsum (l : list nat) : list nat := cumsum_from 0 l.

(** a[k] for an integer k, negative indices counting from the end. *)
Definition getitem {A} (a : list A) (k : Z) : result A :=
  let n := Z.of_nat (length a) in
  let k' := if (k <? 0)%Z then (k + n)%Z else k in
  if ((0 <=? k') && (k' <? n))%Z
  then match a !! Z.to_nat k' with Some x => Ok x | None => Raise IndexError end
  else Raise IndexError.

(** a[-1] = v *)
Definition set_last {A} (a : list A) (v : A) : result (list A) :=
  match a with
  | [] => Raise IndexError
  | _ => Ok (<[pred (length a) := v]> a)
  end.

(** for idx in empty_chunks[::-1]: del chnk_idxs[idx]; del chnkwise_times[idx] *)
Definition delete_all {A} (idxs : list nat) (l : list A) : list A :=
  foldl (λ acc idx, delete idx acc) l (reverse idxs).

(** [chnkwise_times.index(i) for i in chnkwise_times if i.size == 0]: the
    positions of the empty sub-vectors. *)
Fixpoint empty_positions {A} (pos : nat) (l : list (list A)) : list nat :=
  match l with
  | [] => []
  | [] :: rest => pos :: empty_positions (S pos) rest
  | _ :: rest => empty_positions (S pos) rest
  end.

Definition _interp_across_chunks_construct_times (xarr : DataArray)
    (new_times : list Q) (dimname : string)
  : result (list (nat * nat) * list (list Q)) :=
  (* xarr = xarr.chunk() when the array has no chunks: one chunk *)
  let xarr_chunks := match chunks xarr with
                     | Some c => c
                     | None => [length (time xarr)]
                     end in
  let chnk_end := map (λ c, (Z.of_nat c - 1)%Z) (cumsum xarr_chunks) in
  coord ← (if decide (dimname = "time"%string) then Ok (time xarr) else Raise KeyError);
  chnk_end_time ← mapM (getitem coord) chnk_end;
  last_time ← getitem new_times (-1);
  chnk_end_time ← set_last chnk_end_time (last_time + 1)%Q;
  let endtime_idx := searchsorted new_times chnk_end_time in
  let chnkwise_times := removelast (np_split new_times endtime_idx) in
  let slices_endtime_idx := 0 :: map (λ e, Z.to_nat (e + 1)) chnk_end in
  let chnk_idxs := zip slices_endtime_idx (tail slices_endtime_idx) in
  let empty_chunks := empty_positions 0 chnkwise_times in
  Ok (delete_all empty_chunks chnk_idxs, delete_all empty_chunks chnkwise_times).

(** *** xarr.interp(time=..., method='linear', fill_value='extrapolate')

    Linear interpolation as scipy's interp1d evaluates it: the bracketing
    pair of samples is found by searchsorted, clipped to the first and the
    last pair, which extrapolates outside the samples. *)
Definition interp1 (x y : list Q) (x_new : Q) : Q :=
  let idx := Nat.min (Nat.max (searchsorted1 x x_new) 1) (length x - 1) in
  let lo := idx - 1 in
  let hi := idx in
  let x_lo := nth lo x 0%Q in
  let x_hi := nth hi x 0%Q in
  let y_lo := nth lo y 0%Q in
  let y_hi := nth hi y 0%Q in
  let slope := ((y_hi - y_lo) / (x_hi - x_lo))%Q in
  (slope * (x_new - x_lo) + y_lo)%Q.

Definition _interp_across_chunks_xarrayinterp (xarr : DataArray) (dimname : string)
    (chnk_time : list Q) : result (list Q) :=
  if decide (dimname = "time"%string) then
    if decide (2 ≤ length (time xarr))
    then Ok (map (interp1 (time xarr) (values xarr)) chnk_time)
    else Raise ValueError
  else Raise NotImplementedError.

(** xarr.isel({dimname: slice(i, j)}) *)
Definition isel (xarr : DataArray) (ij : nat * nat) : DataArray :=
  {| name := name xarr;
     time := slice (fst ij) (snd ij) (time xarr);
     values := slice (fst ij) (snd ij) (values xarr);
     chunks := Some [snd ij - fst ij] |}.

(** xr.concat(arrs, dimname) *)
Definition xr_concat (arrs : list (list Q)) : result (list Q) :=
  match arrs with
  | [] => Raise ValueError
  | _ => Ok (concat arrs)
  end.

(** The sequential path ([daskclient=None]) for a DataArray. *)
Definition interp_across_chunks (xarr : DataArray) (new_times : list Q)
    (dimname : string) : result (list Q) :=
  let needs_reverting := bool_decide (name xarr = Some "heading"%string) in
  let xarr :=
    if needs_reverting
    then {| name := None; time := time xarr;
            values := unwrap_deg (values xarr); chunks := None |}
    else xarr in
  '(chnk_idxs, chnkwise_times) ← _interp_across_chunks_construct_times xarr new_times dimname;
  let xarrs_chunked := map (isel xarr) chnk_idxs in
  interp_arrs ← mapM (λ '(xar, ct), _interp_across_chunks_xarrayinterp xar dimname ct)
                     (zip xarrs_chunked chnkwise_times);
  newarr ← xr_concat interp_arrs;
  let newarr := if needs_reverting then map (λ v, qmod v 360) newarr else newarr in
  if decide (length new_times = length newarr) then Ok newarr
  else Raise AssertionError.

(** A vector of times is non-decreasing: no element exceeds the next. *)
Fixpoint nondecreasing (l : list Q) : bool :=
  match l with
  | x :: rest =>
      match rest with
      | y :: _ => Qle_bool x y && nondecreasing rest
      | [] => true
      end
  | [] => true
  end.

(** What interp_across_chunks computes for each target time: linear
    interpolation of the series, of the unwrapped series taken modulo 360
    when the series is the heading. *)
Definition interp_value (xarr : DataArray) (t : Q) : Q :=
  if bool_decide (name xarr = Some "heading"%string)
  then qmod (interp1 (time xarr) (unwrap_deg (values xarr)) t) 360
  else interp1 (time xarr) (values xarr) t.

(** *** The series of the examples *)

(** The heading that crosses north: 350, 355, 0, 5, 10 at the times 0 .. 4. *)
Definition heading_across_north : DataArray :=
  {| name := Some "heading"%string;
     time := [0; 1; 2; 3; 4]%Q;
     values := [350; 355; 0; 5; 10]%Q;
     chunks := None |}.

(** A series without chunks: 0, 10, 20 at the times 0, 1, 2. *)
Definition ramp : DataArray :=
  {| name := Some "depth"%string;
     time := [0; 1; 2]%Q;
     values := [0; 10; 20]%Q;
     chunks := None |}.

(** A vector of times is increasing: every element is below the next. *)
Fixpoint increasing (l : list Q) : bool :=
  match l with
  | x :: rest =>
      match rest with
      | y :: _ => Qlt_bool x y && increasing rest
      | [] => true
      end
  | [] => true
  end.

(** The index np.searchsorted is to return for a key: the elements before it
    are below the key, the elements from it on are not. *)
Definition insertion_point (a : list Q) (key : Q) (r : nat) : Prop :=
  r ≤ length a ∧
  (∀ i x, i < r → a !! i = Some x → (x < key)%Q) ∧
  (∀ i x, r ≤ i → a !! i = Some x → (key <= x)%Q).


(** The elements of the second list at the places where the first list
    holds a sub-vector that is not empty. *)
Fixpoint keep {A B} (l : list (list A)) (l2 : list B) : list B :=
  match l, l2 with
  | [] :: l', _ :: l2' => keep l' l2'
  | _ :: l', y :: l2' => y :: keep l' l2'
  | _, _ => []
  end.

(** The chunks of the array along time, as the interpolation takes them. *)
Definition chunks_of (xarr : DataArray) : list nat :=
  match chunks xarr with
  | Some c => c
  | None => [length (time xarr)]
  end.

(** A series of six samples held in two chunks of three. *)
Definition two_chunks : DataArray :=
  {| name := Some "depth"%string;
     time := [0; 1; 2; 3; 4; 5]%Q;
     values := [0; 10; 20; 30; 40; 50]%Q;
     chunks := Some [3; 3] |}.


(** *** return_chunk_slices *)

(** What return_chunk_slices is given: a Dataset, with its chunks by
    dimension, in the order of [xarr.chunks.keys()], and the lengths of its
    dimensions; or a DataArray, whose chunks are a tuple, or None. *)
Inductive xobject :=
| XDataset (ds_chunks : list (string * list nat)) (ds_dims : gmap string nat)
| XDataArray (da_chunks : option (list (list nat))).

(** What the call raises: a remainder by zero is an exception of its own. *)
Inductive raised :=
| Exn (e : exn)
| ZeroDivisionError.

(** The slices [start, stop) of the chunks.  A DataArray has no
    [chunks.keys]: the AttributeError is caught and None is returned. *)
Definition return_chunk_slices (xarr : xobject) : raised + option (list (nat * nat)) :=
  match xarr with
  | XDataArray _ => inr None
  | XDataset ds_chunks ds_dims =>
      match ds_chunks with
      | _ :: _ :: _ => inl (Exn NotImplementedError)
      | [] => inl (Exn IndexError)
      | [(chunk_dim, chunks)] =>
          match chunks with
          | [] => inl (Exn IndexError)
          | chunk_size :: _ =>
              let chunk_slices :=
                map (λ i, (i * chunk_size, i * chunk_size + chunk_size))
                    (seq 0 (length chunks)) in
              match ds_dims !! chunk_dim with
              | None => inl (Exn KeyError)
              | Some total_len =>
                  if decide (chunk_size = 0) then inl ZeroDivisionError
                  else
                    let last_chunk_size := total_len mod chunk_size in
                    if decide (last_chunk_size ≠ 0) then
                      match set_last chunk_slices (total_len - last_chunk_size, total_len) with
                      | Ok chunk_slices => inr (Some chunk_slices)
                      | Raise e => inl (Exn e)
                      end
                    else inr (Some chunk_slices)
              end
          end
      end
  end.

(** The ranges of rows of chunks of the given sizes. *)
Definition chunk_ranges (chunks : list nat) : list (nat * nat) :=
  zip (0 :: cumsum chunks) (cumsum chunks).

(** A series of six samples in two chunks of three, with a step between
    the chunks. *)
Definition step_series : DataArray :=
  {| name := Some "depth"%string;
     time := [0; 1; 2; 3; 4; 5]%Q;
     values := [0; 0; 0; 10; 10; 10]%Q;
     chunks := Some [3; 3] |}.

End Interp.

(** ** Combination of dataset attributes: combine_xr_attributes *)

Module Attrs.

(** The installation and runtime settings are stored as JSON text of an
    object; such a text is modelled by the object it holds, with the keys
    in the order of the text, and the values are strings (as the settings
    of a ping record are).  [json.loads] and [json.dumps] are then
    inverse to each other and two dumped texts are equal exactly when the
    objects are. *)
Definition jobj : Type := list (string * string).

(** Attribute values: a plain string, the JSON text of an object, a
    number, a numpy array of numbers, and the lists the function builds. *)
Inductive attr :=
| AStr (s : string)
| AJson (o : jobj)
| ANum (q : Q)
| AArr (l : list Q)
| ANumList (l : list Q)
| AStrList (l : list string).

(** The attributes of one dataset, in insertion order. *)
Definition dict : Type := list (string * attr).

Definition json_loads (v : attr) : result jobj :=
  match v with
  | AJson o => Ok o
  | AStr _ => Raise ValueError
  | _ => Raise TypeError
  end.

(** vals.pop(key): the value and the remaining object, [None] standing for
    KeyError. *)
Fixpoint pop (key : string) (vals : jobj) : option (string * jobj) :=
  match vals with
  | [] => None
  | (k, v) :: rest =>
      if String.eqb k key then Some (v, rest)
      else match pop key rest with
           | Some (x, rest') => Some (x, (k, v) :: rest')
           | None => None
           end
  end.

(** vals[key] = v *)
Fixpoint setitem (key v : string) (vals : jobj) : jobj :=
  match vals with
  | [] => [(key, v)]
  | (k, x) :: rest =>
      if String.eqb k key then (k, v) :: rest else (k, x) :: setitem key v rest
  end.

Fixpoint list_eqb {A} (eqb : A → A → bool) (a b : list A) : bool :=
  match a, b with
  | [], [] => true
  | x :: a', y :: b' => eqb x y && list_eqb eqb a' b'
  | _, _ => false
  end.

(** x == y for two attribute values that are not numpy arrays. *)
Definition attr_eqb (x y : attr) : bool :=
  match x, y with
  | AStr a, AStr b => String.eqb a b
  | AJson a, AJson b => bool_decide (a = b)
  | ANum a, ANum b => Qeq_bool a b
  | AArr a, AArr b => list_eqb Qeq_bool a b
  | ANumList a, ANumList b => list_eqb Qeq_bool a b
  | AStrList a, AStrList b => list_eqb String.eqb a b
  | _, _ => false
  end.

(** The truth value of a numpy array of booleans: that of its element when
    it has one, ambiguous (ValueError) when it has several. *)
Definition truth (l : list bool) : result bool :=
  match l with
  | [] => Ok false
  | [b] => Ok b
  | _ => Raise ValueError
  end.

(** [if x != y] as the serial numbers are compared: element by element
    when a numpy array is involved (a single element is broadcast; arrays
    of different lengths compare unequal as a whole). *)
Definition py_ne (x y : attr) : result bool :=
  let ne := λ a b, negb (Qeq_bool a b) in
  match x, y with
  | AArr a, AArr b =>
      if decide (length a = length b) then truth (zip_with ne a b)
      else match a, b with
           | [p], _ => truth (map (ne p) b)
           | _, [q] => truth (map (λ p, ne p q) a)
           | _, _ => Ok true
           end
  | AArr a, ANum q => truth (map (λ p, ne p q) a)
  | ANum p, AArr b => truth (map (ne p) b)
  | AArr _, _ | _, AArr _ => Ok true
  | _, _ => Ok (negb (attr_eqb x y))
  end.

(** np.append(np.array(x), v) for numbers and arrays of numbers. *)
Definition np_append (x v : attr) : result attr :=
  let flat := λ a, match a with
                   | ANum q => Ok [q]
                   | AArr l | ANumList l => Ok l
                   | _ => Raise TypeError
                   end in
  a ← flat x; b ← flat v; Ok (AArr (a ++ b)).

(** np.min([v, w]) and np.max([v, w]) of two numbers. *)
Definition np_min2 (v w : attr) : result attr :=
  match v, w with
  | ANum a, ANum b => Ok (ANum (Qmin a b))
  | _, _ => Raise TypeError
  end.

Definition np_max2 (v w : attr) : result attr :=
  match v, w with
  | ANum a, ANum b => Ok (ANum (Qmax a b))
  | _, _ => Raise TypeError
  end.

(** x.tolist() *)
Definition tolist (x : attr) : result attr :=
  match x with
  | AArr l => Ok (ANumList l)
  | _ => Raise AttributeError
  end.

(** np.unique of a sorted list: repeated neighbours are dropped. *)
Fixpoint uniq (l : list string) : list string :=
  match l with
  | x :: ((y :: _) as rest) => if String.eqb x y then uniq rest else x :: uniq rest
  | _ => l
  end.

Definition np_unique (l : list string) : list string := uniq (sorted l).

(** The variables of the function. *)
Record state := {
  finaldict : gmap string attr;
  buffered_settings : option jobj;
  buffered_runtime_settings : option jobj;
  fnames : list string;
  survey_nums : list string;
  cast_dump : gmap string attr
}.

Definition initial : state :=
  {| finaldict := ∅; buffered_settings := None; buffered_runtime_settings := None;
     fnames := []; survey_nums := []; cast_dump := ∅ |}.

Definition set_finaldict (st : state) (k : string) (v : attr) : state :=
  {| finaldict := <[k := v]> (finaldict st);
     buffered_settings := buffered_settings st;
     buffered_runtime_settings := buffered_runtime_settings st;
     fnames := fnames st; survey_nums := survey_nums st;
     cast_dump := cast_dump st |}.

(** try: name = vals.pop(key); if name not in names: names.append(name)
    except KeyError: pass *)
Definition pop_name (key : string) (names : list string) (vals : jobj)
  : list string * jobj :=
  match pop key vals with
  | Some (name, vals') =>
      (if bool_decide (name ∈ names) then names else names ++ [name], vals')
  | None => (names, vals)
  end.

(** The branch for the keys that start with 'install'. *)
Definition install_entry (st : state) (k : string) (v : attr) : result state :=
  vals ← json_loads v;
  let '(fnames', vals) := pop_name "raw_file_name" (fnames st) vals in
  let '(survey_nums', vals) := pop_name "survey_identifier" (survey_nums st) vals in
  let st := {| finaldict := finaldict st;
               buffered_settings := buffered_settings st;
               buffered_runtime_settings := buffered_runtime_settings st;
               fnames := fnames'; survey_nums := survey_nums';
               cast_dump := cast_dump st |} in
  Ok (if bool_decide (buffered_settings st = Some vals) then st
      else match buffered_settings st with
           | None =>
               {| finaldict := <[k := AJson vals]> (finaldict st);
                  buffered_settings := Some vals;
                  buffered_runtime_settings := buffered_runtime_settings st;
                  fnames := fnames st; survey_nums := survey_nums st;
                  cast_dump := cast_dump st |}
           | Some _ => set_finaldict st k (AJson vals)
           end).

(** The branch for the keys that start with 'runtime'. *)
Definition runtime_entry (st : state) (k : string) (v : attr) : result state :=
  vals ← json_loads v;
  let '(counter, vals) :=
    match pop "Counter" vals with Some (c, vals') => (c, vals') | None => (""%string, vals) end in
  let vals := match pop "MinDepth" vals with Some (_, vals') => vals' | None => vals end in
  let vals := match pop "MaxDepth" vals with Some (_, vals') => vals' | None => vals end in
  if bool_decide (buffered_runtime_settings st = Some vals) then Ok st
  else
    full ← json_loads v;
    let full := setitem "Counter" counter full in
    Ok match buffered_runtime_settings st with
       | None =>
           {| finaldict := <[k := AJson full]> (finaldict st);
              buffered_settings := buffered_settings st;
              buffered_runtime_settings := Some vals;
              fnames := fnames st; survey_nums := survey_nums st;
              cast_dump := cast_dump st |}
       | Some _ => set_finaldict st k (AJson full)
       end.

Definition is_serial_key (k : string) : bool :=
  String.eqb k "system_serial_number" || String.eqb k "secondary_system_serial_number".

(** The body of the loop over the items of one attribute dict. *)
Definition entry (st : state) (kv : string * attr) : result state :=
  let '(k, v) := kv in
  if has_prefix 7 "install" k then install_entry st k v
  else if has_prefix 7 "runtime" k then runtime_entry st k v
  else if is_serial_key k && bool_decide (is_Some (finaldict st !! k)) then
    match finaldict st !! k with
    | Some old =>
        py_ne old v ≫= λ differs : bool,
          if differs then new ← np_append old v; Ok (set_finaldict st k new)
          else Ok st
    | None => Ok st
    end
  else if has_prefix 7 "profile" k then
    Ok {| finaldict := finaldict st;
          buffered_settings := buffered_settings st;
          buffered_runtime_settings := buffered_runtime_settings st;
          fnames := fnames st; survey_nums := survey_nums st;
          cast_dump := <[k := v]> (cast_dump st) |}
  else if has_prefix 3 "min" k then
    match finaldict st !! k with
    | Some old => new ← np_min2 v old; Ok (set_finaldict st k new)
    | None => Ok (set_finaldict st k v)
    end
  else if has_prefix 3 "max" k then
    match finaldict st !! k with
    | Some old => new ← np_max2 v old; Ok (set_finaldict st k new)
    | None => Ok (set_finaldict st k v)
    end
  else match finaldict st !! k with
       | Some _ => Ok st
       | None => Ok (set_finaldict st k v)
       end.

(** for d in all_attrs: for k, v in d.items(): ... *)
Fixpoint entries (st : state) (items : list (string * attr)) : result state :=
  match items with
  | [] => Ok st
  | kv :: rest => st' ← entry st kv; entries st' rest
  end.

(** The casts are visited by sorted key and only the first of equal casts
    is kept. *)
Fixpoint keep_unique_casts (casts : gmap string attr) (sorted_kys : list string)
    (unique_casts : list attr) (fd : gmap string attr) : gmap string attr :=
  match sorted_kys with
  | [] => fd
  | k :: rest =>
      match casts !! k with
      | Some c =>
          if existsb (attr_eqb c) unique_casts
          then keep_unique_casts casts rest unique_casts fd
          else keep_unique_casts casts rest (unique_casts ++ [c]) (<[k := c]> fd)
      | None => keep_unique_casts casts rest unique_casts fd
      end
  end.

(** if fnames: ... *)
Definition add_file_names (st : state) : result (gmap string attr) :=
  match fnames st with
  | [] => Ok (finaldict st)
  | _ =>
      match finaldict st !! "system_serial_number"%string with
      | None => Raise KeyError
      | Some ssn =>
          ssn ← tolist ssn;
          let fd := <["system_serial_number"%string := ssn]> (finaldict st) in
          match fd !! "secondary_system_serial_number"%string with
          | None => Raise KeyError
          | Some sec =>
              sec ← tolist sec;
              let fd := <["secondary_system_serial_number"%string := sec]> fd in
              Ok (<["multibeam_files"%string := AStrList (np_unique (fnames st))]> fd)
          end
      end
  end.

Definition finish (st : state) : result (gmap string attr) :=
  fd ← add_file_names st;
  let fd := match survey_nums st with
            | [] => fd
            | _ => <["survey_number"%string := AStrList (np_unique (survey_nums st))]> fd
            end in
  Ok (keep_unique_casts (cast_dump st) (sorted (map fst (map_to_list (cast_dump st)))) [] fd).

(** combine_xr_attributes on the list of the attribute dicts of the
    datasets. *)
Definition combine_xr_attributes (all_attrs : list dict) : result (gmap string attr) :=
  st ← entries initial (concat all_attrs);
  finish st.

(** The settings an install text is compared by: the object without its
    raw_file_name and survey_identifier fields. *)
Definition settings (o : jobj) : jobj :=
  (pop_name "survey_identifier" [] (pop_name "raw_file_name" [] o).2).2.

(** The attributes of the ping record of one batch: its install settings
    under key [k] and the two serial numbers as one element arrays. *)
Definition batch_attrs (k : string) (install : jobj) (serial secondary : Q) : dict :=
  [(k, AJson install);
   ("system_serial_number"%string, AArr [serial]);
   ("secondary_system_serial_number"%string, AArr [secondary])].

(** The state after the install text [o] was read: its names are
    recorded, and the merged dict and the buffered settings are as given. *)
Definition with_names (st : state) (o : jobj) (fd : gmap string attr)
    (buffered : option jobj) : state :=
  {| finaldict := fd;
     buffered_settings := buffered;
     buffered_runtime_settings := buffered_runtime_settings st;
     fnames := (pop_name "raw_file_name" (fnames st) o).1;
     survey_nums := (pop_name "survey_identifier" (survey_nums st)
                       (pop_name "raw_file_name" [] o).2).1;
     cast_dump := cast_dump st |}.

(** The keys of the merged dict that start with 'install'. *)
Definition install_keys (fd : gmap string attr) : gset string :=
  filter (λ k, has_prefix 7 "install" k = true) (dom fd).

(** The number of install keys of the merged dict a call returned. *)
Definition count_install_keys (r : result (gmap string attr)) : result nat :=
  fd ← r; Ok (size (install_keys fd)).


(** The keys that combine_xr_attributes treats in a way of their own, or
    writes when it is done with the datasets. *)
Definition special (k : string) : bool :=
  has_prefix 7 "install" k || has_prefix 7 "runtime" k || is_serial_key k ||
  has_prefix 7 "profile" k || has_prefix 3 "min" k || has_prefix 3 "max" k ||
  String.eqb k "multibeam_files" || String.eqb k "survey_number".

(** The first value that the items hold for a key. *)
Fixpoint first_given (k : string) (items : dict) : option attr :=
  match items with
  | [] => None
  | (k', v) :: rest => if String.eqb k' k then Some v else first_given k rest
  end.

(** Two datasets with a survey name, and depth statistics. *)
Definition line_1 : dict :=
  [("survey"%string, AStr "H12345"); ("min_depth"%string, ANum 12); ("max_depth"%string, ANum 40)].

Definition line_2 : dict :=
  [("survey"%string, AStr "H67890"); ("min_depth"%string, ANum 9); ("max_depth"%string, ANum 35)].

(** What the merged dict holds at a key of a statistic: the extreme, in the
    given order, of the numbers that the items give for the key, and
    nothing when they give none. *)
Definition extreme_of (le : Q → Q → Prop) (k : string) (seen : dict) (x : option attr)
  : Prop :=
  match x with
  | Some m => ∃ q, m = ANum q ∧ (k, ANum q) ∈ seen ∧ ∀ q', (k, ANum q') ∈ seen → le q q'
  | None => ∀ v, (k, v) ∉ seen
  end.

(** The last value that the items hold for a key. *)
Fixpoint last_given (k : string) (items : dict) : option attr :=
  match items with
  | [] => None
  | (k', v) :: rest =>
      match last_given k rest with
      | Some w => Some w
      | None => if String.eqb k' k then Some v else None
      end
  end.

(** The state of the loop over the sorted keys of the casts: the keys
    [visited] are done with, the casts [unique_casts] are kept, each under
    one visited key of the merged dict [fd]. *)
Definition casts_kept (casts : gmap string attr) (visited : list string)
    (unique_casts : list attr) (fd : gmap string attr) : Prop :=
  (∀ k, k ∉ visited → is_Some (casts !! k) → fd !! k = None) ∧
  (∀ k c, k ∈ visited → fd !! k = Some c → casts !! k = Some c ∧ c ∈ unique_casts) ∧
  (∀ c, c ∈ unique_casts → ∃ k, k ∈ visited ∧ fd !! k = Some c) ∧
  (∀ k1 k2 c, k1 ∈ visited → k2 ∈ visited → k1 ≠ k2 → fd !! k1 = Some c →
              fd !! k2 ≠ Some c) ∧
  (∀ k c, k ∈ visited → casts !! k = Some c → c ∈ unique_casts).

(** Three lines, the casts of two of which are the same. *)
Definition cast_a : attr := AStr "[[0.0, 1489.2], [50.0, 1491.0]]".
Definition cast_b : attr := AStr "[[0.0, 1502.7], [50.0, 1499.3]]".

Definition three_casts : list dict :=
  [[("profile_1495599960"%string, cast_a)];
   [("profile_1495601112"%string, cast_a)];
   [("profile_1495603000"%string, cast_b)]].

End Attrs.

(** ** The zarr writer: ZarrWrite, validate_merge, my_xarr_to_zarr *)

Module Store.

(** *** numpy and zarr arrays *)

(** The kinds of dtype that [np.issubdtype] tells apart for the writer. *)
Inductive dtype := DFloat | DInt | DOther.

Inductive value :=
| VFloat (x : float)
| VInt (z : Z)
| VStr (s : string).

Definition index : Type := list nat.

(** A numpy array: its dtype, its shape and its elements by index (the
    elements outside the shape are of no account). *)
Record ndarray := {
  nd_dtype : dtype;
  nd_shape : list nat;
  nd_data : index → value
}.

(** A zarr array: dtype, shape, chunk shape, fill value, the stored
    elements, and the dimension names kept in its attribute
    [_ARRAY_DIMENSIONS]. *)
Record zarray := {
  z_dtype : dtype;
  z_shape : list nat;
  z_chunks : list nat;
  z_fill : value;
  z_data : index → value;
  z_dims : option (list string)
}.

Fixpoint in_bounds (shape : list nat) (idx : index) : bool :=
  match shape, idx with
  | [], [] => true
  | n :: shape', i :: idx' => (i <? n) && in_bounds shape' idx'
  | _, _ => false
  end.

(** All the indices of an array of the given shape, in row-major order. *)
Fixpoint indices (shape : list nat) : list index :=
  match shape with
  | [] => [[]]
  | n :: shape' => flat_map (λ i, map (cons i) (indices shape')) (seq 0 n)
  end.

Definition elements (shape : list nat) (data : index → value) : list value :=
  map data (indices shape).

(** a.size *)
Definition nd_size (shape : list nat) : nat := foldr Nat.mul 1 shape.

(** The element of a zarr array at an index of its shape. *)
Definition zget (a : zarray) (idx : index) : option value :=
  if in_bounds (z_shape a) idx then Some (z_data a idx) else None.

Definition to_ndarray (a : zarray) : ndarray :=
  {| nd_dtype := z_dtype a; nd_shape := z_shape a; nd_data := z_data a |}.

(** A value as a float, for comparisons of times. *)
Definition as_float (v : value) : result float :=
  match v with
  | VFloat x => Ok x
  | VInt z => Ok (Num (inject_Z z))
  | VStr _ => Raise TypeError
  end.

(** Comparisons with NaN are false. *)
Definition float_le (a b : float) : bool :=
  match a, b with
  | Num x, Num y => Qle_bool x y
  | _, _ => false
  end.

Definition float_eqb (a b : float) : bool :=
  match a, b with
  | Num x, Num y => Qeq_bool x y
  | _, _ => false
  end.

Definition float_min (a b : float) : float :=
  match a, b with
  | Num x, Num y => Num (Qmin x y)
  | _, _ => NaN
  end.

Definition float_max (a b : float) : float :=
  match a, b with
  | Num x, Num y => Num (Qmax x y)
  | _, _ => NaN
  end.

(** np.min / np.max over all the elements of an array: NaN when an
    element is NaN, ValueError when there is no element. *)
Definition np_min_arr (shape : list nat) (data : index → value) : result float :=
  xs ← mapM as_float (elements shape data);
  match xs with
  | [] => Raise ValueError
  | x :: rest => Ok (foldl float_min x rest)
  end.

Definition np_max_arr (shape : list nat) (data : index → value) : result float :=
  xs ← mapM as_float (elements shape data);
  match xs with
  | [] => Raise ValueError
  | x :: rest => Ok (foldl float_max x rest)
  end.

Definition value_eqb (a b : value) : bool :=
  match a, b with
  | VFloat x, VFloat y => float_eqb x y
  | VInt x, VInt y => Z.eqb x y
  | VFloat x, VInt y | VInt y, VFloat x => float_eqb x (Num (inject_Z y))
  | VStr x, VStr y => String.eqb x y
  | _, _ => false
  end.

(** np.array_equal(a, b) *)
Definition array_equal (a b : ndarray) : bool :=
  bool_decide (nd_shape a = nd_shape b)
  && forallb (λ idx, value_eqb (nd_data a idx) (nd_data b idx)) (indices (nd_shape a)).

(** np.full(shape, v) *)
Definition np_full (dt : dtype) (shape : list nat) (v : value) : ndarray :=
  {| nd_dtype := dt; nd_shape := shape; nd_data := λ _, v |}.

(** np.arange(n) *)
Definition np_arange (n : nat) : ndarray :=
  {| nd_dtype := DInt; nd_shape := [n];
     nd_data := λ idx, match idx with i :: _ => VInt (Z.of_nat i) | [] => VInt 0 end |}.

(** np.concatenate((a, b), axis=1): the arrays have the same number of
    dimensions, two at least, and agree on every dimension but the
    second. *)
Definition np_concatenate1 (a b : ndarray) : result ndarray :=
  match nd_shape a, nd_shape b with
  | a0 :: a1 :: arest, b0 :: b1 :: brest =>
      if decide (a0 = b0 ∧ arest = brest) then
        Ok {| nd_dtype := nd_dtype a;
              nd_shape := a0 :: (a1 + b1) :: arest;
              nd_data := λ idx,
                match idx with
                | i :: j :: rest =>
                    if j <? a1 then nd_data a idx else nd_data b (i :: (j - a1) :: rest)
                | _ => nd_data a idx
                end |}
      else Raise ValueError
  | _, _ => Raise ValueError
  end.

(** A slice start:stop on a dimension of length n, as Python normalises
    it. *)
Definition clip (n : nat) (s : nat * nat) : nat * nat := (Nat.min (fst s) n, Nat.min (snd s) n).

(** The slices of a basic selection, one for each dimension: the missing
    ones are full slices; more slices than dimensions is an IndexError. *)
Fixpoint normalize_selection (shape : list nat) (sel : list (nat * nat))
  : result (list (nat * nat)) :=
  match shape, sel with
  | [], [] => Ok []
  | [], _ :: _ => Raise IndexError
  | n :: shape', [] => rest ← normalize_selection shape' []; Ok ((0, n) :: rest)
  | n :: shape', s :: sel' => rest ← normalize_selection shape' sel'; Ok (clip n s :: rest)
  end.

Fixpoint in_selection (sel : list (nat * nat)) (idx : index) : bool :=
  match sel, idx with
  | [], [] => true
  | (start, stop) :: sel', i :: idx' => (start <=? i) && (i <? stop) && in_selection sel' idx'
  | _, _ => false
  end.

Definition selection_shape (sel : list (nat * nat)) : list nat :=
  map (λ s, snd s - fst s) sel.

Definition selection_offset (sel : list (nat * nat)) (idx : index) : index :=
  zip_with (λ s i, i - fst s) sel idx.

(** z[sel] = v for slices [sel] and an array [v], which must have the
    shape of the selection. *)
Definition z_setitem (a : zarray) (sel : list (nat * nat)) (v : ndarray) : result zarray :=
  sel ← normalize_selection (z_shape a) sel;
  if decide (nd_shape v = selection_shape sel) then
    Ok {| z_dtype := z_dtype a; z_shape := z_shape a; z_chunks := z_chunks a;
          z_fill := z_fill a;
          z_data := λ idx, if in_selection sel idx
                           then nd_data v (selection_offset sel idx)
                           else z_data a idx;
          z_dims := z_dims a |}
  else Raise ValueError.

(** z.resize(shape): a [None] entry keeps the length of its dimension;
    the elements that come into being hold the fill value. *)
Definition z_resize (a : zarray) (shape : list (option nat)) : result zarray :=
  if decide (length shape = length (z_shape a)) then
    Ok {| z_dtype := z_dtype a;
          z_shape := zip_with (λ n o, default n o) (z_shape a) shape;
          z_chunks := z_chunks a;
          z_fill := z_fill a;
          z_data := λ idx, if in_bounds (z_shape a) idx then z_data a idx else z_fill a;
          z_dims := z_dims a |}
  else Raise ValueError.

(** The chunk shape names at most as many dimensions as the array has. *)
Definition normalize_chunks (shape chunks : list nat) : result (list nat) :=
  if decide (length chunks ≤ length shape)
  then Ok (chunks ++ drop (length chunks) shape)
  else Raise ValueError.

(** An array created with a shape and a fill value, nothing stored yet. *)
Definition z_create (dt : dtype) (shape chunks : list nat) (fill : value) : result zarray :=
  chunks ← normalize_chunks shape chunks;
  Ok {| z_dtype := dt; z_shape := shape; z_chunks := chunks; z_fill := fill;
        z_data := λ _, fill; z_dims := None |}.

Definition set_dims (a : zarray) (dims : list string) : zarray :=
  {| z_dtype := z_dtype a; z_shape := z_shape a; z_chunks := z_chunks a;
     z_fill := z_fill a; z_data := z_data a; z_dims := Some dims |}.

(** A one-dimensional numpy array with the given elements. *)
Definition nd_of_list (dt : dtype) (l : list value) : ndarray :=
  {| nd_dtype := dt; nd_shape := [length l];
     nd_data := λ idx, nth (hd 0 idx) l (VFloat NaN) |}.

(** A two-dimensional numpy array with the given rows of the given
    length. *)
Definition nd_of_rows (dt : dtype) (ncols : nat) (rows : list (list value)) : ndarray :=
  {| nd_dtype := dt; nd_shape := [length rows; ncols];
     nd_data := λ idx, nth (hd 0 (tail idx)) (nth (hd 0 idx) rows []) (VFloat NaN) |}.

(** The zarr array that holds a numpy array, with its dimension names. *)
Definition z_of_ndarray (a : ndarray) (fill : value) (dims : list string) : zarray :=
  {| z_dtype := nd_dtype a; z_shape := nd_shape a; z_chunks := nd_shape a;
     z_fill := fill; z_data := nd_data a; z_dims := Some dims |}.

(** *** Groups and datasets *)

(** Attribute values: strings and numbers (an attribute that is a list or a
    dict is outside this model). *)
Inductive attr :=
| AStr (s : string)
| ANum (q : Q).

Definition attr_eqb (a b : attr) : bool :=
  match a, b with
  | AStr x, AStr y => String.eqb x y
  | ANum x, ANum y => Qeq_bool x y
  | _, _ => false
  end.

(** A zarr group: its arrays by name and its attributes. *)
Record group := {
  arrays : gmap string zarray;
  attrs : gmap string attr
}.

(** A variable of an xarray Dataset: its dimension names and its values. *)
Record DataArray := {
  da_dims : list string;
  da_values : ndarray
}.

(** An xarray Dataset: its variables (coordinates among them) by name, in
    the order of [xarr.variables]. *)
Definition Dataset : Type := list (string * DataArray).

Fixpoint assoc {A} (k : string) (l : list (string * A)) : option A :=
  match l with
  | [] => None
  | (k', v) :: rest => if String.eqb k' k then Some v else assoc k rest
  end.

(** xarr[k] *)
Definition ds_get (xarr : Dataset) (k : string) : result DataArray :=
  match assoc k xarr with Some a => Ok a | None => Raise KeyError end.

(** a[0] and a[-1] of a one-dimensional array *)
Definition first_value (a : ndarray) : result value :=
  match nd_shape a with
  | n :: _ => if decide (0 < n) then Ok (nd_data a [0]) else Raise IndexError
  | [] => Raise IndexError
  end.

Definition last_value (a : ndarray) : result value :=
  match nd_shape a with
  | n :: _ => if decide (0 < n) then Ok (nd_data a [n - 1]) else Raise IndexError
  | [] => Raise IndexError
  end.

(** *** State and failure

    A computation runs on a state, and gives a result or raises, and the
    state it leaves behind either way. *)
Definition M (S A : Type) : Type := S → result A * S.

Definition ret {S A} (x : A) : M S A := λ s, (Ok x, s).
Definition raise {S A} (e : exn) : M S A := λ s, (Raise e, s).
Definition bind {S A B} (m : M S A) (f : A → M S B) : M S B :=
  λ s, match m s with
       | (Ok x, s') => f x s'
       | (Raise e, s') => (Raise e, s')
       end.
Definition get {S} : M S S := λ s, (Ok s, s).
Definition put {S} (s : S) : M S unit := λ _, (Ok tt, s).
Definition lift {S A} (r : result A) : M S A := λ s, (r, s).

Fixpoint for_each {S A} (l : list A) (body : A → M S unit) : M S unit :=
  match l with
  | [] => ret tt
  | x :: rest => bind (body x) (λ _, for_each rest body)
  end.

#[global] Instance M_ret S : MRet (M S) := λ A, ret.
#[global] Instance M_bind S : MBind (M S) := λ A B f m, bind m f.

(** a.shape[0] *)
Definition shape0 (shape : list nat) : result nat :=
  match shape with n :: _ => Ok n | [] => Raise IndexError end.

(** g[var] *)
Definition g_get (g : group) (var : string) : result zarray :=
  match arrays g !! var with Some a => Ok a | None => Raise KeyError end.

Definition g_set (g : group) (var : string) (a : zarray) : group :=
  {| arrays := <[var := a]> (arrays g); attrs := attrs g |}.

(** [t for t in rootgroup.array_keys()]: zarr lists the keys sorted. *)
Definition array_keys (g : group) : list string := sorted (map fst (map_to_list (arrays g))).

(** The items of xarr that have dimensions and a shape, each with its
    dimension names and its shape. *)
Definition _my_xarr_to_zarr_build_arraydimensions (xarr : Dataset)
  : list (string * (list string * list nat)) :=
  omap (λ '(arr, da),
          match da_dims da, nd_shape (da_values da) with
          | _ :: _, _ :: _ => Some (arr, (da_dims da, nd_shape (da_values da)))
          | _, _ => None
          end) xarr.

(** for att in attrs: ...  With attributes that are strings or numbers the
    value is stored whether or not the key is there already. *)
Definition _my_xarr_to_zarr_writeattributes (g : group)
    (new_attrs : option (list (string * attr))) : group :=
  match new_attrs with
  | None => g
  | Some l =>
      {| arrays := arrays g;
         attrs := foldl (λ m kv, <[fst kv := snd kv]> m) (attrs g) l |}
  end.

(** *** ZarrWrite *)

Record ZarrWrite := {
  desired_chunk_shape : gmap string (list nat);
  append_dim : string;
  expand_dim : string;
  float_no_data_value : value;
  int_no_data_value : value;
  rootgroup : group;
  zarr_array_names : list string
}.

Definition set_rootgroup (zw : ZarrWrite) (g : group) : ZarrWrite :=
  {| desired_chunk_shape := desired_chunk_shape zw; append_dim := append_dim zw;
     expand_dim := expand_dim zw; float_no_data_value := float_no_data_value zw;
     int_no_data_value := int_no_data_value zw; rootgroup := g;
     zarr_array_names := zarr_array_names zw |}.

(** self.rootgroup[var] = a (a resize of, or an assignment into, the
    array of the group). *)
Definition put_array (var : string) (a : zarray) : M ZarrWrite unit :=
  λ zw, (Ok tt, set_rootgroup zw (g_set (rootgroup zw) var a)).

Definition get_array (var : string) : M ZarrWrite zarray :=
  λ zw, (g_get (rootgroup zw) var, zw).

Definition get_array_names : M ZarrWrite unit :=
  λ zw, (Ok tt,
         {| desired_chunk_shape := desired_chunk_shape zw; append_dim := append_dim zw;
            expand_dim := expand_dim zw; float_no_data_value := float_no_data_value zw;
            int_no_data_value := int_no_data_value zw; rootgroup := rootgroup zw;
            zarr_array_names := array_keys (rootgroup zw) |}).

(** ZarrWrite(zarr_path, desired_chunk_shape, ...) on the group found at
    the path: the defaults of __init__, and [open]. *)
Definition open (chunk_shape : gmap string (list nat)) (g : group) : ZarrWrite :=
  {| desired_chunk_shape := chunk_shape; append_dim := "time"; expand_dim := "beam";
     float_no_data_value := VFloat NaN; int_no_data_value := VInt 999;
     rootgroup := g; zarr_array_names := array_keys g |}.

(** The new attributes whose key starts with the prefix and whose value is
    among the values the group has under such keys are dropped. *)
Definition only_unique (n : nat) (p : string) (g : group) (new_attrs : list (string * attr))
  : list (string * attr) :=
  let current_vals :=
    map snd (filter (λ kv, has_prefix n p (fst kv) = true) (map_to_list (attrs g))) in
  filter (λ kv, ¬ (has_prefix n p (fst kv) = true ∧
                   existsb (attr_eqb (snd kv)) current_vals = true)) new_attrs.

Definition _attributes_only_unique_profile (zw : ZarrWrite) :=
  only_unique 7 "profile" (rootgroup zw).

Definition _attributes_only_unique_settings (zw : ZarrWrite) :=
  only_unique 8 "settings" (rootgroup zw).

(** An xyzrph attribute that is a string or a number has no keys: the
    attempt raises inside the [try] and the attributes are returned as
    they are. *)
Definition _attributes_only_unique_xyzrph (zw : ZarrWrite)
    (new_attrs : list (string * attr)) : list (string * attr) := new_attrs.

Definition write_attributes (new_attrs : option (list (string * attr))) : M ZarrWrite unit :=
  λ zw,
    match new_attrs with
    | None => (Ok tt, zw)
    | Some l =>
        let l := _attributes_only_unique_profile zw l in
        let l := _attributes_only_unique_settings zw l in
        let l := _attributes_only_unique_xyzrph zw l in
        (Ok tt, set_rootgroup zw (_my_xarr_to_zarr_writeattributes (rootgroup zw) (Some l)))
    end.

(** The time range of the data lies within the time range of the group. *)
Definition _check_merge (zw : ZarrWrite) (input_xarr : Dataset) : result bool :=
  match arrays (rootgroup zw) !! append_dim zw with
  | Some t =>
      tim ← ds_get input_xarr (append_dim zw);
      first ← first_value (da_values tim);
      first ← as_float first;
      mn ← np_min_arr (z_shape t) (z_data t);
      if float_le mn first then
        last ← last_value (da_values tim);
        last ← as_float last;
        mx ← np_max_arr (z_shape t) (z_data t);
        Ok (float_le last mx)
      else Ok false
  | None => Ok false
  end.

Definition _check_fix_rootgroup_expand_dim (zw : ZarrWrite) (xarr : Dataset) : result bool :=
  match arrays (rootgroup zw) !! expand_dim zw, assoc (expand_dim zw) xarr with
  | Some b, Some xb =>
      let last_expand := nd_size (z_shape b) in
      n ← shape0 (nd_shape (da_values xb));
      Ok (last_expand <? n)
  | _, _ => Ok false
  end.

Definition _get_arr_nodatavalue (zw : ZarrWrite) (arr_dtype : dtype) : value :=
  match arr_dtype with
  | DFloat => float_no_data_value zw
  | DInt => int_no_data_value zw
  | DOther => VStr ""
  end.

(** np.full of a shape with a negative length raises ValueError. *)
Definition _inflate_expand_dim (input_arr : ndarray) (expand_dim_size : nat)
    (nodata : value) : result ndarray :=
  match nd_shape input_arr with
  | [] | [_] => Raise IndexError
  | s0 :: s1 :: rest =>
      if decide (expand_dim_size < s1) then Raise ValueError
      else
        let appended_data :=
          match rest with
          | [s2] => np_full (nd_dtype input_arr) [s0; expand_dim_size - s1; s2] nodata
          | _ => np_full (nd_dtype input_arr) [s0; expand_dim_size - s1] nodata
          end in
        np_concatenate1 input_arr appended_data
  end.

(** The body of the loop of fix_rootgroup_expand_dim for one name. *)
Definition fix_one (xarr : Dataset) (curr_expand_dim_size : nat) (var : string)
  : M ZarrWrite unit :=
  zw ← get;
  new ← lift (
    if decide (var = expand_dim zw) then
      xb ← ds_get xarr (expand_dim zw);
      n ← shape0 (nd_shape (da_values xb));
      Ok (Some (np_arange n, map Some (nd_shape (da_values xb))))
    else
      a ← g_get (rootgroup zw) var;
      match z_shape a with
      | s0 :: s1 :: rest =>
          if decide (s1 = curr_expand_dim_size) then
            let nodata_value := _get_arr_nodatavalue zw (z_dtype a) in
            xb ← ds_get xarr (expand_dim zw);
            n ← shape0 (nd_shape (da_values xb));
            newdat ← _inflate_expand_dim (to_ndarray a) n nodata_value;
            Ok (Some (newdat, map Some (s0 :: n :: rest)))
          else Ok None
      | _ => Ok None
      end);
  match new with
  | Some (newdat, newshp) =>
      a ← get_array var;
      a ← lift (z_resize a newshp);
      put_array var a;;
      a ← get_array var;
      a ← lift (z_setitem a [] newdat);
      put_array var a
  | None => mret tt
  end.

Definition fix_rootgroup_expand_dim (xarr : Dataset) : M ZarrWrite unit :=
  zw ← get;
  b ← get_array (expand_dim zw);
  let curr_expand_dim_size := nd_size (z_shape b) in
  for_each (zarr_array_names zw) (fix_one xarr curr_expand_dim_size).

Definition correct_rootgroup_dims (xarr : Dataset) : M ZarrWrite unit :=
  zw ← get;
  b ← lift (_check_fix_rootgroup_expand_dim zw xarr);
  if (b : bool) then fix_rootgroup_expand_dim xarr else mret tt.

(** startingshp[1] = self.rootgroup['beam'].shape[0] *)
Definition _write_adjust_max_beams (zw : ZarrWrite) (startingshp : list (option nat))
  : result (list (option nat)) :=
  if decide (2 ≤ length startingshp) then
    b ← g_get (rootgroup zw) "beam";
    current_max_beams ← shape0 (z_shape b);
    Ok (<[1 := Some current_max_beams]> startingshp)
  else Ok startingshp.

(** The axis of the append dimension, the length of the data along it, and
    the shape the array of the group is to get: [finalsize] where the
    length is found first at the time axis. *)
Definition _write_determine_shape (zw : ZarrWrite) (var : string)
    (dims : list string) (shape : list nat) (finalsize : option nat)
  : result (option nat * option nat * list (option nat)) :=
  if bool_decide (var ∈ ["beam"; "xyz"]%string) then
    Ok (None, None, map Some shape)
  else
    match index_of (append_dim zw) dims with
    | None => Raise ValueError
    | Some timaxis =>
        match shape !! timaxis with
        | None => Raise IndexError
        | Some timlength =>
            Ok (Some timaxis, Some timlength,
                map (λ x, if decide (index_of x shape = Some timaxis)
                          then finalsize else Some x) shape)
        end
    end.

(** zarr.array(values, shape=..., chunks=chunksize) *)
Definition zarr_array (values : ndarray) (chunks : list nat) : result ndarray :=
  _ ← normalize_chunks (nd_shape values) chunks; Ok values.

Definition _write_existing_rootgroup (xarr : Dataset) (data_loc_copy : nat * nat)
    (var : string) (shape : list nat) (chunksize : list nat)
    (timlength timaxis : option nat) (startingshp : option (list (option nat)))
  : M ZarrWrite unit :=
  da ← lift (ds_get xarr var);
  newarr ← lift (zarr_array (da_values da) chunksize);
  data_loc_copy ← lift (
    match timlength with
    | Some tl =>
        Ok (if decide (Z.of_nat tl ≠ Z.of_nat (snd data_loc_copy) - Z.of_nat (fst data_loc_copy))%Z
            then (fst data_loc_copy, fst data_loc_copy + tl)
            else data_loc_copy)
    | None => Raise TypeError
    end);
  let chunk_time_range := data_loc_copy in
  let chunk_idx :=
    map (λ i, if decide (index_of i shape = timaxis)
              then chunk_time_range else (0, i)) shape in
  match startingshp with
  | Some shp =>
      if decide (var ≠ "tx"%string) then
        zw ← get;
        shp ← lift (_write_adjust_max_beams zw shp);
        a ← get_array var;
        a ← lift (z_resize a shp);
        put_array var a
      else mret tt
  | None => mret tt
  end;;
  a ← get_array var;
  a ← lift (z_setitem a chunk_idx newarr);
  put_array var a.

Definition _write_new_dataset_rootgroup (xarr : Dataset) (var : string)
    (shape : list nat) (chunksize : list nat) (startingshp : list (option nat))
  : M ZarrWrite unit :=
  zw ← get;
  da ← lift (ds_get xarr var);
  newarr ← lift (
    match arrays (rootgroup zw) !! var with
    | Some _ => Raise ValueError
    | None =>
        let dt := nd_dtype (da_values da) in
        z_create dt shape chunksize (_get_arr_nodatavalue zw dt)
    end);
  newarr ← lift (z_setitem newarr [] (da_values da));
  newarr ← lift (z_resize newarr startingshp);
  put_array var newarr.

(** The body of the loop of write_to_zarr for one variable. *)
Definition write_one (xarr : Dataset) (dataloc : nat * nat) (finalsize : option nat)
    (merge : bool) (item : string * (list string * list nat)) : M ZarrWrite unit :=
  let '(var, (dims, shape)) := item in
  zw ← get;
  let already_written := bool_decide (var ∈ zarr_array_names zw) in
  if merge && bool_decide (var ∈ [append_dim zw; "beam"%string]) then mret tt
  else if bool_decide (var ∈ ["beam"; "xyz"]%string) && already_written then mret tt
  else
    '(timaxis, timlength, startingshp) ←
      lift (_write_determine_shape zw var dims shape finalsize);
    chunksize ← lift (match desired_chunk_shape zw !! var with
                      | Some c => Ok c
                      | None => Raise KeyError
                      end);
    let data_loc_copy := dataloc in
    (if already_written then
       match finalsize with
       | Some _ =>
           _write_existing_rootgroup xarr data_loc_copy var shape chunksize timlength
                                     timaxis (Some startingshp)
       | None =>
           _write_existing_rootgroup xarr data_loc_copy var shape chunksize timlength
                                     timaxis None
       end
     else _write_new_dataset_rootgroup xarr var shape chunksize startingshp);;
    a ← get_array var;
    put_array var (set_dims a dims).

Definition unable_to_merge : exn :=
  ValueErrorWith "write_to_zarr: Unable to merge, time not found in existing data store.".

Definition write_to_zarr (xarr : Dataset) (new_attrs : option (list (string * attr)))
    (dataloc : nat * nat) (finalsize : option nat) (merge : bool) : M ZarrWrite unit :=
  zw ← get;
  (if merge then
     ok ← lift (_check_merge zw xarr);
     if (ok : bool) then mret tt else raise unable_to_merge
   else mret tt);;
  match finalsize with
  | Some _ => correct_rootgroup_dims xarr
  | None => mret tt
  end;;
  get_array_names;;
  let dims_of_arrays := _my_xarr_to_zarr_build_arraydimensions xarr in
  write_attributes new_attrs;;
  for_each dims_of_arrays (write_one xarr dataloc finalsize merge).

(** _distrib_zarr_write_convenience: a ZarrWrite is made for the group at
    the path and the data are written with it; what is left is the group. *)
Definition _distrib_zarr_write_convenience (chunk_shape : gmap string (list nat))
    (xarr : Dataset) (new_attrs : option (list (string * attr))) (dataloc : nat * nat)
    (finalsize : option nat) (merge : bool) : M group unit :=
  λ g, let '(r, zw) := write_to_zarr xarr new_attrs dataloc finalsize merge (open chunk_shape g)
       in (r, rootgroup zw).

(** *** validate_merge and my_xarr_to_zarr *)

(** x in a: some element of the array is equal to x. *)
Definition contains (a : zarray) (x : value) : bool :=
  existsb (value_eqb x) (elements (z_shape a) (z_data a)).

Definition validate_merge (xarr : Dataset) (rootgroup : group) : result bool :=
  match assoc "time" xarr, arrays rootgroup !! "time"%string with
  | Some tim, Some t =>
      first ← first_value (da_values tim);
      Ok (contains t first)
  | _, _ => Ok true
  end.

(** The fill value of an array created with [fill_value=None]. *)
Definition no_fill (dt : dtype) : value :=
  match dt with
  | DFloat => VFloat (Num 0)
  | DInt => VInt 0
  | DOther => VStr ""
  end.

(** The body of the loop of my_xarr_to_zarr for one variable. *)
Definition my_write_one (xarr : Dataset) (dataloc : nat * nat) (append_dim : string)
    (finalsize : option nat) (merge : bool) (override_chunk_size : option nat)
    (existing_arrs : list string) (item : string * (list string * list nat))
  : M group unit :=
  let '(var, (dims, shape)) := item in
  if merge && bool_decide (var ∈ ["time"; "beam"; "sector"]%string) then mret tt
  else
    let chunksize := match override_chunk_size with
                     | Some c => replicate (length shape) c
                     | None => shape
                     end in
    let data_loc_copy := dataloc in
    da ← lift (ds_get xarr var);
    (if bool_decide (var ∈ ["sector"; "beam"; "xyz"]%string) then
       if bool_decide (var ∈ existing_arrs) then
         rootgroup ← get;
         a ← lift (g_get rootgroup var);
         (* the message adds a str and an ndarray, which raises TypeError *)
         if array_equal (da_values da) (to_ndarray a) then mret tt else raise TypeError
       else
         rootgroup ← get;
         a ← lift (z_create (nd_dtype (da_values da)) shape shape
                            (no_fill (nd_dtype (da_values da))));
         a ← lift (z_setitem a [] (da_values da));
         put (g_set rootgroup var a)
     else
       (* len(xarr[var][append_dim]): the variable has the append dimension *)
       timlength ← lift (match index_of append_dim dims with
                         | Some ax => match shape !! ax with
                                      | Some n => Ok n
                                      | None => Raise IndexError
                                      end
                         | None => Raise KeyError
                         end);
       timaxis ← lift (match index_of timlength shape with
                       | Some ax => Ok ax
                       | None => Raise ValueError
                       end);
       if bool_decide (var ∈ existing_arrs) then
         newarr ← lift (zarr_array (da_values da) chunksize);
         let data_loc_copy :=
           if decide (Z.of_nat timlength ≠
                      Z.of_nat (snd data_loc_copy) - Z.of_nat (fst data_loc_copy))%Z
           then (fst data_loc_copy, fst data_loc_copy + timlength)
           else data_loc_copy in
         let chunk_idx :=
           map (λ i, if decide (index_of i shape = Some timaxis)
                     then data_loc_copy else (0, i)) shape in
         rootgroup ← get;
         a ← lift (g_get rootgroup var);
         a ← lift (z_setitem a chunk_idx newarr);
         put (g_set rootgroup var a)
       else
         let startingshp :=
           map (λ x, if decide (index_of x shape = Some timaxis)
                     then finalsize else Some x) shape in
         rootgroup ← get;
         newarr ← lift (
           match arrays rootgroup !! var with
           | Some _ => Raise ValueError
           | None => z_create (nd_dtype (da_values da)) shape chunksize
                              (no_fill (nd_dtype (da_values da)))
           end);
         newarr ← lift (z_setitem newarr [] (da_values da));
         newarr ← lift (z_resize newarr startingshp);
         put (g_set rootgroup var newarr));;
    rootgroup ← get;
    a ← lift (g_get rootgroup var);
    put (g_set rootgroup var (set_dims a dims)).

(** my_xarr_to_zarr on the group at the output path; the value returned is
    the path, or None when the merge is found not to be valid. *)
Definition my_xarr_to_zarr (xarr : Dataset) (new_attrs : option (list (string * attr)))
    (outputpth : string) (dataloc : nat * nat) (append_dim : string)
    (finalsize : option nat) (merge : bool) (override_chunk_size : option nat)
  : M group (option string) :=
  let dims_of_arrays := _my_xarr_to_zarr_build_arraydimensions xarr in
  rootgroup ← get;
  valid ← lift (if merge then validate_merge xarr rootgroup else Ok true);
  if negb valid then mret None
  else
    let existing_arrs := array_keys rootgroup in
    put (_my_xarr_to_zarr_writeattributes rootgroup new_attrs);;
    for_each dims_of_arrays
             (my_write_one xarr dataloc append_dim finalsize merge override_chunk_size
                           existing_arrs);;
    mret (Some outputpth).

(** The array [a'] is the array [a] with its second dimension grown from
    [B1] to [B2]: the elements of the columns below [B1] are those of [a],
    the elements of the columns from [B1] on are [nodata]. *)
Definition grown (B1 B2 : nat) (nodata : value) (a a' : zarray) : Prop :=
  ∃ s0 rest,
    z_shape a = s0 :: B1 :: rest ∧
    z_shape a' = s0 :: B2 :: rest ∧
    z_dtype a' = z_dtype a ∧
    ∀ i j r, in_bounds (z_shape a') (i :: j :: r) = true →
             z_data a' (i :: j :: r) =
             if j <? B1 then z_data a (i :: j :: r) else nodata.

(** An error raised by numpy, zarr or xarray, and not by a [raise]
    statement of the writer. *)
Definition plain (e : exn) : Prop :=
  match e with ValueErrorWith _ => False | _ => True end.

Definition plain_result {A} (r : result A) : Prop := ∀ e, r = Raise e → plain e.
Definition plain_M {S A} (m : M S A) : Prop := ∀ s e s', m s = (Raise e, s') → plain e.

(** Every run of the computation relates the state it starts from to the
    state it ends in. *)
Definition preserves {A} (R : ZarrWrite → ZarrWrite → Prop) (m : M ZarrWrite A) : Prop :=
  ∀ s r s', m s = (r, s') → R s s'.

(** The settings of the writer and its list of names are the same, and no
    array of the group is gone. *)
Definition keeps (s s' : ZarrWrite) : Prop :=
  zarr_array_names s' = zarr_array_names s ∧
  append_dim s' = append_dim s ∧
  expand_dim s' = expand_dim s ∧
  desired_chunk_shape s' = desired_chunk_shape s ∧
  ∀ v, is_Some (arrays (rootgroup s) !! v) → is_Some (arrays (rootgroup s') !! v).

(** As [keeps], and the arrays other than [var] are the same. *)
Definition frame (var : string) (s s' : ZarrWrite) : Prop :=
  keeps s s' ∧
  ∀ k, k ≠ var → arrays (rootgroup s') !! k = arrays (rootgroup s) !! k.

(** The expand dimension is the same, and an array [v] other than the one
    of the expand dimension is still there with the length it had along
    its first dimension. *)
Definition same_length (v : string) (s s' : ZarrWrite) : Prop :=
  expand_dim s' = expand_dim s ∧
  (v ≠ expand_dim s →
   ∀ a, arrays (rootgroup s) !! v = Some a →
        ∃ a', arrays (rootgroup s') !! v = Some a' ∧ z_shape a' !! 0 = z_shape a !! 0).

(** *** The groups and datasets of the examples *)

Definition floats (l : list Q) : ndarray :=
  nd_of_list DFloat (map (λ q, VFloat (Num q)) l).

(** A variable over time with the given values. *)
Definition time_series (l : list Q) : DataArray :=
  {| da_dims := ["time"%string]; da_values := floats l |}.

Definition times_0_10 : zarray :=
  z_of_ndarray (floats [0; 10]%Q) (VFloat NaN) ["time"%string].

(** A group that holds the times 0 and 10. *)
Definition group_0_10 : group :=
  {| arrays := {[ "time"%string := times_0_10 ]}; attrs := ∅ |}.

(** A batch with one time, 5, and a new variable y. *)
Definition batch_y_at_5 : Dataset :=
  [("time"%string, time_series [5%Q]); ("y"%string, time_series [7%Q])].

(** A batch with the times 0 and 20 and a new variable y. *)
Definition batch_y_0_20 : Dataset :=
  [("time"%string, time_series [0; 20]%Q); ("y"%string, time_series [7; 8]%Q)].

Definition floats2 (ncols : nat) (rows : list (list Q)) : ndarray :=
  nd_of_rows DFloat ncols (map (map (λ q, VFloat (Num q))) rows).

(** The beam numbers 0 .. n-1. *)
Definition beams (n : nat) : DataArray :=
  {| da_dims := ["beam"%string]; da_values := np_arange n |}.

(** A group of two pings of two beams: time, beam and a variable x over
    (time, beam). *)
Definition group_two_beams : group :=
  {| arrays :=
       {[ "time"%string := z_of_ndarray (floats [0; 1]%Q) (VFloat NaN) ["time"%string];
          "beam"%string := z_of_ndarray (np_arange 2) (VInt 999) ["beam"%string];
          "x"%string := z_of_ndarray (floats2 2 [[1; 2]; [3; 4]]%Q) (VFloat NaN)
                                     ["time"; "beam"]%string ]};
     attrs := ∅ |}.

(** A batch of one ping of three beams. *)
Definition batch_three_beams : Dataset :=
  [("time"%string, time_series [2%Q]);
   ("beam"%string, beams 3);
   ("x"%string, {| da_dims := ["time"; "beam"]%string;
                   da_values := floats2 3 [[5; 6; 7]%Q] |})].

(** The element at an index of an array of a group, and its shape. *)
Definition read (g : group) (var : string) (idx : index) : option value :=
  a ← arrays g !! var; zget a idx.

Definition shape_of (g : group) (var : string) : option (list nat) :=
  z_shape <$> arrays g !! var.

(** A group that holds two times and a variable x of the same length. *)
Definition group_time_x : group :=
  {| arrays := {[ "time"%string := z_of_ndarray (floats [0; 1]%Q) (VFloat NaN) ["time"%string];
                  "x"%string := z_of_ndarray (floats [3; 4]%Q) (VFloat NaN) ["time"%string] ]};
     attrs := ∅ |}.

(** The array [v] of the group is the same array, or is absent as it was. *)
Definition untouched (v : string) (s s' : ZarrWrite) : Prop :=
  arrays (rootgroup s') !! v = arrays (rootgroup s) !! v.

(** The settings of the writer are the same. *)
Definition same_config (s s' : ZarrWrite) : Prop :=
  desired_chunk_shape s' = desired_chunk_shape s ∧
  append_dim s' = append_dim s ∧
  expand_dim s' = expand_dim s ∧
  float_no_data_value s' = float_no_data_value s ∧
  int_no_data_value s' = int_no_data_value s.

(** The no data value of a dtype with the defaults of the writer. *)
Definition nodata_of (dt : dtype) : value :=
  match dt with
  | DFloat => VFloat NaN
  | DInt => VInt 999
  | DOther => VStr ""
  end.

(** *** resize_zarr *)

(** np.count_nonzero(~np.isnan(a)) *)
Definition count_not_nan (a : zarray) : result nat :=
  xs ← mapM as_float (elements (z_shape a) (z_data a));
  Ok (length (filter (λ x, isnan x = false) xs)).

(** The body of the loop of resize_zarr for one array of the group. *)
Definition resize_one (finaltimelength : nat) (varname : string) : M group unit :=
  if bool_decide (varname ∈ ["beam"; "sector"]%string) then mret tt
  else
    rootgroup ← get;
    a ← lift (g_get rootgroup varname);
    dims ← lift (match z_dims a with Some d => Ok d | None => Raise KeyError end);
    time_index ← lift (match index_of "time"%string dims with
                       | Some i => Ok i
                       | None => Raise ValueError
                       end);
    new_shape ← lift (if decide (time_index < length (z_shape a))
                      then Ok (<[time_index := finaltimelength]> (z_shape a))
                      else Raise IndexError);
    a ← lift (z_resize a (map Some new_shape));
    put (g_set rootgroup varname a).

(** resize_zarr on the group at the path; without a length, the number of
    times that are not NaN is taken. *)
Definition resize_zarr (finaltimelength : option nat) : M group unit :=
  rootgroup ← get;
  finaltimelength ← lift (match finaltimelength with
                          | Some n => Ok n
                          | None => t ← g_get rootgroup "time"; count_not_nan t
                          end);
  for_each (array_keys rootgroup) (resize_one finaltimelength).

(** The array [a'] is the array [a] resized to the length [n] along its
    dimension [k]: what was stored within the shape of [a] is the same, the
    rest is the fill value. *)
Definition resized (n k : nat) (a a' : zarray) : Prop :=
  z_shape a' = <[k := n]> (z_shape a) ∧
  z_dtype a' = z_dtype a ∧ z_fill a' = z_fill a ∧ z_dims a' = z_dims a ∧
  ∀ idx, z_data a' idx = if in_bounds (z_shape a) idx then z_data a idx else z_fill a.

(** A group with the static array xyz beside time. *)
Definition group_time_xyz : group :=
  {| arrays := {[ "time"%string := z_of_ndarray (floats [0; 1]%Q) (VFloat NaN) ["time"%string];
                  "xyz"%string := z_of_ndarray (nd_of_list DOther [VStr "x"; VStr "y"; VStr "z"])
                                               (VStr "") ["xyz"%string] ]};
     attrs := ∅ |}.


(** *** distrib_zarr_write

    The writes with a dask client (skip_dask=False).  client.submit runs
    the task: a task that raises keeps its exception in its future, and the
    store is left as the task left it.  Every submit is followed by wait, so
    the tasks run one after the other. *)
Definition submit {A} (task : M group A) : M group (result A) :=
  λ g, let '(r, g') := task g in (Ok r, g').

(** for i in range(len(xarrays) - 1): the tasks for xarrays[i + 1] at
    data_locs[i + 1], without attributes and without final size. *)
Fixpoint later_writes (chunk_sizes : gmap string (list nat)) (xarrays : list Dataset)
    (data_locs : list (nat * nat)) (merge : bool) : M group (list (result unit)) :=
  match xarrays with
  | [] => mret []
  | xarr :: xarrays' =>
      match data_locs with
      | [] => raise IndexError
      | data_loc :: data_locs' =>
          fut ← submit (_distrib_zarr_write_convenience chunk_sizes xarr None data_loc None
                                                        merge);
          futs ← later_writes chunk_sizes xarrays' data_locs' merge;
          mret (fut :: futs)
      end
  end.

(** The first task writes xarrays[0] with the attributes and with the end of
    the last data location as the final size; the result is the list of the
    futures. *)
Definition distrib_zarr_write (chunk_sizes : gmap string (list nat)) (xarrays : list Dataset)
    (attributes : option (list (string * attr))) (data_locs : list (nat * nat))
    (merge : bool) : M group (list (result unit)) :=
  match xarrays, data_locs, last data_locs with
  | xarr :: xarrays', data_loc :: data_locs', Some last_loc =>
      fut ← submit (_distrib_zarr_write_convenience chunk_sizes xarr attributes data_loc
                                                    (Some (snd last_loc)) merge);
      futs ← later_writes chunk_sizes xarrays' data_locs' merge;
      mret (fut :: futs)
  | _, _, _ => raise IndexError
  end.

(** The length of a variable along its first dimension. *)
Definition rows (da : DataArray) : nat := hd 0 (nd_shape (da_values da)).

(** The batch holds the variable with time as its first dimension and
    [rest] as the lengths of its other dimensions, none of which is the
    length of time. *)
Definition holds (var : string) (rest : list nat) (xarr : Dataset) (da : DataArray) : Prop :=
  NoDup xarr.*1 ∧
  (var, da) ∈ xarr ∧
  index_of "time"%string (da_dims da) = Some 0 ∧
  nd_shape (da_values da) = rows da :: rest ∧
  rows da ∉ rest.

(** Data locations that follow one another: [start, start + n0),
    [start + n0, start + n0 + n1), ... *)
Fixpoint consecutive (start : nat) (lengths : list nat) : list (nat * nat) :=
  match lengths with
  | [] => []
  | n :: lengths' => (start, start + n) :: consecutive (start + n) lengths'
  end.

(** Two batches of two and one rows of a variable x. *)
Definition batch_x_01 : Dataset :=
  [("time"%string, time_series [0; 1]%Q); ("x"%string, time_series [3; 4]%Q)].

Definition batch_x_2 : Dataset :=
  [("time"%string, time_series [2%Q]); ("x"%string, time_series [5%Q])].

Definition empty_group : group := {| arrays := ∅; attrs := ∅ |}.


(** *** get_new_chunk_locations_zarr

    [rootgroup] is the group at the output path, [None] when the path does
    not exist. *)
Definition get_new_chunk_locations_zarr (rootgroup : option group)
    (data_locs : list (nat * nat)) (ideal_chunk_size : nat) : result (list (nat * nat)) :=
  match rootgroup with
  | Some rootgroup =>
      time_arr ← match arrays rootgroup !! "time"%string with
                 | Some t => Ok t
                 | None => Raise AttributeError
                 end;
      arr_size ← shape0 (z_shape time_arr);
      first_chunk ← match data_locs with
                    | dl :: _ => Ok dl
                    | [] => Raise IndexError
                    end;
      if decide ((Z.of_nat (snd first_chunk) - Z.of_nat (fst first_chunk)
                  ≠ Z.of_nat ideal_chunk_size)%Z ∧ 1 < length data_locs)
      then Raise NotImplementedError
      else Ok (map (λ dl, (fst dl + arr_size, snd dl + arr_size)) data_locs)
  | None => Ok data_locs
  end.

(** A batch of two rows and a batch of one row of the time and of a
    variable x. *)
Definition batch_tx_23 : Dataset :=
  [("time"%string, time_series [2; 3]%Q); ("x"%string, time_series [5; 6]%Q)].

Definition batch_tx_4 : Dataset :=
  [("time"%string, time_series [4%Q]); ("x"%string, time_series [7%Q])].

End Store.

(** ** Properties of the NaN stacking helpers *)

Section RaggedFacts.
Import Ragged.

Lemma where_row_length i j row :
  length (where_row i j row) = length (filter (λ x, negb (isnan x) = true) row).
Proof.
  revert j. induction row as [|x xs IH]; intros j; [done|].
  simpl. rewrite filter_cons. destruct x; simpl.
  - apply IH.
  - f_equal. apply IH.
Qed.

Lemma where_rows_length i rows :
  length (where_rows i rows) =
  length (filter (λ x, negb (isnan x) = true) (concat rows)).
Proof.
  revert i. induction rows as [|r rs IH]; intros i; [done|].
  simpl. rewrite filter_app, !length_app, where_row_length. f_equal. apply IH.
Qed.

Lemma scatter_app arr es1 es2 :
  scatter arr (es1 ++ es2) = (arr' ← scatter arr es1; scatter arr' es2).
Proof.
  revert arr. induction es1 as [|[[i j] v] es IH]; intros arr; [done|].
  simpl. destruct (setitem2 arr i j v); simpl; [apply IH | done].
Qed.

(** Scattering the non-NaN cells of the tail of a row into a row whose tail
    is all NaN writes that tail. *)
Lemma scatter_row arr i pre cs :
  arr !! i = Some (pre ++ replicate (length cs) NaN) →
  scatter arr (zip (where_row i (length pre) cs)
                   (filter (λ x, negb (isnan x) = true) cs))
  = Ok (<[i := pre ++ cs]> arr).
Proof.
  revert arr pre. induction cs as [|c cs IH]; intros arr pre Hrow.
  - simpl in *. rewrite list_insert_id; done.
  - simpl. rewrite filter_cons. destruct c as [|q]; simpl.
    + specialize (IH arr (pre ++ [NaN])).
      rewrite length_app, Nat.add_1_r in IH.
      rewrite <- !(assoc_L (++)) in IH. simpl in IH. apply IH, Hrow.
    + unfold setitem2. rewrite Hrow.
      rewrite decide_True by (rewrite length_app; simpl; lia). simpl.
      specialize (IH (<[i := <[length pre := Num q]> (pre ++ NaN :: replicate (length cs) NaN)]> arr)
                     (pre ++ [Num q])).
      rewrite length_app, Nat.add_1_r in IH.
      rewrite <- !(assoc_L (++)) in IH. simpl in IH.
      rewrite IH.
      * by rewrite list_insert_insert_eq.
      * rewrite list_lookup_insert_eq by (eapply lookup_lt_Some, Hrow).
        f_equal. rewrite insert_app_r_alt by lia.
        by rewrite Nat.sub_diag.
Qed.

Lemma scatter_rows m pre rs :
  Forall (λ row, length row = m) rs →
  scatter (pre ++ replicate (length rs) (replicate m NaN))
          (zip (where_rows (length pre) rs)
               (filter (λ x, negb (isnan x) = true) (concat rs)))
  = Ok (pre ++ rs).
Proof.
  revert pre. induction rs as [|r rs IH]; intros pre Hlen.
  - by simpl.
  - inversion Hlen as [|? ? Hr Hrs]; subst. simpl.
    rewrite filter_app, zip_with_app by apply where_row_length.
    rewrite scatter_app.
    rewrite (scatter_row _ (length pre) [] r); simpl.
    + rewrite insert_app_r_alt, Nat.sub_diag by lia. simpl.
      specialize (IH (pre ++ [r]) Hrs).
      rewrite length_app, Nat.add_1_r, <- !(assoc_L (++)) in IH.
      apply IH.
    + by rewrite lookup_app_r, Nat.sub_diag by lia.
Qed.

(** C9: stacking a well-formed (time, beam) float array with
    stack_nan_array and rebuilding it with reform_nan_array from the
    returned indices, the original shape and the original dims gives the
    array back: every cell holds its original value, the NaN cells hold NaN. *)
Theorem stack_reform_roundtrip (a : DataArray) :
  wf a →
  ∃ orig_idx stck,
    stack_nan_array a (dims a) = Ok (orig_idx, stck) ∧
    reform_nan_array stck orig_idx (shape a) (dims a) = Ok a.
Proof.
  intros [Hn Hm]. destruct a as [d [n m] vals]; simpl in *.
  eexists _, _. split.
  - unfold stack_nan_array, stack; simpl. rewrite decide_True by done. done.
  - unfold reform_nan_array, setitem_fancy, np_where_notnan; simpl.
    rewrite !length_fmap, decide_True by done.
    rewrite zip_fst_snd.
    rewrite decide_True by (symmetry; apply where_rows_length).
    subst n.
    pose proof (scatter_rows m [] vals Hm) as Hs. simpl in Hs.
    rewrite Hs. done.
Qed.

Example roundtrip_example :
  let a := {| dims := ("time"%string, "beam"%string); shape := (2, 3);
              values := [[Num 1; NaN; Num 2]; [NaN; NaN; Num 3]] |} in
  stack_nan_array a (dims a) = Ok (([0; 0; 1], [0; 2; 2]), [Num 1; Num 2; Num 3]).
Proof. reflexivity. Qed.

Lemma stack_reform_roundtrip_witness :
  let a := {| dims := ("time"%string, "beam"%string); shape := (2, 3);
              values := [[Num 1; NaN; Num 2]; [NaN; NaN; Num 3]] |} in
  wf a ∧
  ∃ orig_idx stck,
    stack_nan_array a (dims a) = Ok (orig_idx, stck) ∧
    reform_nan_array stck orig_idx (shape a) (dims a) = Ok a.
Proof.
  simpl. split.
  - split; [reflexivity | repeat constructor].
  - apply (stack_reform_roundtrip
             {| dims := ("time"%string, "beam"%string); shape := (2, 3);
                values := [[Num 1; NaN; Num 2]; [NaN; NaN; Num 3]] |}).
    split; [reflexivity | repeat constructor].
Defined.

(** *** The values of the stack and where they come from *)

Lemma where_row_values i j0 row :
  Forall (λ e, e.1.1 = i ∧ j0 ≤ e.1.2 ∧ row !! (e.1.2 - j0) = Some e.2 ∧ isnan e.2 = false)
         (zip (where_row i j0 row) (filter (λ x, negb (isnan x) = true) row)).
Proof.
  revert j0. induction row as [|x xs IH]; intros j0; [constructor|].
  simpl. rewrite filter_cons. destruct x as [|q]; simpl.
  - eapply Forall_impl; [apply (IH (S j0))|].
    intros [[i' j] v] (Hi & Hj & Hv & Hn). simpl in *.
    repeat split; [done|lia| |done].
    replace (j - j0) with (S (j - S j0)) by lia. done.
  - constructor.
    + simpl. rewrite Nat.sub_diag. done.
    + eapply Forall_impl; [apply (IH (S j0))|].
      intros [[i' j] v] (Hi & Hj & Hv & Hn). simpl in *.
      repeat split; [done|lia| |done].
      replace (j - j0) with (S (j - S j0)) by lia. done.
Qed.

Lemma where_rows_values i0 rows :
  Forall (λ e, i0 ≤ e.1.1 ∧ cell_of rows (e.1.1 - i0) e.1.2 = Some e.2 ∧ isnan e.2 = false)
         (zip (where_rows i0 rows) (filter (λ x, negb (isnan x) = true) (concat rows))).
Proof.
  revert i0. induction rows as [|r rs IH]; intros i0; [constructor|].
  simpl. rewrite filter_app, zip_with_app by apply where_row_length.
  apply Forall_app. split.
  - eapply Forall_impl; [apply (where_row_values i0 0 r)|].
    intros [[i j] v] (Hi & _ & Hv & Hn). simpl in *. subst i.
    rewrite Nat.sub_diag. unfold cell_of. simpl. by rewrite Nat.sub_0_r in Hv.
  - eapply Forall_impl; [apply (IH (S i0))|].
    intros [[i j] v] (Hi & Hv & Hn). simpl in *.
    repeat split; [lia| |done].
    replace (i - i0) with (S (i - S i0)) by lia. done.
Qed.

(** stack_nan_array returns two index arrays and the values, all of the
    same length; the value at each place is the element of the array at the
    indices in that place, and it is not NaN. *)
Theorem stack_values_at_indices (a : DataArray) :
  ∃ rows cols stck,
    stack_nan_array a (dims a) = Ok ((rows, cols), stck) ∧
    length rows = length stck ∧
    length cols = length stck ∧
    ∀ k i j, rows !! k = Some i → cols !! k = Some j →
             ∃ v, stck !! k = Some v ∧ cell a i j = Some v ∧ isnan v = false.
Proof.
  unfold stack_nan_array, stack, np_where_notnan. rewrite decide_True by done. simpl.
  eexists _, _, _. split; [reflexivity|].
  pose proof (where_rows_length 0 (values a)) as Hlen.
  split; [by rewrite length_fmap|]. split; [by rewrite length_fmap|].
  intros k i j Hi Hj.
  rewrite list_lookup_fmap in Hi, Hj.
  destruct (where_rows 0 (values a) !! k) as [[i' j']|] eqn:Hk; [|done].
  simpl in Hi, Hj. injection Hi as ->. injection Hj as ->.
  destruct (lookup_lt_is_Some_2 (filter (λ x, negb (isnan x) = true) (concat (values a))) k)
    as [v Hv].
  { rewrite <- Hlen. by eapply lookup_lt_Some. }
  exists v. split; [done|].
  pose proof (where_rows_values 0 (values a)) as Hall.
  rewrite Forall_lookup in Hall.
  destruct (Hall k ((i, j), v)) as (_ & Hc & Hn).
  { apply lookup_zip_with_Some. eauto. }
  simpl in Hc. rewrite Nat.sub_0_r in Hc. done.
Qed.

(** *** reform_nan_array on any indices *)

Lemma setitem2_spec arr i j v n m :
  length arr = n → Forall (λ row, length row = m) arr →
  i < n → j < m →
  ∃ arr', setitem2 arr i j v = Ok arr' ∧
          length arr' = n ∧ Forall (λ row, length row = m) arr' ∧
          cell_of arr' i j = Some v ∧
          ∀ i' j', (i', j') ≠ (i, j) → cell_of arr' i' j' = cell_of arr i' j'.
Proof.
  intros Hn Hm Hi Hj. unfold setitem2.
  destruct (lookup_lt_is_Some_2 arr i) as [row Hrow]; [lia|].
  rewrite Hrow.
  assert (length row = m) as Hlen.
  { rewrite Forall_forall in Hm. apply Hm. by eapply list_elem_of_lookup_2. }
  rewrite decide_True by lia.
  eexists. split; [reflexivity|]. split; [by rewrite length_insert|]. split.
  { apply Forall_insert; [done|]. by rewrite length_insert. }
  unfold cell_of. split.
  - rewrite list_lookup_insert_eq by lia. simpl.
    by rewrite list_lookup_insert_eq by lia.
  - intros i' j' Hne. destruct (decide (i' = i)) as [->|Hi'].
    + rewrite list_lookup_insert_eq by lia. rewrite Hrow. simpl.
      rewrite list_lookup_insert_ne; [done|]. congruence.
    + by rewrite list_lookup_insert_ne.
Qed.

Lemma scatter_spec n m es :
  ∀ arr,
    length arr = n → Forall (λ row, length row = m) arr →
    Forall (λ e, e.1.1 < n ∧ e.1.2 < m) es →
    ∃ arr', scatter arr es = Ok arr' ∧
            length arr' = n ∧ Forall (λ row, length row = m) arr' ∧
            (∀ i j, (i, j) ∉ es.*1 → cell_of arr' i j = cell_of arr i j) ∧
            (NoDup es.*1 →
             ∀ k i j v, es !! k = Some ((i, j), v) → cell_of arr' i j = Some v).
Proof.
  induction es as [|[[i j] v] es IH]; intros arr Hn Hm Hall.
  - exists arr. repeat split; try done.
  - apply Forall_cons in Hall as [[Hi Hj] Hall]. simpl in Hi, Hj.
    destruct (setitem2_spec arr i j v n m Hn Hm Hi Hj)
      as (arr1 & Hset & Hn1 & Hm1 & Hcell & Hother).
    destruct (IH arr1 Hn1 Hm1 Hall) as (arr' & Hsc & Hn' & Hm' & Hout & Hin).
    exists arr'. simpl. rewrite Hset. simpl. split; [done|].
    split; [done|]. split; [done|]. split.
    + intros i' j' Hnot. apply not_elem_of_cons in Hnot as [Hne Hnot].
      rewrite Hout by done. by apply Hother.
    + intros Hnd k i' j' v' Hk. apply NoDup_cons in Hnd as [Hhd Hnd].
      destruct k as [|k]; simpl in Hk.
      * injection Hk as <- <- <-. rewrite Hout by done. done.
      * by apply (Hin Hnd k).
Qed.

(** reform_nan_array on index arrays that stay within the shape, with one
    value for each index pair: the array returned has the shape asked for,
    holds NaN in every cell that is not indexed, and, when no index pair
    comes twice, holds each value in the cell of its index pair. *)
Theorem reform_fills_indexed_cells dataarray_stack rows cols n m orig_dims :
  length rows = length cols →
  length dataarray_stack = length rows →
  Forall (λ ij, ij.1 < n ∧ ij.2 < m) (zip rows cols) →
  ∃ final_arr,
    reform_nan_array dataarray_stack (rows, cols) (n, m) orig_dims = Ok final_arr ∧
    wf final_arr ∧ shape final_arr = (n, m) ∧ dims final_arr = orig_dims ∧
    (∀ i j, i < n → j < m → (i, j) ∉ zip rows cols → cell final_arr i j = Some NaN) ∧
    (NoDup (zip rows cols) →
     ∀ k i j v, rows !! k = Some i → cols !! k = Some j → dataarray_stack !! k = Some v →
                cell final_arr i j = Some v).
Proof.
  intros Hrc Hv Hall. unfold reform_nan_array, setitem_fancy. simpl.
  rewrite decide_True by done.
  rewrite decide_True by (rewrite length_zip_with; lia).
  set (cells := zip rows cols) in *.
  assert (length cells = length dataarray_stack) as Hcv
    by (unfold cells; rewrite length_zip_with; lia).
  assert ((zip cells dataarray_stack).*1 = cells) as Hfst by (apply fst_zip; lia).
  destruct (scatter_spec n m (zip cells dataarray_stack) (replicate n (replicate m NaN)))
    as (arr' & Hsc & Hn' & Hm' & Hout & Hin).
  { by rewrite length_replicate. }
  { apply Forall_replicate. by rewrite length_replicate. }
  { apply Forall_forall. intros [ij v] He. simpl.
    rewrite Forall_forall in Hall. apply Hall.
    rewrite <- Hfst. apply list_elem_of_fmap. by exists (ij, v). }
  rewrite Hsc. simpl. eexists. split; [reflexivity|].
  split; [done|]. split; [done|]. split; [done|]. split.
  - intros i j Hi Hj Hnot. unfold cell. simpl. rewrite Hout by (by rewrite Hfst).
    unfold cell_of. rewrite lookup_replicate_2 by done. simpl.
    by rewrite lookup_replicate_2.
  - intros Hnd k i j v Hi Hj Hk. unfold cell. simpl.
    apply (Hin ltac:(by rewrite Hfst) k).
    apply lookup_zip_with_Some. exists (i, j), v. split; [done|].
    split; [|done]. apply lookup_zip_with_Some. eauto.
Qed.

Lemma reform_fills_indexed_cells_witness :
  ∃ final_arr,
    reform_nan_array [Num 7; Num 8] ([0; 1], [2; 0]) (2, 3) ("time", "beam")%string
    = Ok final_arr ∧
    wf final_arr ∧ shape final_arr = (2, 3) ∧ dims final_arr = ("time", "beam")%string ∧
    (∀ i j, i < 2 → j < 3 → (i, j) ∉ zip [0; 1] [2; 0] → cell final_arr i j = Some NaN) ∧
    (NoDup (zip [0; 1] [2; 0]) →
     ∀ k i j v, [0; 1] !! k = Some i → [2; 0] !! k = Some j → [Num 7; Num 8] !! k = Some v →
                cell final_arr i j = Some v).
Proof.
  apply (reform_fills_indexed_cells [Num 7; Num 8] [0; 1] [2; 0] 2 3).
  - reflexivity.
  - reflexivity.
  - repeat constructor.
Defined.

(** An index pair outside the shape makes reform_nan_array raise
    IndexError. *)
Theorem reform_index_out_of_shape dataarray_stack rows cols n m orig_dims :
  length rows = length cols →
  length dataarray_stack = length rows →
  Exists (λ ij, ¬ (ij.1 < n ∧ ij.2 < m)) (zip rows cols) →
  reform_nan_array dataarray_stack (rows, cols) (n, m) orig_dims = Raise IndexError.
Proof.
  intros Hrc Hv Hex. unfold reform_nan_array, setitem_fancy. simpl.
  rewrite decide_True by done.
  rewrite decide_True by (rewrite length_zip_with; lia).
  set (cells := zip rows cols) in *.
  assert (length cells = length dataarray_stack) as Hcv
    by (unfold cells; rewrite length_zip_with; lia).
  assert (∀ arr, length arr = n → Forall (λ row, length row = m) arr →
                 scatter arr (zip cells dataarray_stack) = Raise IndexError) as Hsc.
  { clear -Hex Hcv. revert dataarray_stack Hcv.
    induction cells as [|[i j] cells IH]; intros vals Hcv arr Hn Hm.
    - by apply Exists_nil in Hex.
    - destruct vals as [|v vals]; [done|]. simpl in Hcv. simpl.
      destruct (decide (i < n ∧ j < m)) as [[Hi Hj]|Hout].
      + destruct (setitem2_spec arr i j v n m Hn Hm Hi Hj) as (arr1 & -> & Hn1 & Hm1 & _).
        simpl. apply Exists_cons in Hex as [Hex|Hex]; [by destruct Hex|].
        apply IH; [done|lia|done|done].
      + unfold setitem2. destruct (arr !! i) as [row|] eqn:Hrow; [|done].
        assert (length row = m) as Hlen.
        { rewrite Forall_forall in Hm. apply Hm. by eapply list_elem_of_lookup_2. }
        apply lookup_lt_Some in Hrow.
        rewrite decide_False; [done|]. intros Hj. apply Hout. lia. }
  rewrite Hsc; [done|by rewrite length_replicate|].
  apply Forall_replicate. by rewrite length_replicate.
Qed.

Lemma reform_index_out_of_shape_witness :
  reform_nan_array [Num 7; Num 8] ([0; 2], [2; 0]) (2, 3) ("time", "beam")%string
  = Raise IndexError.
Proof.
  apply (reform_index_out_of_shape [Num 7; Num 8] [0; 2] [2; 0] 2 3).
  - reflexivity.
  - reflexivity.
  - apply Exists_cons_tl, Exists_cons_hd. simpl. lia.
Defined.

(** *** flatten_bool_xarray *)

Lemma mapM_Ok {A B} (f : A → result B) (g : A → B) (l : list A) :
  (∀ x, x ∈ l → f x = Ok (g x)) → mapM f l = Ok (map g l).
Proof.
  induction l as [|x l IH]; intros Hf; [done|].
  simpl. rewrite (Hf x) by (by left). simpl.
  rewrite IH by (intros y Hy; apply Hf; by right). done.
Qed.

Lemma argmax_from_true l : ∀ best_idx idx, argmax_from true best_idx idx l = best_idx.
Proof. induction l as [|x l IH]; intros best_idx idx; [done|]. simpl. apply IH. Qed.

(** The greatest of a vector of booleans that starts with false: the first
    true, if there is one. *)
Lemma argmax_from_false l :
  ∀ best_idx idx,
    ((∀ j, l !! j ≠ Some true) ∧ argmax_from false best_idx idx l = best_idx) ∨
    (∃ p, l !! p = Some true ∧ (∀ p', p' < p → l !! p' = Some false) ∧
          argmax_from false best_idx idx l = idx + p).
Proof.
  induction l as [|x l IH]; intros best_idx idx.
  - left. split; [|done]. intros j. by rewrite lookup_nil.
  - destruct x; simpl.
    + right. exists 0. rewrite argmax_from_true. repeat split; [|lia]. intros p' Hp'. lia.
    + destruct (IH best_idx (S idx)) as [[Hnone ->]|(p & Hp & Hfirst & ->)].
      * left. split; [|done]. intros [|j]; [done|]. apply Hnone.
      * right. exists (S p). repeat split; [done| |lia].
        intros [|p'] Hp'; [done|]. apply Hfirst. lia.
Qed.

Lemma np_argmax_spec l :
  l ≠ [] →
  ∃ j, np_argmax l = Ok j ∧ j < length l ∧
       (((∀ j', l !! j' ≠ Some true) ∧ j = 0) ∨
        (l !! j = Some true ∧ ∀ j', j' < j → l !! j' = Some false)).
Proof.
  destruct l as [|x l]; [done|]. intros _. unfold np_argmax. destruct x.
  - exists 0. rewrite argmax_from_true. repeat split; [simpl; lia|].
    right. split; [done|]. intros j' Hj'. lia.
  - destruct (argmax_from_false l 0 1) as [[Hnone ->]|(p & Hp & Hfirst & ->)].
    + exists 0. repeat split; [simpl; lia|]. left. split; [|done].
      intros [|j']; [done|]. apply Hnone.
    + exists (1 + p). repeat split.
      * apply lookup_lt_Some in Hp. simpl. lia.
      * right. split; [done|]. intros [|j'] Hj'; [done|]. apply Hfirst. lia.
Qed.

Lemma isnan_NaN x : isnan x = true → x = NaN.
Proof. by destruct x. Qed.

(** The value taken from one row: the first one that the condition admits
    and that is a number, NaN when there is none. *)
Lemma row_first_valid (row : list float) (c : list bool) :
  length c = length row →
  row ≠ [] →
  let masked := zip_with (λ x (b : bool), if b then x else NaN) row c in
  ∃ j v,
    np_argmax (map (λ x, negb (isnan x)) masked) = Ok j ∧
    masked !! j = Some v ∧
    (∀ k x, row !! k = Some x → c !! k = Some true → isnan x = false →
            (∀ k' x', k' < k → row !! k' = Some x' → c !! k' = Some true → isnan x' = true) →
            v = x) ∧
    ((∀ k x, row !! k = Some x → c !! k = Some true → isnan x = true) → v = NaN).
Proof.
  intros Hlen Hne masked.
  assert (length masked = length row) as Hml.
  { unfold masked. rewrite length_zip_with. lia. }
  assert (∀ k, map (λ x, negb (isnan x)) masked !! k = Some true ↔
               ∃ x, row !! k = Some x ∧ c !! k = Some true ∧ isnan x = false ∧
                    masked !! k = Some x) as Htrue.
  { intros k. rewrite list_lookup_fmap. unfold masked. rewrite lookup_zip_with.
    destruct (row !! k) as [x|]; [|simpl; split; [done|by intros (? & ? & _)]].
    destruct (c !! k) as [[]|]; simpl.
    - split.
      + intros [= H]. exists x. apply negb_true_iff in H. done.
      + intros (x' & [= <-] & _ & -> & _). done.
    - split; [done|]. intros (? & _ & ? & _). done.
    - split; [done|]. intros (? & _ & ? & _). done. }
  destruct (np_argmax_spec (map (λ x, negb (isnan x)) masked)) as (j & Hj & Hlt & Hcase).
  { intros H. apply fmap_nil_inv in H. apply (f_equal length) in H. rewrite Hml in H.
    by destruct row. }
  rewrite length_map in Hlt.
  destruct (lookup_lt_is_Some_2 masked j Hlt) as [v Hv].
  exists j, v. split; [done|]. split; [done|].
  destruct Hcase as [[Hnone ->]|[Hj1 Hfirst]].
  - split.
    + intros k x Hx Hc Hnan _. exfalso. apply (Hnone k). apply Htrue.
      exists x. repeat split; try done.
      unfold masked. by rewrite lookup_zip_with, Hx, Hc.
    + intros _. apply isnan_NaN. specialize (Hnone 0).
      rewrite list_lookup_fmap, Hv in Hnone. simpl in Hnone.
      destruct (isnan v); [done|]. by destruct Hnone.
  - apply Htrue in Hj1 as (xj & Hxj & Hcj & Hnj & Hmj).
    assert (v = xj) as -> by congruence.
    split.
    + intros k x Hx Hc Hnan Hbefore.
      destruct (Nat.lt_trichotomy k j) as [Hkj|[->|Hjk]].
      * specialize (Hfirst k Hkj).
        assert (map (λ x, negb (isnan x)) masked !! k = Some true) as Hk.
        { apply Htrue. exists x. repeat split; try done.
          unfold masked. by rewrite lookup_zip_with, Hx, Hc. }
        congruence.
      * congruence.
      * specialize (Hbefore j xj Hjk Hxj Hcj). congruence.
    + intros Hall. specialize (Hall j xj Hxj Hcj). congruence.
Qed.

(** Of every row the answer holds the first value that the condition admits
    and that is a number; it holds NaN for a row without such a value.  The
    array has a column at least, and the condition has its shape. *)
Theorem flatten_takes_first_valid (datarray : DataArray) (cond : list (list bool)) :
  wf datarray →
  0 < snd (shape datarray) →
  length cond = fst (shape datarray) →
  Forall (λ c, length c = snd (shape datarray)) cond →
  ∃ answer,
    flatten_bool_xarray datarray cond = Ok answer ∧
    length answer = fst (shape datarray) ∧
    ∀ t row c v,
      values datarray !! t = Some row → cond !! t = Some c → answer !! t = Some v →
      (∀ k x, row !! k = Some x → c !! k = Some true → isnan x = false →
              (∀ k' x', k' < k → row !! k' = Some x' → c !! k' = Some true →
                        isnan x' = true) →
              v = x) ∧
      ((∀ k x, row !! k = Some x → c !! k = Some true → isnan x = true) → v = NaN).
Proof.
  intros [Hrows Hcols] Hpos Hclen Hccols.
  set (argmax := λ m : list float,
         match np_argmax (map (λ x, negb (isnan x)) m) with Ok j => j | Raise _ => 0 end).
  set (pick := λ m : list float, default NaN (m !! argmax m)).
  set (masked := xr_where (values datarray) cond).
  assert (∀ t m, masked !! t = Some m →
                 ∃ row c, values datarray !! t = Some row ∧ cond !! t = Some c ∧
                          length c = length row ∧ row ≠ [] ∧
                          m = zip_with (λ x (b : bool), if b then x else NaN) row c) as Hm.
  { intros t m Ht. unfold masked, xr_where in Ht. rewrite lookup_zip_with in Ht.
    destruct (values datarray !! t) as [row|] eqn:Hrow; [|done].
    destruct (cond !! t) as [c|] eqn:Hc; [|done]. simpl in Ht. injection Ht as <-.
    exists row, c. rewrite Forall_forall in Hcols. rewrite Forall_forall in Hccols.
    pose proof (Hcols row (list_elem_of_lookup_2 _ _ _ Hrow)) as Hr.
    pose proof (Hccols c (list_elem_of_lookup_2 _ _ _ Hc)) as Hc'.
    repeat split; try done; [lia|]. intros ->. simpl in Hr. lia. }
  assert (∀ m, m ∈ masked →
               np_argmax (map (λ x, negb (isnan x)) m) = Ok (argmax m) ∧
               m !! argmax m = Some (pick m)) as Hrow.
  { intros m [t Ht]%list_elem_of_lookup_1.
    destruct (Hm t m Ht) as (row & c & _ & _ & Hlen & Hne & ->).
    destruct (row_first_valid row c Hlen Hne) as (j & v & Hj & Hv & _).
    unfold pick, argmax. rewrite Hj. cbn beta iota. by rewrite Hv. }
  exists (map pick masked). split; [|split].
  - unfold flatten_bool_xarray. cbv zeta. fold masked.
    rewrite (mapM_Ok _ argmax) by (intros m Hin; by apply Hrow).
    cbn [mbind result_bind]. unfold isel_pointwise.
    replace (zip masked (map argmax masked)) with (map (λ m, (m, argmax m)) masked).
    2: { clear. induction masked as [|m l IH]; [done|]. simpl. by rewrite IH. }
    rewrite (mapM_Ok _ (λ p, pick p.1)).
    + by rewrite map_map.
    + intros [m j] Hin. apply list_elem_of_fmap in Hin as (m' & [= -> ->] & Hin).
      destruct (Hrow m' Hin) as [_ ->]. done.
  - rewrite length_map. unfold masked, xr_where. rewrite length_zip_with. lia.
  - intros t row c v Hr Hc Hv. rewrite list_lookup_fmap in Hv.
    destruct (masked !! t) as [m|] eqn:Ht; [|done]. simpl in Hv. injection Hv as <-.
    destruct (Hm t m Ht) as (row' & c' & Hr' & Hc' & Hlen & Hne & ->).
    assert (row' = row) as -> by congruence. assert (c' = c) as -> by congruence.
    destruct (row_first_valid row c Hlen Hne) as (j & v & Hj & Hv & Hfirst & Hnone).
    unfold pick, argmax. rewrite Hj. cbn beta iota. rewrite Hv. done.
Qed.

Lemma flatten_takes_first_valid_witness :
  ∃ answer,
    flatten_bool_xarray tiltangle transmits = Ok answer ∧
    length answer = fst (shape tiltangle) ∧
    ∀ t row c v,
      values tiltangle !! t = Some row → transmits !! t = Some c → answer !! t = Some v →
      (∀ k x, row !! k = Some x → c !! k = Some true → isnan x = false →
              (∀ k' x', k' < k → row !! k' = Some x' → c !! k' = Some true →
                        isnan x' = true) →
              v = x) ∧
      ((∀ k x, row !! k = Some x → c !! k = Some true → isnan x = true) → v = NaN).
Proof.
  apply (flatten_takes_first_valid tiltangle transmits).
  - split; [reflexivity|]. repeat constructor.
  - simpl. lia.
  - reflexivity.
  - repeat constructor.
Defined.

(** The tilt angle of the sector that transmits; NaN for the ping without a
    transmitting sector. *)
Example flatten_tiltangle :
  flatten_bool_xarray tiltangle transmits = Ok [Num (-38 # 100); NaN].
Proof. reflexivity. Qed.

End RaggedFacts.

(** ** Properties of the gap detector *)

Section GapsFacts.
Import Gaps.

Example find_gaps_split_docstring :
  _find_gaps_split [(0, 5); (30, 40); (70, 82); (90, 100)]%Q
                   [(10, 15); (35, 45); (75, 80); (85, 95)]%Q
  = [(0, 5); (30, 40); (70, 75); (80, 82); (90, 100)]%Q.
Proof. reflexivity. Qed.

Lemma Qlt_bool_iff (x y : Q) : Qlt_bool x y = true ↔ (x < y)%Q.
Proof.
  unfold Qlt_bool. rewrite negb_true_iff.
  destruct (Qle_bool y x) eqn:E.
  - apply Qle_bool_iff in E. split; [done | intros; lra].
  - split; [intros _ | done].
    apply Qnot_le_lt. intros H. apply Qle_bool_iff in H. congruence.
Qed.

(** Whenever the new data starts more than max_gap_length after the source
    data, the call raises TypeError, whatever the fuel. *)
Lemma late_start_raises fuel source_dat new_dat max_gap_length new_min source_min :
  np_min new_dat = Ok new_min →
  np_min source_dat = Ok source_min →
  (source_min + max_gap_length < new_min)%Q →
  compare_and_find_gaps fuel source_dat new_dat max_gap_length = Some (Raise TypeError).
Proof.
  intros Hn Hs Hlt. unfold compare_and_find_gaps, initial_datagaps.
  rewrite Hn, Hs. simpl.
  apply Qlt_bool_iff in Hlt. rewrite Hlt. done.
Qed.

(** C7: with reference times [0, 1] and candidate times [5, 6] the
    candidate starts more than max_gap = 1 after the reference, and
    compare_and_find_gaps raises TypeError instead of returning a result
    with the leading gap [0, 5]. *)
Theorem late_start_type_error :
  compare_and_find_gaps 10 [0; 1]%Q [5; 6]%Q 1%Q = Some (Raise TypeError).
Proof. reflexivity. Qed.

(** The early end alone is counted as a gap: the trailing gap is appended. *)
Example early_end_appended :
  compare_and_find_gaps 10 [0; 1; 2; 3; 4; 5]%Q [0; 1; 2]%Q 1%Q
  = Some (Ok [(2, 5)]%Q).
Proof. reflexivity. Qed.

(** C8: with reference times [0, 10] (one reference gap [0, 10]) and
    candidate times [0, 1, 2, 3, 5, 6, 7, 8, 9, 10], the candidate gap
    [3, 5] lies fully within the reference gap and is returned all the
    same. *)
Theorem gap_within_existing_gap_is_kept :
  gap_times [0; 10]%Q 1%Q = [(0, 10)%Q] ∧
  compare_and_find_gaps 10 [0; 10]%Q [0; 1; 2; 3; 5; 6; 7; 8; 9; 10]%Q 1%Q
  = Some (Ok [(3, 5)%Q]) ∧
  within (3, 5)%Q (0, 10)%Q.
Proof.
  split; [reflexivity|]. split; [reflexivity|].
  unfold within; simpl. lra.
Qed.

(** *** The splitting loop ends *)

Lemma contains_iff dgtime existtime :
  contains dgtime existtime = true ↔
  (fst dgtime <= fst existtime <= snd dgtime)%Q ∧
  (fst dgtime <= snd existtime <= snd dgtime)%Q.
Proof.
  unfold contains. rewrite !andb_true_iff, !Qle_bool_iff. tauto.
Qed.

Lemma contains_inside g dgtime existtime :
  inside g dgtime → contains g existtime = true → contains dgtime existtime = true.
Proof.
  intros [H0 H1]. rewrite !contains_iff. lra.
Qed.

Lemma split_one_none dgtime existing_gap_times :
  contained dgtime existing_gap_times = [] →
  split_one dgtime existing_gap_times = [dgtime].
Proof.
  unfold contained. induction existing_gap_times as [|e l IH]; simpl; [done|].
  rewrite filter_cons. destruct (contains dgtime e) eqn:E.
  - rewrite decide_True by done. discriminate.
  - rewrite decide_False by done. exact IH.
Qed.

Lemma split_one_some dgtime existing_gap_times :
  contained dgtime existing_gap_times ≠ [] →
  ∃ existtime,
    existtime ∈ existing_gap_times ∧
    contains dgtime existtime = true ∧
    split_one dgtime existing_gap_times
    = [(fst dgtime, fst existtime); (snd existtime, snd dgtime)].
Proof.
  unfold contained. induction existing_gap_times as [|e l IH]; simpl; [done|].
  rewrite filter_cons. destruct (contains dgtime e) eqn:E.
  - intros _. exists e. split; [by left|done].
  - rewrite decide_False by done. intros Hne.
    destruct (IH Hne) as (e' & Hin & Hc & Hs). exists e'. split; [by right|done].
Qed.

(** Counting with three tests of which the first two never hold together,
    and hold only where the third holds. *)
Lemma filter_length_split {A} (f1 f2 f : A → bool) (l : list A) :
  (∀ x, x ∈ l → f1 x = true → f x = true ∧ f2 x = false) →
  (∀ x, x ∈ l → f2 x = true → f x = true) →
  length (filter (λ x, f1 x = true) l) + length (filter (λ x, f2 x = true) l)
  ≤ length (filter (λ x, f x = true) l).
Proof.
  intros H1 H2. induction l as [|x l IH]; simpl; [done|].
  rewrite !filter_cons.
  assert (length (filter (λ x, f1 x = true) l) + length (filter (λ x, f2 x = true) l)
          ≤ length (filter (λ x, f x = true) l)) as IH'.
  { apply IH; intros y Hy; [apply H1 | apply H2]; by right. }
  specialize (H1 x ltac:(by left)). specialize (H2 x ltac:(by left)).
  destruct (f1 x) eqn:E1, (f2 x) eqn:E2, (f x) eqn:E;
    repeat case_decide; try done; simpl; try lia;
    try (by destruct (H1 eq_refl)); by specialize (H2 eq_refl).
Qed.

Lemma filter_length_split_lt {A} (f1 f2 f : A → bool) (l : list A) x0 :
  (∀ x, x ∈ l → f1 x = true → f x = true ∧ f2 x = false) →
  (∀ x, x ∈ l → f2 x = true → f x = true) →
  x0 ∈ l → f x0 = true → f1 x0 = false → f2 x0 = false →
  length (filter (λ x, f1 x = true) l) + length (filter (λ x, f2 x = true) l)
  < length (filter (λ x, f x = true) l).
Proof.
  intros H1 H2 Hin Hf Hf1 Hf2. induction l as [|x l IH]; [by apply elem_of_nil in Hin|].
  rewrite !filter_cons.
  pose proof (filter_length_split f1 f2 f l
                (λ y Hy, H1 y (list_elem_of_further _ _ _ Hy))
                (λ y Hy, H2 y (list_elem_of_further _ _ _ Hy))) as Hle.
  apply elem_of_cons in Hin as [<-|Hin].
  - rewrite Hf, Hf1, Hf2. repeat case_decide; try done. simpl. lia.
  - specialize (IH (λ y Hy, H1 y (list_elem_of_further _ _ _ Hy))
                   (λ y Hy, H2 y (list_elem_of_further _ _ _ Hy)) Hin).
    specialize (H1 x ltac:(by left)). specialize (H2 x ltac:(by left)).
    destruct (f1 x) eqn:E1, (f2 x) eqn:E2, (f x) eqn:E;
      repeat case_decide; try done; simpl; try lia;
      try (by destruct (H1 eq_refl)); by specialize (H2 eq_refl).
Qed.

(** A split takes the existing gap it splits at out of the count, and no
    existing gap is counted for both pieces. *)
Lemma split_one_decreases dgtime existing_gap_times :
  Forall proper existing_gap_times →
  contained dgtime existing_gap_times ≠ [] →
  splits_left (split_one dgtime existing_gap_times) existing_gap_times
  < length (contained dgtime existing_gap_times).
Proof.
  intros Hp Hne. destruct (split_one_some _ _ Hne) as (e & Hin & Hc & ->).
  unfold splits_left, contained. simpl. rewrite Nat.add_0_r.
  rewrite Forall_forall in Hp. pose proof (Hp e Hin) as He. unfold proper in He.
  apply contains_iff in Hc.
  apply (filter_length_split_lt _ _ _ _ e); try done.
  - intros x Hx Hx1. apply contains_iff in Hx1. simpl in Hx1.
    pose proof (Hp x Hx) as Hpx. unfold proper in Hpx. split.
    + apply contains_iff. lra.
    + apply not_true_is_false. intros Hx2. apply contains_iff in Hx2. simpl in Hx2. lra.
  - intros x Hx Hx2. apply contains_iff in Hx2. simpl in Hx2.
    apply contains_iff. lra.
  - by apply contains_iff.
  - apply not_true_is_false. intros H. apply contains_iff in H. simpl in H. lra.
  - apply not_true_is_false. intros H. apply contains_iff in H. simpl in H. lra.
Qed.

Lemma splits_left_app l1 l2 existing_gap_times :
  splits_left (l1 ++ l2) existing_gap_times
  = splits_left l1 existing_gap_times + splits_left l2 existing_gap_times.
Proof. unfold splits_left. by rewrite sum_list_with_app. Qed.

Lemma find_gaps_split_cons dgtime l existing_gap_times :
  _find_gaps_split (dgtime :: l) existing_gap_times
  = split_one dgtime existing_gap_times ++ _find_gaps_split l existing_gap_times.
Proof. reflexivity. Qed.

(** With nothing left to split, _find_gaps_split gives its input back. *)
Lemma find_gaps_split_done datagap_times existing_gap_times :
  splits_left datagap_times existing_gap_times = 0 →
  _find_gaps_split datagap_times existing_gap_times = datagap_times.
Proof.
  induction datagap_times as [|dg l IH]; [done|].
  intros H0. rewrite find_gaps_split_cons.
  change (splits_left (dg :: l) existing_gap_times)
    with (length (contained dg existing_gap_times) + splits_left l existing_gap_times) in H0.
  rewrite split_one_none by (apply length_zero_iff_nil; lia).
  simpl. f_equal. apply IH. lia.
Qed.

Lemma find_gaps_split_length datagap_times existing_gap_times :
  length datagap_times ≤ length (_find_gaps_split datagap_times existing_gap_times).
Proof.
  induction datagap_times as [|dg l IH]; [done|].
  rewrite find_gaps_split_cons, length_app. simpl.
  destruct (contained dg existing_gap_times) as [|c cs] eqn:E.
  - rewrite split_one_none by done. simpl. lia.
  - destruct (split_one_some dg existing_gap_times) as (e & _ & _ & ->); [by rewrite E|].
    simpl. lia.
Qed.

(** With something left to split, _find_gaps_split gives a longer list with
    less left to split. *)
Lemma find_gaps_split_progress datagap_times existing_gap_times :
  Forall proper existing_gap_times →
  0 < splits_left datagap_times existing_gap_times →
  splits_left (_find_gaps_split datagap_times existing_gap_times) existing_gap_times
  < splits_left datagap_times existing_gap_times ∧
  length datagap_times < length (_find_gaps_split datagap_times existing_gap_times).
Proof.
  intros Hp. induction datagap_times as [|dg l IH]; [unfold splits_left; simpl; lia|].
  intros Hpos. rewrite find_gaps_split_cons, splits_left_app, length_app.
  change (splits_left (dg :: l) existing_gap_times)
    with (length (contained dg existing_gap_times) + splits_left l existing_gap_times) in *.
  pose proof (find_gaps_split_length l existing_gap_times) as Hlen.
  destruct (contained dg existing_gap_times) as [|c cs] eqn:E.
  - rewrite split_one_none by done.
    change (splits_left [dg] existing_gap_times)
      with (length (contained dg existing_gap_times) + 0). rewrite E.
    simpl in *. destruct IH as [IH1 IH2]; [lia|]. lia.
  - pose proof (split_one_decreases dg existing_gap_times Hp ltac:(by rewrite E)) as Hd.
    rewrite E in Hd.
    destruct (split_one_some dg existing_gap_times) as (e & _ & _ & Hs); [by rewrite E|].
    rewrite Hs in *. simpl length in *.
    destruct (decide (splits_left l existing_gap_times = 0)) as [H0|H0].
    + rewrite find_gaps_split_done by done. lia.
    + destruct IH as [IH1 IH2]; [lia|]. lia.
Qed.

Lemma gap_eqb_refl g : gap_eqb g g = true.
Proof. unfold gap_eqb. by rewrite !Qeq_bool_refl. Qed.

Lemma gaps_eqb_refl l : gaps_eqb l l = true.
Proof. induction l as [|g l IH]; simpl; [done|]. by rewrite gap_eqb_refl, IH. Qed.

Lemma gaps_eqb_length a b : gaps_eqb a b = true → length a = length b.
Proof.
  revert b. induction a as [|x a IH]; intros [|y b]; simpl; try done.
  intros [_ H]%andb_true_iff. by rewrite (IH b H).
Qed.

(** The pieces of a split lie inside the gap that is split. *)
Lemma split_one_inside dgtime existing_gap_times :
  Forall (λ g, inside g dgtime) (split_one dgtime existing_gap_times).
Proof.
  destruct (contained dgtime existing_gap_times) as [|c cs] eqn:E.
  - rewrite split_one_none by done. repeat constructor; simpl; lra.
  - destruct (split_one_some dgtime existing_gap_times) as (e & _ & Hc & ->);
      [by rewrite E|].
    apply contains_iff in Hc. repeat constructor; simpl; lra.
Qed.

Lemma find_gaps_split_inside datagap_times existing_gap_times :
  Forall (λ g, ∃ dgtime, dgtime ∈ datagap_times ∧ inside g dgtime)
         (_find_gaps_split datagap_times existing_gap_times).
Proof.
  induction datagap_times as [|dg l IH]; [constructor|].
  rewrite find_gaps_split_cons. apply Forall_app. split.
  - eapply Forall_impl; [apply split_one_inside|].
    intros g Hg. exists dg. split; [by left|done].
  - eapply Forall_impl; [apply IH|].
    intros g (dg' & Hin & Hg). exists dg'. split; [by right|done].
Qed.

(** The loop ends on any fuel above the number of splits left, with a list
    in which no gap contains an existing gap, made of pieces of the gaps it
    started from. *)
Lemma split_loop_ends fuel existing_gap_times :
  Forall proper existing_gap_times →
  ∀ datagap_times,
    splits_left datagap_times existing_gap_times < fuel →
    ∃ split_gaps,
      split_loop fuel datagap_times existing_gap_times = Some split_gaps ∧
      splits_left split_gaps existing_gap_times = 0 ∧
      Forall (λ g, ∃ dgtime, dgtime ∈ datagap_times ∧ inside g dgtime) split_gaps.
Proof.
  intros Hp. induction fuel as [|fuel IH]; intros l Hlt; [lia|].
  simpl. destruct (decide (splits_left l existing_gap_times = 0)) as [H0|H0].
  - rewrite find_gaps_split_done by done. rewrite gaps_eqb_refl. simpl.
    exists l. split; [done|]. split; [done|].
    apply Forall_forall. intros g Hg. exists g. split; [done|]. split; lra.
  - destruct (find_gaps_split_progress l existing_gap_times Hp) as [Hless Hlen]; [lia|].
    destruct (gaps_eqb (_find_gaps_split l existing_gap_times) l) eqn:E.
    { apply gaps_eqb_length in E. lia. }
    simpl. destruct (IH (_find_gaps_split l existing_gap_times)) as (l' & Hl' & H0' & Hin);
      [lia|].
    exists l'. split; [done|]. split; [done|].
    eapply Forall_impl; [exact Hin|].
    intros g (dg & Hdg & Hg).
    pose proof (find_gaps_split_inside l existing_gap_times) as Hall.
    rewrite Forall_forall in Hall. destruct (Hall dg Hdg) as (dg0 & Hdg0 & Hin0).
    exists dg0. split; [done|]. destruct Hg, Hin0. split; lra.
Qed.

Lemma split_loop_inside fuel existing_gap_times :
  ∀ datagap_times split_gaps,
    split_loop fuel datagap_times existing_gap_times = Some split_gaps →
    Forall (λ g, ∃ dgtime, dgtime ∈ datagap_times ∧ inside g dgtime) split_gaps.
Proof.
  induction fuel as [|fuel IH]; intros l l' Hl; [discriminate|].
  simpl in Hl. destruct (gaps_eqb (_find_gaps_split l existing_gap_times) l); simpl in Hl.
  - injection Hl as <-. apply Forall_forall. intros g Hg.
    exists g. split; [done|]. split; lra.
  - eapply Forall_impl; [exact (IH _ _ Hl)|].
    intros g (dg & Hdg & Hg).
    pose proof (find_gaps_split_inside l existing_gap_times) as Hall.
    rewrite Forall_forall in Hall. destruct (Hall dg Hdg) as (dg0 & Hdg0 & Hin0).
    exists dg0. split; [done|]. destruct Hg, Hin0. split; lra.
Qed.

Lemma gap_times_proper times max_gap_length :
  (0 <= max_gap_length)%Q → Forall proper (gap_times times max_gap_length).
Proof.
  intros Hm. induction times as [|a [|b rest] IH]; [constructor..|].
  change (gap_times (a :: b :: rest) max_gap_length)
    with (if Qlt_bool max_gap_length (b - a)
          then (a, b) :: gap_times (b :: rest) max_gap_length
          else gap_times (b :: rest) max_gap_length).
  destruct (Qlt_bool max_gap_length (b - a)) eqn:E; [|done].
  constructor; [|done]. apply Qlt_bool_iff in E. unfold proper. simpl. lra.
Qed.

(** The adjustment of the final loop moves the start of a gap forward and
    its end backward, never the other way. *)
Lemma adjust_inside existing_gap_times :
  ∀ dgtime, inside (adjust dgtime existing_gap_times) dgtime.
Proof.
  induction existing_gap_times as [|[e0 e1] l IH]; intros [d0 d1].
  - split; simpl; lra.
  - change (adjust (d0, d1) ((e0, e1) :: l))
      with (if (Qle_bool e0 d0 && Qle_bool d0 e1) && (Qle_bool e0 d1 && Qle_bool d1 e1)
            then adjust (d0, d1) l
            else if Qlt_bool e0 d0 && Qlt_bool d0 e1 then adjust (e1, d1) l
            else if Qlt_bool e0 d1 && Qlt_bool d1 e1 then adjust (d0, e0) l
            else adjust (d0, d1) l).
    destruct ((Qle_bool e0 d0 && Qle_bool d0 e1) && (Qle_bool e0 d1 && Qle_bool d1 e1));
      [apply IH|].
    destruct (Qlt_bool e0 d0 && Qlt_bool d0 e1) eqn:E1.
    { apply andb_true_iff in E1 as [_ Hlt]. apply Qlt_bool_iff in Hlt.
      destruct (IH (e1, d1)) as [H0 H1]. unfold inside in *. simpl in *. lra. }
    destruct (Qlt_bool e0 d1 && Qlt_bool d1 e1) eqn:E2; [|apply IH].
    apply andb_true_iff in E2 as [Hlt _]. apply Qlt_bool_iff in Hlt.
    destruct (IH (d0, e0)) as [H0 H1]. unfold inside in *. simpl in *. lra.
Qed.

Lemma splits_left_none datagap_times existing_gap_times :
  splits_left datagap_times existing_gap_times = 0 →
  Forall (λ g, Forall (λ existtime, contains g existtime = false) existing_gap_times)
         datagap_times.
Proof.
  intros H0. apply Forall_forall. intros g Hg.
  pose proof (sum_list_with_in g (λ dg, length (contained dg existing_gap_times)) _ Hg) as Hle.
  unfold splits_left in H0. rewrite H0 in Hle.
  assert (contained g existing_gap_times = []) as Hnil
    by (apply length_zero_iff_nil; simpl in Hle; lia).
  apply Forall_forall. intros e He. apply not_true_is_false. intros Hc.
  assert (e ∈ contained g existing_gap_times) as Hin
    by (apply list_elem_of_filter; done).
  rewrite Hnil in Hin. by apply elem_of_nil in Hin.
Qed.

(** The list the loop ends with does not depend on the fuel. *)
Lemma split_loop_agrees fuel1 fuel2 existing_gap_times :
  ∀ datagap_times l1 l2,
    split_loop fuel1 datagap_times existing_gap_times = Some l1 →
    split_loop fuel2 datagap_times existing_gap_times = Some l2 →
    l1 = l2.
Proof.
  revert fuel2. induction fuel1 as [|fuel1 IH]; intros fuel2 l l1 l2 H1 H2; [discriminate|].
  destruct fuel2 as [|fuel2]; [discriminate|].
  simpl in H1, H2.
  destruct (gaps_eqb (_find_gaps_split l existing_gap_times) l); simpl in *.
  - congruence.
  - by eapply IH.
Qed.

Lemma np_min_max l m : np_min l = Ok m → ∃ M, np_max l = Ok M.
Proof. destruct l; [discriminate|]. simpl. eauto. Qed.

(** Unless the new data starts late, the search for gaps ends and returns
    gaps of which none contains a gap of the source data: with a maximum
    gap of zero or more, the loop that splits the gaps ends on any fuel
    above the number of splits to be done. *)
Theorem gaps_contain_no_existing_gap source_dat new_dat max_gap_length new_min source_min :
  (0 <= max_gap_length)%Q →
  np_min new_dat = Ok new_min →
  np_min source_dat = Ok source_min →
  (new_min <= source_min + max_gap_length)%Q →
  ∃ fuel finalgaps,
    (∀ fuel', fuel ≤ fuel' →
       compare_and_find_gaps fuel' source_dat new_dat max_gap_length = Some (Ok finalgaps)) ∧
    Forall (λ g, Forall (λ existtime, contains g existtime = false)
                        (gap_times source_dat max_gap_length)) finalgaps.
Proof.
  intros Hm Hn Hs Hle.
  destruct (np_min_max _ _ Hn) as [new_max Hnx].
  destruct (np_min_max _ _ Hs) as [source_max Hsx].
  assert (Qlt_bool (source_min + max_gap_length) new_min = false) as Hlate.
  { apply not_true_is_false. intros H. apply Qlt_bool_iff in H. lra. }
  set (existing := gap_times source_dat max_gap_length).
  set (datagaps := if Qlt_bool (new_max + max_gap_length) source_max
                   then gap_times new_dat max_gap_length ++ [(new_max, source_max)]
                   else gap_times new_dat max_gap_length).
  assert (initial_datagaps source_dat new_dat max_gap_length = Ok datagaps) as Hinit.
  { unfold initial_datagaps. rewrite Hn, Hs. simpl. rewrite Hlate. simpl.
    rewrite Hnx, Hsx. done. }
  pose proof (gap_times_proper source_dat max_gap_length Hm) as Hp.
  destruct (split_loop_ends (S (splits_left datagaps existing)) existing Hp datagaps)
    as (l' & Hl' & H0 & _); [lia|].
  exists (S (splits_left datagaps existing)), (map (λ dg, adjust dg existing) l').
  split.
  - intros fuel' Hf. unfold compare_and_find_gaps. rewrite Hinit.
    destruct (split_loop_ends fuel' existing Hp datagaps) as (l'' & Hl'' & _); [lia|].
    fold existing. rewrite Hl''. simpl.
    by rewrite (split_loop_agrees _ _ _ _ _ _ Hl'' Hl').
  - apply Forall_fmap. eapply Forall_impl; [apply splits_left_none, H0|].
    intros g Hg. simpl. eapply Forall_impl; [exact Hg|].
    intros e He. simpl in He. apply not_true_is_false. intros Hc.
    rewrite (contains_inside _ g e (adjust_inside existing g) Hc) in He. done.
Qed.

Lemma gaps_contain_no_existing_gap_witness :
  ∃ fuel finalgaps,
    (∀ fuel', fuel ≤ fuel' →
       compare_and_find_gaps fuel' [0; 1; 2; 6; 7; 8; 9]%Q [0; 1; 9]%Q 1%Q
       = Some (Ok finalgaps)) ∧
    Forall (λ g, Forall (λ existtime, contains g existtime = false)
                        (gap_times [0; 1; 2; 6; 7; 8; 9]%Q 1%Q)) finalgaps.
Proof.
  apply (gaps_contain_no_existing_gap [0; 1; 2; 6; 7; 8; 9]%Q [0; 1; 9]%Q 1%Q 0%Q 0%Q).
  - vm_compute. discriminate.
  - reflexivity.
  - reflexivity.
  - vm_compute. discriminate.
Defined.

(** The gap [1, 9] of the new data is split around the gap [2, 6] of the
    source data. *)
Example split_around_existing_gap :
  compare_and_find_gaps 5 [0; 1; 2; 6; 7; 8; 9]%Q [0; 1; 9]%Q 1%Q
  = Some (Ok [(1, 2); (6, 9)]%Q).
Proof. reflexivity. Qed.

(** A gap that is returned lies inside a gap of the new data, or inside the
    gap between the end of the new data and the end of the source data:
    splitting and adjusting only ever shorten a gap. *)
Theorem gaps_lie_in_gaps_of_new_data fuel source_dat new_dat max_gap_length
    new_max source_max finalgaps :
  np_max new_dat = Ok new_max →
  np_max source_dat = Ok source_max →
  compare_and_find_gaps fuel source_dat new_dat max_gap_length = Some (Ok finalgaps) →
  Forall (λ g, ∃ dgtime,
            dgtime ∈ gap_times new_dat max_gap_length ++ [(new_max, source_max)] ∧
            inside g dgtime) finalgaps.
Proof.
  intros Hnx Hsx Hrun. unfold compare_and_find_gaps in Hrun.
  destruct (initial_datagaps source_dat new_dat max_gap_length) as [datagaps|e] eqn:Hinit;
    [|discriminate].
  destruct (split_loop fuel datagaps _) as [l'|] eqn:Hloop; [|discriminate].
  simpl in Hrun. injection Hrun as <-.
  assert (datagaps ⊆ gap_times new_dat max_gap_length ++ [(new_max, source_max)]) as Hsub.
  { unfold initial_datagaps in Hinit.
    destruct (np_min new_dat); [|discriminate]. simpl in Hinit.
    destruct (np_min source_dat); [|discriminate]. simpl in Hinit.
    destruct (Qlt_bool _ _); [discriminate|]. simpl in Hinit.
    rewrite Hnx, Hsx in Hinit. simpl in Hinit. injection Hinit as <-.
    destruct (Qlt_bool _ _); [done|]. intros g Hg. apply elem_of_app. by left. }
  apply Forall_fmap. eapply Forall_impl; [exact (split_loop_inside _ _ _ _ Hloop)|].
  intros g (dg & Hdg & Hg). simpl. exists dg. split; [by apply Hsub|].
  destruct (adjust_inside (gap_times source_dat max_gap_length) g) as [H0 H1].
  destruct Hg. split; lra.
Qed.

Lemma gaps_lie_in_gaps_of_new_data_witness :
  Forall (λ g, ∃ dgtime,
            dgtime ∈ gap_times [0; 1; 9]%Q 1%Q ++ [(9, 9)%Q] ∧ inside g dgtime)
         [(1, 2); (6, 9)]%Q.
Proof.
  apply (gaps_lie_in_gaps_of_new_data 5 [0; 1; 2; 6; 7; 8; 9]%Q [0; 1; 9]%Q 1%Q 9%Q 9%Q).
  - reflexivity.
  - reflexivity.
  - reflexivity.
Defined.

Lemma late_start_raises_witness :
  compare_and_find_gaps 3 [0; 1; 2]%Q [4; 5]%Q 1%Q = Some (Raise TypeError).
Proof.
  apply (late_start_raises 3 [0; 1; 2]%Q [4; 5]%Q 1%Q 4%Q 0%Q).
  - reflexivity.
  - reflexivity.
  - vm_compute. reflexivity.
Defined.

End GapsFacts.

(** ** Properties of the chunk-wise interpolator *)

Section InterpFacts.
Import Interp.

Lemma qmod_range (x : Q) : (0 <= qmod x 360 < 360)%Q.
Proof.
  unfold qmod.
  pose proof (Qfloor_le (x / 360)) as Hlo.
  pose proof (Qlt_floor (x / 360)) as Hhi.
  rewrite inject_Z_plus in Hhi. change (inject_Z 1) with 1%Q in Hhi.
  assert (x == 360 * (x / 360))%Q as Hx by (field; discriminate).
  set (f := inject_Z (Qfloor (x / 360))) in *.
  set (y := (x / 360)%Q) in *.
  split; lra.
Qed.

Lemma bsearch_S fuel a key min_idx max_idx :
  bsearch (S fuel) a key min_idx max_idx =
  if min_idx <? max_idx then
    if Qlt_bool (nth (min_idx + (max_idx - min_idx) / 2) a 0%Q) key
    then bsearch fuel a key (min_idx + (max_idx - min_idx) / 2 + 1) max_idx
    else bsearch fuel a key min_idx (min_idx + (max_idx - min_idx) / 2)
  else min_idx.
Proof. reflexivity. Qed.

(** A search among elements that are all below the key ends at the upper
    bound, whatever the order of the elements. *)
Lemma bsearch_all_lt fuel a key min_idx max_idx :
  (∀ i, min_idx ≤ i < max_idx → Qlt_bool (nth i a 0%Q) key = true) →
  max_idx - min_idx ≤ fuel →
  min_idx ≤ max_idx →
  bsearch fuel a key min_idx max_idx = max_idx.
Proof.
  revert min_idx. induction fuel as [|fuel IH]; intros min_idx Hall Hfuel Hle.
  - simpl. lia.
  - rewrite bsearch_S. destruct (Nat.ltb_spec min_idx max_idx) as [Hlt|Hge]; [|lia].
    assert ((max_idx - min_idx) / 2 < max_idx - min_idx) as Hhalf
      by (apply Nat.div_lt; lia).
    set (half := (max_idx - min_idx) / 2) in *.
    rewrite Hall by lia.
    apply IH; [intros i Hi; apply Hall; lia | lia | lia].
Qed.

Lemma bsearch_bounds fuel a key min_idx max_idx :
  min_idx ≤ max_idx →
  min_idx ≤ bsearch fuel a key min_idx max_idx ≤ max_idx.
Proof.
  revert min_idx max_idx. induction fuel as [|fuel IH]; intros min_idx max_idx Hle.
  - simpl. lia.
  - rewrite bsearch_S. destruct (Nat.ltb_spec min_idx max_idx) as [Hlt|Hge]; [|lia].
    assert ((max_idx - min_idx) / 2 < max_idx - min_idx) as Hhalf
      by (apply Nat.div_lt; lia).
    set (half := (max_idx - min_idx) / 2) in *.
    destruct (Qlt_bool _ key).
    + specialize (IH (min_idx + half + 1) max_idx). lia.
    + specialize (IH min_idx (min_idx + half)). lia.
Qed.

Lemma searchsorted1_all_lt a key :
  Forall (λ y, (y < key)%Q) a → searchsorted1 a key = length a.
Proof.
  intros Hall. unfold searchsorted1. apply bsearch_all_lt; [|lia|lia].
  intros i Hi. apply Qlt_bool_iff.
  rewrite Forall_forall in Hall. apply Hall, list_elem_of_In, nth_In. lia.
Qed.

Lemma getitem_last {A} (l : list A) (x : A) :
  getitem (l ++ [x]) (-1) = Ok x.
Proof.
  unfold getitem. rewrite length_app. simpl length.
  replace ((-1 <? 0)%Z) with true by done.
  replace (-1 + Z.of_nat (length l + 1))%Z with (Z.of_nat (length l)) by lia.
  rewrite Nat2Z.id.
  replace ((0 <=? Z.of_nat (length l))%Z && (Z.of_nat (length l) <? Z.of_nat (length l + 1))%Z)
    with true by (symmetry; apply andb_true_iff; split; [apply Z.leb_le | apply Z.ltb_lt]; lia).
  by rewrite list_lookup_middle.
Qed.

Lemma getitem_pred {A} (l : list A) :
  1 ≤ length l → ∃ x, getitem l (Z.of_nat (length l) - 1) = Ok x.
Proof.
  intros Hn. unfold getitem.
  replace ((Z.of_nat (length l) - 1 <? 0)%Z) with false
    by (symmetry; apply Z.ltb_ge; lia).
  replace ((0 <=? Z.of_nat (length l) - 1)%Z && (Z.of_nat (length l) - 1 <? Z.of_nat (length l))%Z)
    with true by (symmetry; apply andb_true_iff; split; [apply Z.leb_le | apply Z.ltb_lt]; lia).
  destruct (lookup_lt_is_Some_2 l (Z.to_nat (Z.of_nat (length l) - 1))) as [x Hx]; [lia|].
  exists x. by rewrite Hx.
Qed.

(** The partition of the target times for a source held in one chunk. *)
Lemma construct_times_single xarr pre x idx :
  chunks xarr = None →
  1 ≤ length (time xarr) →
  searchsorted1 (pre ++ [x]) (x + 1)%Q = idx →
  _interp_across_chunks_construct_times xarr (pre ++ [x]) "time"
  = Ok (if decide (idx = 0) then ([], [])
        else ([(0, length (time xarr))], [take idx (pre ++ [x])])).
Proof.
  intros Hc Hn Hidx. unfold _interp_across_chunks_construct_times.
  rewrite Hc. simpl.
  destruct (getitem_pred (time xarr) Hn) as [e He].
  rewrite He. simpl. rewrite getitem_last. simpl.
  rewrite Hidx. unfold np_split, slice. simpl.
  rewrite Nat.sub_0_r, drop_0.
  replace (Z.to_nat (Z.of_nat (length (time xarr)) - 1 + 1)) with (length (time xarr)) by lia.
  destruct (decide (idx = 0)) as [->|Hne].
  - reflexivity.
  - destruct (take idx (pre ++ [x])) as [|y ys] eqn:Ht.
    + exfalso. apply (f_equal length) in Ht. rewrite length_take, length_app in Ht.
      simpl in Ht. lia.
    + reflexivity.
Qed.

Lemma slice_all {A} (l : list A) n : n = length l → slice 0 n l = l.
Proof. intros ->. unfold slice. by rewrite drop_0, Nat.sub_0_r, firstn_all. Qed.

Lemma unwrap_from_length prev acc p : length (unwrap_from prev acc p) = length p.
Proof.
  revert prev acc. induction p as [|x p IH]; intros prev acc; [done|].
  simpl. by rewrite IH.
Qed.

Lemma unwrap_deg_length p : length (unwrap_deg p) = length p.
Proof. destruct p; [done|]. simpl. by rewrite unwrap_from_length. Qed.

(** A series that is the heading, or that is not chunked, is interpolated
    as one chunk: the call succeeds exactly when the search for the last
    target time plus one ends behind the last target time. *)
Lemma interp_one_chunk xarr pre x :
  wf xarr →
  name xarr = Some "heading"%string ∨ chunks xarr = None →
  2 ≤ length (time xarr) →
  interp_across_chunks xarr (pre ++ [x]) "time" =
  let idx := searchsorted1 (pre ++ [x]) (x + 1)%Q in
  if decide (idx = 0) then Raise ValueError
  else if decide (idx = length (pre ++ [x]))
       then Ok (map (interp_value xarr) (pre ++ [x]))
       else Raise AssertionError.
Proof.
  intros Hwf Hone Hn. unfold interp_across_chunks, interp_value.
  set (idx := searchsorted1 (pre ++ [x]) (x + 1)%Q).
  assert (idx ≤ length (pre ++ [x])) as Hidx
    by (apply (bsearch_bounds _ _ _ 0); lia).
  unfold wf in Hwf.
  destruct (bool_decide (name xarr = Some "heading"%string)) eqn:Hh.
  - rewrite (construct_times_single _ pre x idx) by (simpl; done || lia).
    destruct (decide (idx = 0)) as [H0|H0]; [done|].
    simpl. unfold _interp_across_chunks_xarrayinterp, isel. simpl.
    rewrite !slice_all by (by rewrite ?unwrap_deg_length).
    rewrite decide_True by lia. simpl.
    rewrite app_nil_r, !length_fmap, length_take.
    destruct (decide (idx = length (pre ++ [x]))) as [He|He].
    + rewrite decide_True by lia.
      rewrite He, firstn_all. by rewrite <- list_fmap_compose.
    + rewrite decide_False by lia. done.
  - destruct Hone as [Hname|Hc]; [by rewrite Hname, bool_decide_eq_true_2 in Hh|].
    rewrite (construct_times_single _ pre x idx) by (done || lia).
    destruct (decide (idx = 0)) as [H0|H0]; [done|].
    simpl. unfold _interp_across_chunks_xarrayinterp, isel. simpl.
    rewrite !slice_all by done.
    rewrite decide_True by lia. simpl.
    rewrite app_nil_r, !length_fmap, length_take.
    destruct (decide (idx = length (pre ++ [x]))) as [He|He].
    + rewrite decide_True by lia. by rewrite He, firstn_all.
    + rewrite decide_False by lia. done.
Qed.

Lemma nondecreasing_le_last pre x :
  nondecreasing (pre ++ [x]) = true → Forall (λ y, (y <= x)%Q) (pre ++ [x]).
Proof.
  induction pre as [|a pre IH]; intros Hnd.
  - repeat constructor. lra.
  - simpl in *. destruct (pre ++ [x]) as [|b l] eqn:E; [by destruct pre|].
    apply andb_true_iff in Hnd as [Hab Hnd]. apply Qle_bool_iff in Hab.
    pose proof (IH Hnd) as Hall. constructor; [|done].
    inversion Hall as [|? ? Hb _]; subst. lra.
Qed.

Lemma nonempty_snoc {A} (l : list A) : l ≠ [] → ∃ pre x, l = pre ++ [x].
Proof.
  intros Hne. destruct (exists_last Hne) as (pre & x & ->). eauto.
Qed.



(** The heading 350, 355, 0, 5, 10 at the times 0 .. 4, interpolated at the
    times 1.5 and 2.5, gives 357.5 and 2.5. *)
Example heading_across_north_values :
  (newarr ← interp_across_chunks heading_across_north [3 # 2; 5 # 2]%Q "time";
   Ok (map Qred newarr))
  = Ok [715 # 2; 5 # 2]%Q.
Proof. vm_compute. reflexivity. Qed.

(** The unwrapped heading goes on through 360. *)
Example unwrap_across_north :
  map Qred (unwrap_deg [350; 355; 0; 5; 10]%Q) = [350; 355; 360; 365; 370]%Q.
Proof. vm_compute. reflexivity. Qed.




(** *** No target times *)

(** Without a target time the call raises IndexError, whatever the series:
    the last target time is asked for. *)
Theorem no_target_times_index_error (xarr : DataArray) :
  interp_across_chunks xarr [] "time" = Raise IndexError.
Proof.
  unfold interp_across_chunks.
  assert (∀ x : DataArray, _interp_across_chunks_construct_times x [] "time" = Raise IndexError)
    as Hc.
  { intros x. unfold _interp_across_chunks_construct_times. simpl.
    destruct (mapM _ _) as [l|e] eqn:E; [done|].
    simpl. clear -E. revert e E.
    generalize (map (λ c, (Z.of_nat c - 1)%Z)
                    (cumsum match chunks x with Some c => c | None => [length (time x)] end)).
    intros l. induction l as [|k l IH]; intros e E; [discriminate|].
    simpl in E. destruct (getitem (time x) k) as [y|e'] eqn:G.
    - simpl in E. destruct (mapM _ l) as [l'|e'']; [discriminate|].
      simpl in E. injection E as <-. by rewrite (IH e'').
    - simpl in E. injection E as <-. unfold getitem in G.
      repeat case_match; congruence. }
  by rewrite Hc.
Qed.

(** *** np.searchsorted on a sorted vector *)

Lemma nondecreasing_lookup l :
  nondecreasing l = true →
  ∀ i j x y, i ≤ j → l !! i = Some x → l !! j = Some y → (x <= y)%Q.
Proof.
  induction l as [|a l IH]; intros Hnd i j x y Hij Hi Hj; [done|].
  assert (nondecreasing l = true ∧ ∀ b, l !! 0 = Some b → (a <= b)%Q) as [Hl Hhd].
  { simpl in Hnd. destruct l as [|b l]; [split; [done|intros b Hb; discriminate]|].
    apply andb_true_iff in Hnd as [Hab Hl]. apply Qle_bool_iff in Hab.
    split; [done|]. by intros b' [= <-]. }
  destruct i as [|i], j as [|j]; simpl in Hi, Hj.
  - injection Hi as <-. injection Hj as <-. lra.
  - injection Hi as <-. destruct l as [|b l]; [done|].
    pose proof (Hhd b eq_refl) as Hab.
    pose proof (IH Hl 0 j b y ltac:(lia) eq_refl Hj). lra.
  - lia.
  - apply (IH Hl i j); [lia|done|done].
Qed.

Lemma increasing_lookup l :
  increasing l = true →
  ∀ i j x y, i < j → l !! i = Some x → l !! j = Some y → (x < y)%Q.
Proof.
  induction l as [|a l IH]; intros Hnd i j x y Hij Hi Hj; [done|].
  assert (increasing l = true ∧ ∀ b, l !! 0 = Some b → (a < b)%Q) as [Hl Hhd].
  { simpl in Hnd. destruct l as [|b l]; [split; [done|intros b Hb; discriminate]|].
    apply andb_true_iff in Hnd as [Hab Hl]. apply Qlt_bool_iff in Hab.
    split; [done|]. by intros b' [= <-]. }
  destruct i as [|i], j as [|j]; simpl in Hi, Hj; try lia.
  - injection Hi as <-. destruct l as [|b l]; [done|].
    pose proof (Hhd b eq_refl) as Hab.
    destruct j as [|j]; [simpl in Hj; injection Hj as <-; done|].
    pose proof (IH Hl 0 (S j) b y ltac:(lia) eq_refl Hj). lra.
  - apply (IH Hl i j); [lia|done|done].
Qed.

Lemma increasing_nondecreasing l : increasing l = true → nondecreasing l = true.
Proof.
  induction l as [|a [|b l] IH]; [done..|].
  intros [Hab Hl]%andb_true_iff. apply andb_true_iff. split; [|by apply IH].
  apply Qle_bool_iff. apply Qlt_bool_iff in Hab. lra.
Qed.

Lemma nth_lookup_Q (a : list Q) i x : a !! i = Some x → nth i a 0%Q = x.
Proof. intros H. by apply nth_lookup_Some. Qed.

(** The binary search between two bounds of a sorted vector, on enough
    fuel, ends at the insertion point of the key. *)
Lemma bsearch_sorted a key :
  nondecreasing a = true →
  ∀ fuel min_idx max_idx,
    max_idx - min_idx ≤ fuel →
    min_idx ≤ max_idx ≤ length a →
    (∀ i x, i < min_idx → a !! i = Some x → (x < key)%Q) →
    (∀ i x, max_idx ≤ i → a !! i = Some x → (key <= x)%Q) →
    insertion_point a key (bsearch fuel a key min_idx max_idx).
Proof.
  intros Hnd. induction fuel as [|fuel IH]; intros lo hi Hfuel Hb Hlo Hhi.
  - simpl. assert (lo = hi) as -> by lia. repeat split; [lia|done|done].
  - rewrite bsearch_S. destruct (Nat.ltb_spec lo hi) as [Hlt|Hge].
    2: { assert (lo = hi) as -> by lia. repeat split; [lia|done|done]. }
    assert ((hi - lo) / 2 < hi - lo) as Hhalf by (apply Nat.div_lt; lia).
    set (mid := lo + (hi - lo) / 2) in *.
    destruct (lookup_lt_is_Some_2 a mid) as [m Hm]; [lia|].
    rewrite (nth_lookup_Q _ _ _ Hm).
    destruct (Qlt_bool m key) eqn:E.
    + apply Qlt_bool_iff in E. apply IH; [lia|lia| |done].
      intros i x Hi Hx.
      pose proof (nondecreasing_lookup a Hnd i mid x m ltac:(lia) Hx Hm). lra.
    + assert (key <= m)%Q as Hkm.
      { apply Qnot_lt_le. intros H. apply Qlt_bool_iff in H. congruence. }
      apply IH; [lia|lia|done|].
      intros i x Hi Hx.
      pose proof (nondecreasing_lookup a Hnd mid i m x ltac:(lia) Hm Hx). lra.
Qed.

Lemma searchsorted1_sorted a key :
  nondecreasing a = true → insertion_point a key (searchsorted1 a key).
Proof.
  intros Hnd. unfold searchsorted1. apply bsearch_sorted; [done|lia|lia| |].
  - intros i x Hi. lia.
  - intros i x Hi Hx. apply lookup_lt_Some in Hx. lia.
Qed.

Lemma insertion_point_unique a key r1 r2 :
  insertion_point a key r1 → insertion_point a key r2 → r1 = r2.
Proof.
  intros (Hl1 & Hb1 & Ha1) (Hl2 & Hb2 & Ha2).
  destruct (Nat.lt_trichotomy r1 r2) as [Hlt|[->|Hlt]]; [|done|].
  - destruct (lookup_lt_is_Some_2 a r1) as [x Hx]; [lia|].
    pose proof (Hb2 r1 x Hlt Hx). pose proof (Ha1 r1 x ltac:(lia) Hx). lra.
  - destruct (lookup_lt_is_Some_2 a r2) as [x Hx]; [lia|].
    pose proof (Hb1 r2 x Hlt Hx). pose proof (Ha2 r2 x ltac:(lia) Hx). lra.
Qed.

(** On a sorted vector a larger key is found no earlier. *)
Lemma searchsorted1_mono a key1 key2 :
  nondecreasing a = true → (key1 <= key2)%Q →
  searchsorted1 a key1 ≤ searchsorted1 a key2.
Proof.
  intros Hnd Hle.
  destruct (searchsorted1_sorted a key1 Hnd) as (Hl1 & Hb1 & Ha1).
  destruct (searchsorted1_sorted a key2 Hnd) as (Hl2 & Hb2 & Ha2).
  destruct (Nat.le_gt_cases (searchsorted1 a key1) (searchsorted1 a key2)) as [|Hlt]; [done|].
  destruct (lookup_lt_is_Some_2 a (searchsorted1 a key2)) as [x Hx]; [lia|].
  pose proof (Hb1 (searchsorted1 a key2) x Hlt Hx) as H1.
  pose proof (Ha2 (searchsorted1 a key2) x (Nat.le_refl _) Hx) as H2.
  exfalso. lra.
Qed.

(** In an increasing vector each element is found at its own place. *)
Lemma searchsorted1_own a k x :
  increasing a = true → a !! k = Some x → searchsorted1 a x = k.
Proof.
  intros Hinc Hk.
  apply (insertion_point_unique a x).
  - apply searchsorted1_sorted. by apply increasing_nondecreasing.
  - split; [apply lookup_lt_Some in Hk; lia|]. split.
    + intros i y Hi Hy. by apply (increasing_lookup a Hinc i k).
    + intros i y Hi Hy. destruct (decide (i = k)) as [->|Hne].
      * rewrite Hk in Hy. injection Hy as <-. lra.
      * pose proof (increasing_lookup a Hinc k i x y ltac:(lia) Hk Hy). lra.
Qed.

(** *** Interpolation at the times of the series itself *)

(** scipy's linear interpolation at a sample time gives the sample. *)
Lemma interp1_at_sample x y k t v :
  increasing x = true →
  length y = length x →
  2 ≤ length x →
  x !! k = Some t →
  y !! k = Some v →
  (interp1 x y t == v)%Q.
Proof.
  intros Hinc Hlen Hn Ht Hv. unfold interp1.
  rewrite (searchsorted1_own x k t Hinc Ht).
  pose proof (lookup_lt_Some _ _ _ Ht) as Hk.
  destruct k as [|k].
  - replace (Nat.min (Nat.max 0 1) (length x - 1)) with 1 by lia.
    cbv zeta. change (1 - 1) with 0.
    rewrite (nth_lookup_Q x 0 t Ht), (nth_lookup_Q y 0 v Hv).
    set (slope := (_ / _)%Q). ring.
  - replace (Nat.min (Nat.max (S k) 1) (length x - 1)) with (S k) by lia.
    cbv zeta. replace (S k - 1) with k by lia.
    destruct (lookup_lt_is_Some_2 x k) as [t' Ht']; [lia|].
    destruct (lookup_lt_is_Some_2 y k) as [v' Hv']; [lia|].
    rewrite (nth_lookup_Q x _ t Ht), (nth_lookup_Q y _ v Hv).
    rewrite (nth_lookup_Q x _ t' Ht'), (nth_lookup_Q y _ v' Hv').
    pose proof (increasing_lookup x Hinc k (S k) t' t ltac:(lia) Ht' Ht) as Hlt.
    field. lra.
Qed.

Lemma all_below_last_plus_one pre x :
  nondecreasing (pre ++ [x]) = true →
  searchsorted1 (pre ++ [x]) (x + 1)%Q = length (pre ++ [x]).
Proof.
  intros Hnd. apply searchsorted1_all_lt.
  eapply Forall_impl; [apply nondecreasing_le_last, Hnd|].
  simpl. intros y Hy. lra.
Qed.

(** A series held in one chunk, interpolated at sorted target times. *)
Lemma interp_sorted_targets xarr new_times :
  wf xarr →
  name xarr = Some "heading"%string ∨ chunks xarr = None →
  2 ≤ length (time xarr) →
  new_times ≠ [] →
  nondecreasing new_times = true →
  interp_across_chunks xarr new_times "time" = Ok (map (interp_value xarr) new_times).
Proof.
  intros Hwf Hone Hn Hne Hnd.
  destruct (nonempty_snoc new_times Hne) as (pre & x & ->).
  rewrite interp_one_chunk by done. cbv zeta.
  rewrite all_below_last_plus_one by done.
  rewrite decide_False by (rewrite length_app; simpl; lia).
  by rewrite decide_True.
Qed.

(** A series without chunks that is not the heading, interpolated at its
    own times, which are increasing, gives its own values. *)
Theorem interp_at_own_times (xarr : DataArray) :
  wf xarr →
  chunks xarr = None →
  name xarr ≠ Some "heading"%string →
  increasing (time xarr) = true →
  2 ≤ length (time xarr) →
  ∃ newarr,
    interp_across_chunks xarr (time xarr) "time" = Ok newarr ∧
    Forall2 Qeq newarr (values xarr).
Proof.
  intros Hwf Hc Hname Hinc Hn.
  exists (map (interp_value xarr) (time xarr)). split.
  - apply interp_sorted_targets; [done|by eauto|done| |by apply increasing_nondecreasing].
    intros H. rewrite H in Hn. simpl in Hn. lia.
  - apply Forall2_same_length_lookup. split; [by rewrite length_map|].
    intros k r v Hr Hv. rewrite list_lookup_fmap in Hr.
    destruct (time xarr !! k) as [t|] eqn:Ht; [|done]. simpl in Hr. injection Hr as <-.
    unfold interp_value. rewrite bool_decide_eq_false_2 by done.
    by apply (interp1_at_sample _ _ k).
Qed.

Lemma interp_at_own_times_witness :
  ∃ newarr,
    interp_across_chunks ramp (time ramp) "time" = Ok newarr ∧
    Forall2 Qeq newarr (values ramp).
Proof.
  apply (interp_at_own_times ramp).
  - reflexivity.
  - reflexivity.
  - discriminate.
  - reflexivity.
  - simpl. lia.
Defined.

(** *** The heading at its own times *)

Lemma Qfloor_unique (x : Q) (z : Z) :
  (inject_Z z <= x < inject_Z z + 1)%Q → Qfloor x = z.
Proof.
  intros [Hlo Hhi].
  pose proof (Qfloor_le x) as Hf1. pose proof (Qlt_floor x) as Hf2.
  rewrite inject_Z_plus in Hf2. change (inject_Z 1) with 1%Q in Hf2.
  assert (inject_Z (Qfloor x) < inject_Z (z + 1))%Q as H1
    by (rewrite inject_Z_plus; change (inject_Z 1) with 1%Q; lra).
  assert (inject_Z z < inject_Z (Qfloor x + 1))%Q as H2
    by (rewrite inject_Z_plus; change (inject_Z 1) with 1%Q; lra).
  rewrite <- Zlt_Qlt in H1, H2. lia.
Qed.

Lemma qmod_Qeq x y : (x == y)%Q → (qmod x 360 == qmod y 360)%Q.
Proof.
  intros Hxy. unfold qmod.
  assert (Qfloor (x / 360) = Qfloor (y / 360)) as -> by (by rewrite Hxy).
  by rewrite Hxy.
Qed.

(** A heading in [0, 360) moved by whole turns comes back under mod 360. *)
Lemma qmod_turns v z :
  (0 <= v < 360)%Q → (qmod (v + 360 * inject_Z z) 360 == v)%Q.
Proof.
  intros Hv. unfold qmod.
  rewrite (Qfloor_unique ((v + 360 * inject_Z z) / 360) z).
  - ring.
  - assert ((v + 360 * inject_Z z) / 360 == v / 360 + inject_Z z)%Q as -> by (field; lra).
    assert (0 <= v / 360 < 1)%Q as Hd.
    { split.
      - apply Qle_shift_div_l; lra.
      - apply Qlt_shift_div_r; lra. }
    lra.
Qed.

(** The correction np.unwrap adds between two samples is a whole number of
    turns. *)
Lemma ph_correct_turns dd : ∃ z, (ph_correct dd == 360 * inject_Z z)%Q.
Proof.
  unfold ph_correct. set (f := Qfloor ((dd + 180) / 360)).
  destruct (Qlt_bool (Qabs dd) 180); [exists 0%Z; ring|].
  unfold qmod. fold f.
  destruct (Qeq_bool _ _ && Qlt_bool 0 dd) eqn:E.
  - apply andb_true_iff in E as [E _]. apply Qeq_bool_iff in E.
    exists (1 - f)%Z. unfold Zminus. rewrite inject_Z_plus, inject_Z_opp.
    change (inject_Z 1) with 1%Q. lra.
  - exists (- f)%Z. rewrite inject_Z_opp. ring.
Qed.

Lemma unwrap_from_turns p :
  ∀ prev acc za,
    (acc == 360 * inject_Z za)%Q →
    Forall2 (λ u v, ∃ z, (u == v + 360 * inject_Z z)%Q) (unwrap_from prev acc p) p.
Proof.
  induction p as [|y p IH]; intros prev acc za Hacc; [constructor|].
  simpl. destruct (ph_correct_turns (y - prev)) as [zc Hc].
  assert (acc + ph_correct (y - prev) == 360 * inject_Z (za + zc))%Q as Hacc'.
  { rewrite inject_Z_plus, Hacc, Hc. ring. }
  constructor.
  - exists (za + zc)%Z. by rewrite Hacc'.
  - by apply (IH y _ (za + zc)%Z).
Qed.

(** np.unwrap moves every sample by a whole number of turns. *)
Lemma unwrap_deg_turns p :
  Forall2 (λ u v, ∃ z, (u == v + 360 * inject_Z z)%Q) (unwrap_deg p) p.
Proof.
  destruct p as [|x p]; [constructor|]. simpl. constructor.
  - exists 0%Z. ring.
  - apply (unwrap_from_turns p x 0 0%Z). ring.
Qed.



(** *** The target times of each chunk *)

Lemma delete_all_cons {A} p (E : list nat) (l : list A) :
  delete_all (p :: E) l = delete p (delete_all E l).
Proof. unfold delete_all. by rewrite reverse_cons, foldl_app. Qed.

(** Deleting the places of the empty sub-vectors leaves the elements at the
    places of the others. *)
Lemma delete_all_keep {A B} (rest : list (list A)) :
  ∀ (pre l2 : list B),
    length l2 = length rest →
    delete_all (empty_positions (length pre) rest) (pre ++ l2) = pre ++ keep rest l2.
Proof.
  induction rest as [|x rest IH]; intros pre l2 Hlen.
  - destruct l2; [|done]. done.
  - destruct l2 as [|y l2]; [done|]. simpl in Hlen.
    specialize (IH (pre ++ [y]) l2 ltac:(lia)).
    rewrite length_app, Nat.add_1_r, <- !(assoc_L (++)) in IH. simpl in IH.
    destruct x as [|a x]; simpl.
    + rewrite delete_all_cons, IH. by rewrite delete_middle.
    + exact IH.
Qed.

Lemma keep_length {A B C} (l : list (list A)) (l2 : list B) (l3 : list C) :
  length l2 = length l → length l3 = length l → length (keep l l2) = length (keep l l3).
Proof.
  revert l2 l3. induction l as [|x l IH]; intros [|y l2] [|z l3] H2 H3; try done.
  simpl in H2, H3. destruct x; simpl; [|f_equal]; apply IH; lia.
Qed.

Lemma keep_self {A} (l : list (list A)) :
  concat (keep l l) = concat l ∧ Forall (λ x, x ≠ []) (keep l l).
Proof.
  induction l as [|x l [IH1 IH2]]; [done|].
  destruct x as [|a x]; simpl; [done|]. split; [by rewrite IH1|by constructor].
Qed.

Lemma keep_sublist {A B} (l : list (list A)) (l2 : list B) : keep l l2 `sublist_of` l2.
Proof.
  revert l2. induction l as [|x l IH]; intros l2; [apply sublist_nil_l|].
  destruct l2 as [|y l2]; [by destruct x|].
  destruct x; simpl; [apply sublist_cons|apply sublist_skip]; apply IH.
Qed.

Lemma slice_app {A} (a : list A) i j k :
  i ≤ j → j ≤ k → slice i j a ++ slice j k a = slice i k a.
Proof.
  intros Hij Hjk. unfold slice.
  replace (drop j a) with (drop (j - i) (drop i a)) by (rewrite drop_drop; f_equal; lia).
  rewrite take_take_drop. f_equal. lia.
Qed.

(** np.split at indices that do not decrease: the pieces but the last make
    up the vector between the start and the last index. *)
Lemma np_split_concat {A} (a : list A) idxs :
  ∀ start lst,
    (∀ i x, idxs !! i = Some x → start ≤ x) →
    (∀ i j x y, i ≤ j → idxs !! i = Some x → idxs !! j = Some y → x ≤ y) →
    last idxs = Some lst →
    concat (removelast (np_split_from start idxs a)) = slice start lst a ∧
    length (removelast (np_split_from start idxs a)) = length idxs.
Proof.
  induction idxs as [|i0 idxs IH]; intros start lst Hstart Hmono Hlast; [done|].
  destruct idxs as [|i1 idxs].
  - simpl in Hlast. injection Hlast as <-. simpl. by rewrite app_nil_r.
  - assert (last (i1 :: idxs) = Some lst) as Hlast' by done.
    destruct (IH i0 lst) as [IH1 IH2]; [| |done|].
    { intros i x Hx. apply (Hmono 0 (S i) i0 x); [lia|done|done]. }
    { intros i j x y Hij Hx Hy. apply (Hmono (S i) (S j)); [lia|done|done]. }
    change (np_split_from start (i0 :: i1 :: idxs) a)
      with (slice start i0 a :: np_split_from i0 (i1 :: idxs) a).
    assert (∀ (x : list A) l, l ≠ [] → removelast (x :: l) = x :: removelast l) as Hrl.
    { intros x [|y l] Hl; done. }
    rewrite Hrl by done. rewrite concat_cons, length_cons, IH1, IH2. split; [|done].
    apply slice_app.
    + apply (Hstart 0). done.
    + destruct (last_Some (i1 :: idxs) lst) as [Hl _].
      destruct (Hl Hlast') as [l' Hl']. 
      apply (Hmono 0 (S (length l')) i0 lst); [lia|done|].
      simpl. rewrite Hl'. by rewrite list_lookup_middle.
Qed.

Lemma cumsum_from_spec l :
  Forall (λ n, 0 < n) l →
  ∀ acc,
    length (cumsum_from acc l) = length l ∧
    Forall (λ e, acc < e ≤ acc + sum_list l) (cumsum_from acc l) ∧
    ∀ i j x y, i ≤ j → cumsum_from acc l !! i = Some x → cumsum_from acc l !! j = Some y →
               x ≤ y.
Proof.
  induction 1 as [|n l Hn Hl IH]; intros acc; [done|].
  destruct (IH (acc + n)) as (IH1 & IH2 & IH3). simpl.
  split; [by rewrite IH1|]. split.
  - constructor; [lia|]. eapply Forall_impl; [exact IH2|]. simpl. intros e He. lia.
  - intros i j x y Hij Hx Hy. destruct i as [|i], j as [|j]; simpl in Hx, Hy.
    + injection Hx as <-. injection Hy as <-. lia.
    + injection Hx as <-. rewrite Forall_forall in IH2.
      pose proof (IH2 y (list_elem_of_lookup_2 _ _ _ Hy)). lia.
    + lia.
    + apply (IH3 i j); [lia|done|done].
Qed.

Lemma getitem_at {A} (l : list A) e x :
  1 ≤ e → l !! (e - 1) = Some x → getitem l (Z.of_nat e - 1) = Ok x.
Proof.
  intros He Hx. pose proof (lookup_lt_Some _ _ _ Hx) as Hlt. unfold getitem.
  replace ((Z.of_nat e - 1 <? 0)%Z) with false by (symmetry; apply Z.ltb_ge; lia).
  replace ((0 <=? Z.of_nat e - 1)%Z && (Z.of_nat e - 1 <? Z.of_nat (length l))%Z)
    with true by (symmetry; apply andb_true_iff; split; [apply Z.leb_le | apply Z.ltb_lt]; lia).
  replace (Z.to_nat (Z.of_nat e - 1)) with (e - 1) by lia. by rewrite Hx.
Qed.

Lemma set_last_Ok {A} (a : list A) (v : A) :
  a ≠ [] → set_last a v = Ok (<[pred (length a) := v]> a).
Proof. by destruct a. Qed.

(** The end times of the chunks of a sorted series do not decrease. *)
Lemma chunk_end_times_sorted (tm : list Q) (ends : list nat) :
  nondecreasing tm = true →
  Forall (λ e, 0 < e ≤ length tm) ends →
  (∀ i j x y, i ≤ j → ends !! i = Some x → ends !! j = Some y → x ≤ y) →
  ∀ i j x y, i ≤ j →
             map (λ e, nth (e - 1) tm 0%Q) ends !! i = Some x →
             map (λ e, nth (e - 1) tm 0%Q) ends !! j = Some y →
             (x <= y)%Q.
Proof.
  intros Hnd Hb Hmono i j x y Hij Hx Hy.
  rewrite list_lookup_fmap in Hx, Hy.
  destruct (ends !! i) as [ei|] eqn:Ei; [|done].
  destruct (ends !! j) as [ej|] eqn:Ej; [|done].
  simpl in Hx, Hy. injection Hx as <-. injection Hy as <-.
  rewrite Forall_forall in Hb.
  pose proof (Hb ei (list_elem_of_lookup_2 _ _ _ Ei)) as Hbi.
  pose proof (Hb ej (list_elem_of_lookup_2 _ _ _ Ej)) as Hbj.
  destruct (lookup_lt_is_Some_2 tm (ei - 1)) as [ti Hti]; [lia|].
  destruct (lookup_lt_is_Some_2 tm (ej - 1)) as [tj Htj]; [lia|].
  rewrite (nth_lookup_Q _ _ _ Hti), (nth_lookup_Q _ _ _ Htj).
  apply (nondecreasing_lookup tm Hnd (ei - 1) (ej - 1)); [|done|done].
  pose proof (Hmono i j ei ej Hij Ei Ej). lia.
Qed.

(** The indices at which the target times are split do not decrease and end
    at the number of target times. *)
Lemma end_indices_sorted (new_times keys : list Q) x pre :
  new_times = pre ++ [x] →
  nondecreasing new_times = true →
  keys ≠ [] →
  (∀ i j a b, i ≤ j → keys !! i = Some a → keys !! j = Some b → (a <= b)%Q) →
  let idxs := searchsorted new_times (<[pred (length keys) := (x + 1)%Q]> keys) in
  (∀ i j a b, i ≤ j → idxs !! i = Some a → idxs !! j = Some b → a ≤ b) ∧
  last idxs = Some (length new_times) ∧
  length idxs = length keys.
Proof.
  intros Hnew Hnd Hne Hmono idxs.
  assert (searchsorted1 new_times (x + 1)%Q = length new_times) as Hlastidx.
  { rewrite Hnew. apply all_below_last_plus_one. by rewrite <- Hnew. }
  assert (∀ key, searchsorted1 new_times key ≤ length new_times) as Hbound.
  { intros key. apply (bsearch_bounds _ _ _ 0). lia. }
  assert (0 < length keys) as Hlen by (destruct keys; [done|simpl; lia]).
  assert (∀ i a, idxs !! i = Some a →
                 (i = pred (length keys) ∧ a = length new_times) ∨
                 (i < pred (length keys) ∧ ∃ k, keys !! i = Some k ∧
                                                a = searchsorted1 new_times k)) as Hidx.
  { intros i a Ha. unfold idxs, searchsorted in Ha. rewrite list_lookup_fmap in Ha.
    destruct (decide (i = pred (length keys))) as [->|Hne'].
    - rewrite list_lookup_insert_eq in Ha by lia. simpl in Ha. left. split; [done|].
      injection Ha as <-. done.
    - rewrite list_lookup_insert_ne in Ha by done.
      destruct (keys !! i) as [k|] eqn:Ek; [|done]. simpl in Ha. injection Ha as <-.
      right. apply lookup_lt_Some in Ek as Hlt. split; [lia|]. by exists k. }
  split; [|split].
  - intros i j a b Hij Ha Hb.
    destruct (Hidx i a Ha) as [[-> ->]|(Hi & ki & Hki & ->)],
             (Hidx j b Hb) as [[-> ->]|(Hj & kj & Hkj & ->)]; try lia.
    + apply Hbound.
    + apply searchsorted1_mono; [done|]. by apply (Hmono i j).
  - unfold idxs, searchsorted. rewrite fmap_last.
    assert (last (<[pred (length keys) := (x + 1)%Q]> keys) = Some (x + 1)%Q) as ->.
    { rewrite last_lookup, length_insert. apply list_lookup_insert_eq. lia. }
    simpl. by rewrite Hlastidx.
  - unfold idxs, searchsorted. by rewrite length_map, length_insert.
Qed.

(** What the call returns, for a sorted series in chunks that are not empty
    and sorted target times: the pieces into which the target times are
    split at the end times of the chunks, without the empty ones, and the
    ranges of the chunks of the pieces that are kept. *)
Lemma construct_times_keep (xarr : DataArray) (new_times : list Q) :
  chunks_of xarr ≠ [] →
  Forall (λ n, 0 < n) (chunks_of xarr) →
  sum_list (chunks_of xarr) = length (time xarr) →
  nondecreasing (time xarr) = true →
  new_times ≠ [] →
  nondecreasing new_times = true →
  ∃ pieces : list (list Q),
    _interp_across_chunks_construct_times xarr new_times "time"
    = Ok (keep pieces (chunk_ranges (chunks_of xarr)), keep pieces pieces) ∧
    length (chunk_ranges (chunks_of xarr)) = length pieces ∧
    concat pieces = new_times.
Proof.
  intros Hc Hpos Hsum Htime Hne Hnd.
  destruct (nonempty_snoc new_times Hne) as (pre & x & Hnew).
  destruct (cumsum_from_spec (chunks_of xarr) Hpos 0) as (Hclen & Hcb & Hcm).
  fold (cumsum (chunks_of xarr)) in Hclen, Hcb, Hcm.
  set (ends := cumsum (chunks_of xarr)) in *.
  assert (Forall (λ e, 0 < e ≤ length (time xarr)) ends) as Hb.
  { eapply Forall_impl; [exact Hcb|]. simpl. intros e He. lia. }
  set (keys := map (λ e, nth (e - 1) (time xarr) 0%Q) ends).
  assert (mapM (getitem (time xarr)) (map (λ c, (Z.of_nat c - 1)%Z) ends) = Ok keys) as Hkeys.
  { unfold keys.
    replace (map (λ e, nth (e - 1) (time xarr) 0%Q) ends)
      with (map (λ z, nth (Z.to_nat z) (time xarr) 0%Q)
                (map (λ c, (Z.of_nat c - 1)%Z) ends)).
    2: { rewrite map_map. apply map_ext. intros e. f_equal. lia. }
    apply mapM_Ok. intros z Hz. apply list_elem_of_fmap in Hz as (e & -> & He).
    rewrite Forall_forall in Hb. pose proof (Hb e He) as Hbe.
    destruct (lookup_lt_is_Some_2 (time xarr) (e - 1)) as [t Ht]; [lia|].
    rewrite (getitem_at _ e t) by (lia || done).
    f_equal. symmetry. replace (Z.to_nat (Z.of_nat e - 1)) with (e - 1) by lia.
    by apply nth_lookup_Q. }
  assert (keys ≠ []) as Hkne.
  { unfold keys. intros H. apply fmap_nil_inv in H.
    apply (f_equal length) in H. rewrite Hclen in H. by destruct (chunks_of xarr). }
  destruct (end_indices_sorted new_times keys x pre Hnew Hnd Hkne) as (Him & Hil & Hilen).
  { apply chunk_end_times_sorted; done. }
  set (idxs := searchsorted new_times (<[pred (length keys) := (x + 1)%Q]> keys)) in *.
  destruct (np_split_concat new_times idxs 0 (length new_times)) as [Hconcat Hslen];
    [intros; lia|done|done|].
  set (pieces := removelast (np_split new_times idxs)).
  set (ranges := zip (0 :: ends) ends).
  exists pieces. unfold chunk_ranges. fold ends. fold ranges.
  assert (length ranges = length pieces) as Hrl.
  { unfold ranges, pieces, np_split. rewrite length_zip_with. simpl.
    rewrite Hslen, Hilen. unfold keys. rewrite length_map. destruct (length ends); lia. }
  split.
  - unfold _interp_across_chunks_construct_times. fold (chunks_of xarr). fold ends.
    cbv zeta. rewrite decide_True by done. cbn [mbind result_bind].
    rewrite Hkeys. cbn [mbind result_bind].
    rewrite Hnew at 1. rewrite getitem_last. cbn [mbind result_bind].
    rewrite (set_last_Ok keys _ Hkne). cbn [mbind result_bind].
    replace (map (λ e, Z.to_nat (e + 1)) (map (λ c, (Z.of_nat c - 1)%Z) ends)) with ends.
    2: { rewrite map_map. rewrite <- (map_id ends) at 1. apply map_ext. intros e. lia. }
    cbn [tail].
    change (Ok (delete_all (empty_positions (length (@nil (nat * nat))) pieces) ([] ++ ranges),
                delete_all (empty_positions (length (@nil (list Q))) pieces) ([] ++ pieces))
            = Ok (keep pieces ranges, keep pieces pieces)).
    rewrite (delete_all_keep pieces [] ranges Hrl).
    rewrite (delete_all_keep pieces [] pieces eq_refl). done.
  - split; [done|]. unfold pieces, np_split. rewrite Hconcat.
    unfold slice. by rewrite drop_0, Nat.sub_0_r, firstn_all.
Qed.

(** The target times are shared out among the chunks of the series: for a
    sorted series in chunks that are not empty and sorted target times, the
    call returns as many index ranges as vectors of target times; the index
    ranges are ranges of chunks, in their order; no vector of target times
    is empty; and the vectors, put end to end, are the target times. *)
Theorem targets_shared_among_chunks (xarr : DataArray) (new_times : list Q) :
  chunks_of xarr ≠ [] →
  Forall (λ n, 0 < n) (chunks_of xarr) →
  sum_list (chunks_of xarr) = length (time xarr) →
  nondecreasing (time xarr) = true →
  new_times ≠ [] →
  nondecreasing new_times = true →
  ∃ chnk_idxs chnkwise_times,
    _interp_across_chunks_construct_times xarr new_times "time"
    = Ok (chnk_idxs, chnkwise_times) ∧
    length chnk_idxs = length chnkwise_times ∧
    chnk_idxs `sublist_of` zip (0 :: cumsum (chunks_of xarr)) (cumsum (chunks_of xarr)) ∧
    Forall (λ ct, ct ≠ []) chnkwise_times ∧
    concat chnkwise_times = new_times.
Proof.
  intros Hc Hpos Hsum Htime Hne Hnd.
  destruct (construct_times_keep xarr new_times Hc Hpos Hsum Htime Hne Hnd)
    as (pieces & Hrun & Hlen & Hconcat).
  exists (keep pieces (chunk_ranges (chunks_of xarr))), (keep pieces pieces).
  split; [done|]. split; [by apply keep_length|]. split; [apply keep_sublist|].
  destruct (keep_self pieces) as [Hk1 Hk2]. split; [done|]. by rewrite Hk1.
Qed.

Lemma targets_shared_among_chunks_witness :
  ∃ chnk_idxs chnkwise_times,
    _interp_across_chunks_construct_times two_chunks [1; 2; 4]%Q "time"
    = Ok (chnk_idxs, chnkwise_times) ∧
    length chnk_idxs = length chnkwise_times ∧
    chnk_idxs `sublist_of` zip (0 :: cumsum (chunks_of two_chunks)) (cumsum (chunks_of two_chunks)) ∧
    Forall (λ ct, ct ≠ []) chnkwise_times ∧
    concat chnkwise_times = [1; 2; 4]%Q.
Proof.
  apply (targets_shared_among_chunks two_chunks [1; 2; 4]%Q).
  - discriminate.
  - repeat constructor.
  - reflexivity.
  - reflexivity.
  - discriminate.
  - reflexivity.
Defined.

(** The target times 1, 2 and 4 over two chunks of three samples: the first
    chunk gets the times below its end time 2, the second the others. *)
Example construct_times_two_chunks :
  _interp_across_chunks_construct_times two_chunks [1; 2; 4]%Q "time"
  = Ok ([(0, 3); (3, 6)], [[1%Q]; [2; 4]%Q]).
Proof. reflexivity. Qed.

(** *** The slices of the chunks *)

Lemma map_seq_S {A} (f : nat → A) k : map f (seq 1 k) = map (λ i, f (S i)) (seq 0 k).
Proof. by rewrite <- (fmap_S_seq 0), <- list_fmap_compose. Qed.

(** The ranges of chunks of one size, but for the last. *)
Lemma ranges_of_regular_chunks c l :
  ∀ k acc,
    zip (acc :: cumsum_from acc (replicate k c ++ [l])) (cumsum_from acc (replicate k c ++ [l]))
    = map (λ i, (acc + i * c, acc + i * c + c)) (seq 0 k) ++ [(acc + k * c, acc + k * c + l)].
Proof.
  induction k as [|k IH]; intros acc.
  - simpl. do 2 f_equal; lia.
  - change (replicate (S k) c ++ [l]) with (c :: (replicate k c ++ [l])).
    cbn [cumsum_from]. change (seq 0 (S k)) with (0 :: seq 1 k).
    set (ends := cumsum_from (acc + c) (replicate k c ++ [l])) in *.
    change (zip (acc :: (acc + c) :: ends) ((acc + c) :: ends))
      with ((acc, acc + c) :: zip ((acc + c) :: ends) ends).
    subst ends. cbn [map app]. rewrite IH, map_seq_S. f_equal; [f_equal; lia|].
    f_equal; [|do 2 f_equal; lia].
    apply map_ext. intros i. f_equal; lia.
Qed.

(** A Dataset chunked along one dimension, in chunks of one size but for
    the last, which is not empty and not longer: the slices returned are
    the ranges of rows of the chunks. *)
Theorem slices_of_regular_chunks (chunk_dim : string) (ds_dims : gmap string nat)
    (k c l : nat) :
  0 < l ≤ c →
  ds_dims !! chunk_dim = Some (k * c + l) →
  return_chunk_slices (XDataset [(chunk_dim, replicate k c ++ [l])] ds_dims)
  = inr (Some (chunk_ranges (replicate k c ++ [l]))).
Proof.
  intros Hl Hdim. unfold chunk_ranges, cumsum.
  rewrite (ranges_of_regular_chunks c l k 0). unfold return_chunk_slices.
  destruct k as [|k].
  - simpl in Hdim |- *. rewrite Hdim. rewrite decide_False by lia.
    rewrite Nat.Div0.mod_same. rewrite decide_False by (intros H; by apply H).
    repeat f_equal; lia.
  - assert (length (replicate (S k) c ++ [l]) = S (S k)) as Hlen
      by (rewrite length_app, length_replicate; simpl; lia).
    rewrite Hlen.
    change (replicate (S k) c ++ [l]) with (c :: (replicate k c ++ [l])).
    rewrite Hdim. rewrite decide_False by lia. cbv zeta.
    rewrite (seq_S (S k)), map_app. cbn [map].
    destruct (decide (l = c)) as [->|Hlc].
    + replace (S k * c + c) with (c + S k * c) by lia.
      rewrite Nat.Div0.mod_add, Nat.Div0.mod_same.
      rewrite decide_False by (intros H; by apply H).
      cbn [Nat.add]. repeat f_equal; lia.
    + assert ((S k * c + l) mod c = l) as Hmod.
      { rewrite Nat.add_comm, Nat.Div0.mod_add. apply Nat.mod_small. lia. }
      rewrite Hmod. rewrite decide_True by lia.
      unfold set_last. rewrite length_app, length_map, length_seq. cbn [length].
      replace (pred (S k + 1))
        with (length (map (λ i, (i * c, i * c + c)) (seq 0 (S k))) + 0)
        by (rewrite length_map, length_seq; lia).
      destruct (map _ (seq 0 (S k)) ++ [_]) as [|p ps] eqn:E.
      { by apply app_nil in E as [_ ?]. }
      rewrite <- E. rewrite insert_app_r. cbn [insert list_insert].
      cbn [Nat.add]. repeat f_equal; lia.
Qed.

Lemma slices_of_regular_chunks_witness :
  return_chunk_slices (XDataset [("time"%string, replicate 2 3 ++ [2])] {[ "time"%string := 8 ]})
  = inr (Some (chunk_ranges (replicate 2 3 ++ [2]))).
Proof.
  apply (slices_of_regular_chunks "time" {[ "time"%string := 8 ]} 2 3 2).
  - lia.
  - reflexivity.
Defined.

(** Chunks of the sizes 2 and 3: the rows 2 and 3 are in no slice. *)
Example slices_of_uneven_chunks :
  return_chunk_slices (XDataset [("time"%string, [2; 3])] {[ "time"%string := 5 ]})
  = inr (Some [(0, 2); (4, 5)]) ∧
  chunk_ranges [2; 3] = [(0, 2); (2, 5)].
Proof. split; reflexivity. Qed.

(** A Dataset none of whose variables is chunked has no chunked dimension:
    IndexError; a DataArray gets None, chunked or not. *)
Example slices_without_chunks ds_dims da_chunks :
  return_chunk_slices (XDataset [] ds_dims) = inl (Exn IndexError) ∧
  return_chunk_slices (XDataArray da_chunks) = inr None.
Proof. split; reflexivity. Qed.

(** *** Interpolation of a series in several chunks *)

Lemma chunk_ranges_from chunks :
  ∀ acc lo hi,
    (lo, hi) ∈ zip (acc :: cumsum_from acc chunks) (cumsum_from acc chunks) →
    ∃ n, n ∈ chunks ∧ hi = lo + n ∧ hi ≤ acc + sum_list chunks.
Proof.
  induction chunks as [|n chunks IH]; intros acc lo hi Hin.
  - by apply elem_of_nil in Hin.
  - cbn [cumsum_from] in Hin.
    set (ends := cumsum_from (acc + n) chunks) in *.
    change (zip (acc :: (acc + n) :: ends) ((acc + n) :: ends))
      with ((acc, acc + n) :: zip ((acc + n) :: ends) ends) in Hin.
    apply elem_of_cons in Hin as [[= -> ->]|Hin].
    + exists n. split; [by left|].
      change (sum_list (n :: chunks)) with (n + sum_list chunks). lia.
    + destruct (IH _ _ _ Hin) as (m & Hm & -> & Hle). exists m.
      split; [by right|].
      change (sum_list (n :: chunks)) with (n + sum_list chunks). lia.
Qed.

Lemma concat_interp_length {A} (g : A → list Q → list Q) :
  (∀ x ct, length (g x ct) = length ct) →
  ∀ xs cts, length (concat (map (λ p, g p.1 p.2) (zip xs cts))) ≤ length (concat cts) ∧
            (length xs = length cts →
             length (concat (map (λ p, g p.1 p.2) (zip xs cts))) = length (concat cts)).
Proof.
  intros Hg xs. induction xs as [|x xs IH]; intros [|ct cts]; simpl; try (split; [lia|done]).
  destruct (IH cts) as [IH1 IH2]. rewrite !length_app, Hg. split; [lia|].
  intros H. rewrite IH2 by lia. done.
Qed.



(** The sample at the end of the first chunk, interpolated at its own time:
    the time goes to the second chunk and the value is extrapolated from
    the samples there, 10 for the sample 0. *)
Example chunk_end_sample_is_extrapolated :
  interp_across_chunks step_series [1; 2; 4]%Q "time" = Ok [0; 10; 10]%Q ∧
  nth 2 (values step_series) 0%Q = 0%Q.
Proof. split; reflexivity. Qed.

End InterpFacts.

(** ** Properties of the attribute combiner *)

Section AttrsFacts.
Import Attrs.

Lemma prefix_ne (n : nat) (p k s : string) :
  has_prefix n p k = true → has_prefix n p s = false → k ≠ s.
Proof. intros Hk Hs ->. congruence. Qed.

Lemma pop_name_snd key names vals :
  (pop_name key names vals).2 = (pop_name key [] vals).2.
Proof. unfold pop_name. by destruct (pop key vals) as [[? ?]|]. Qed.

(** The install branch in terms of the settings of the text. *)
Lemma install_entry_eq st k o :
  install_entry st k (AJson o) =
  let st' := {| finaldict := finaldict st;
                buffered_settings := buffered_settings st;
                buffered_runtime_settings := buffered_runtime_settings st;
                fnames := (pop_name "raw_file_name" (fnames st) o).1;
                survey_nums := (pop_name "survey_identifier" (survey_nums st)
                                  (pop_name "raw_file_name" [] o).2).1;
                cast_dump := cast_dump st |} in
  Ok (if bool_decide (buffered_settings st = Some (settings o)) then st'
      else match buffered_settings st with
           | None =>
               {| finaldict := <[k := AJson (settings o)]> (finaldict st);
                  buffered_settings := Some (settings o);
                  buffered_runtime_settings := buffered_runtime_settings st;
                  fnames := fnames st'; survey_nums := survey_nums st';
                  cast_dump := cast_dump st |}
           | Some _ => set_finaldict st' k (AJson (settings o))
           end).
Proof.
  unfold install_entry, settings. simpl.
  rewrite <- (pop_name_snd "raw_file_name" (fnames st) o).
  destruct (pop_name "raw_file_name" (fnames st) o) as [fn vals]. simpl.
  rewrite <- (pop_name_snd "survey_identifier" (survey_nums st) vals).
  destruct (pop_name "survey_identifier" (survey_nums st) vals) as [sv vals']. simpl.
  done.
Qed.

Lemma entry_install st k o :
  has_prefix 7 "install" k = true →
  entry st (k, AJson o) = install_entry st k (AJson o).
Proof. intros Hk. unfold entry. by rewrite Hk. Qed.

(** A serial number that is not in the merged dict yet is stored as it is;
    one that is there as a one element array and comes again with the same
    element changes nothing. *)
Lemma entry_serial_new st k v :
  is_serial_key k = true →
  finaldict st !! k = None →
  entry st (k, v) = Ok (set_finaldict st k v).
Proof.
  intros Hk Hnone. unfold entry.
  assert (k = "system_serial_number" ∨ k = "secondary_system_serial_number")%string
    as [-> | ->].
  { unfold is_serial_key in Hk. apply orb_true_iff in Hk as [H|H];
      apply String.eqb_eq in H; auto. }
  all: rewrite Hnone; reflexivity.
Qed.

Lemma entry_serial_same st k q :
  is_serial_key k = true →
  finaldict st !! k = Some (AArr [q]) →
  entry st (k, AArr [q]) = Ok st.
Proof.
  intros Hk Hsome. unfold entry.
  assert (k = "system_serial_number" ∨ k = "secondary_system_serial_number")%string
    as [-> | ->].
  { unfold is_serial_key in Hk. apply orb_true_iff in Hk as [H|H];
      apply String.eqb_eq in H; auto. }
  all: rewrite Hsome; simpl; rewrite Qeq_bool_refl; reflexivity.
Qed.

Lemma install_keys_insert k v (fd : gmap string attr) :
  install_keys (<[k := v]> fd) =
  if has_prefix 7 "install" k then {[k]} ∪ install_keys fd else install_keys fd.
Proof.
  unfold install_keys. rewrite dom_insert_L. apply set_eq. intros x.
  destruct (has_prefix 7 "install" k) eqn:Hk;
    rewrite ?elem_of_union, !elem_of_filter, elem_of_union, elem_of_singleton.
  - split; [intros [Hx [->|Hd]]; auto | intros [->|[Hx Hd]]; auto].
  - split; [intros [Hx [->|Hd]]; [congruence | auto] | intros [Hx Hd]; auto].
Qed.

Lemma install_keys_empty : install_keys ∅ = ∅.
Proof.
  unfold install_keys. apply set_eq. intros x.
  rewrite elem_of_filter, dom_empty_L, elem_of_empty. tauto.
Qed.

Lemma leb_refl s : String.leb s s = true.
Proof. destruct (String.leb_total s s); done. Qed.

Lemma np_unique_twice_l x y : np_unique [x; x; y] = np_unique [x; y].
Proof.
  unfold np_unique, sorted. simpl.
  destruct (String.leb x y) eqn:Hxy; simpl.
  - rewrite leb_refl. simpl. rewrite String.eqb_refl.
    destruct (String.eqb x y) eqn:E; simpl; rewrite ?E; done.
  - rewrite Hxy. simpl. rewrite leb_refl. simpl. rewrite String.eqb_refl. done.
Qed.

#[local] Set Warnings "-clear-no-such-hyp".
#[local] Arguments entry : simpl never.
#[local] Arguments install_entry : simpl never.

Lemma entries_app st l1 l2 :
  entries st (l1 ++ l2) = (st' ← entries st l1; entries st' l2).
Proof.
  revert st. induction l1 as [|kv l1 IH]; intros st; [done|].
  simpl. destruct (entry st kv); simpl; [apply IH | done].
Qed.

Lemma install_entry_lookup st k o st' s :
  install_entry st k (AJson o) = Ok st' → k ≠ s →
  finaldict st' !! s = finaldict st !! s.
Proof.
  rewrite install_entry_eq. intros [= <-] Hne. simpl.
  repeat case_match; simpl; rewrite ?lookup_insert_ne; done.
Qed.

(** The entries of the first batch: the install settings are stored and
    the serial numbers are stored as they are. *)
Lemma first_batch st k o serial secondary st' :
  has_prefix 7 "install" k = true →
  finaldict st !! "system_serial_number"%string = None →
  finaldict st !! "secondary_system_serial_number"%string = None →
  install_entry st k (AJson o) = Ok st' →
  entries st (batch_attrs k o serial secondary) =
  Ok (set_finaldict (set_finaldict st' "system_serial_number" (AArr [serial]))
                    "secondary_system_serial_number" (AArr [secondary])).
Proof.
  intros Hk H1 H2 Hst. unfold batch_attrs. cbn [entries].
  rewrite (entry_install _ _ _ Hk), Hst. simpl.
  rewrite entry_serial_new; [simpl|done|].
  2:{ erewrite install_entry_lookup; [done|done|].
      eapply prefix_ne; [done|reflexivity]. }
  rewrite entry_serial_new; [done|done|]. simpl.
  rewrite lookup_insert_ne by done.
  erewrite install_entry_lookup; [done|done|].
  eapply prefix_ne; [done|reflexivity].
Qed.

(** The entries of a later batch with the same serial numbers: only the
    install settings matter. *)
Lemma later_batch st k o serial secondary st' :
  has_prefix 7 "install" k = true →
  finaldict st !! "system_serial_number"%string = Some (AArr [serial]) →
  finaldict st !! "secondary_system_serial_number"%string = Some (AArr [secondary]) →
  install_entry st k (AJson o) = Ok st' →
  entries st (batch_attrs k o serial secondary) = Ok st'.
Proof.
  intros Hk H1 H2 Hst. unfold batch_attrs. cbn [entries].
  rewrite (entry_install _ _ _ Hk), Hst. simpl.
  rewrite entry_serial_same; [simpl|done|].
  2:{ erewrite install_entry_lookup; [done|done|].
      eapply prefix_ne; [done|reflexivity]. }
  rewrite entry_serial_same; [done|done|].
  erewrite install_entry_lookup; [done|done|].
  eapply prefix_ne; [done|reflexivity].
Qed.

Lemma np_unique_twice_r x y : np_unique [x; y; x] = np_unique [x; y].
Proof.
  unfold np_unique, sorted. simpl.
  destruct (String.leb y x) eqn:Hyx; simpl.
  - destruct (String.leb x y) eqn:Hxy; simpl.
    + assert (x = y) as -> by (by apply String.leb_antisym).
      rewrite String.eqb_refl. done.
    + rewrite leb_refl. simpl. rewrite String.eqb_refl.
      destruct (String.eqb y x) eqn:E; simpl; done.
  - assert (String.leb x y = true) as Hxy
      by (destruct (String.leb_total x y); congruence).
    rewrite leb_refl, Hxy. simpl. rewrite String.eqb_refl. done.
Qed.

Lemma np_unique_thrice x : np_unique [x; x; x] = np_unique [x].
Proof.
  unfold np_unique, sorted. simpl. rewrite leb_refl. simpl.
  rewrite leb_refl. simpl. by rewrite String.eqb_refl.
Qed.

Lemma finish_no_casts st ssn sec :
  fnames st ≠ [] →
  cast_dump st = ∅ →
  finaldict st !! "system_serial_number"%string = Some (AArr ssn) →
  finaldict st !! "secondary_system_serial_number"%string = Some (AArr sec) →
  ∃ fd, finish st = Ok fd ∧
        install_keys fd = install_keys (finaldict st) ∧
        fd !! "multibeam_files"%string = Some (AStrList (np_unique (fnames st))).
Proof.
  intros Hf Hc H1 H2. unfold finish, add_file_names.
  destruct (fnames st) as [|f fs] eqn:Ef; [done|].
  rewrite H1. simpl. rewrite lookup_insert_ne by done. rewrite H2. simpl.
  rewrite Hc, map_to_list_empty. simpl.
  eexists. split; [reflexivity|].
  destruct (survey_nums st); simpl.
  - rewrite !install_keys_insert. simpl. by rewrite lookup_insert_eq.
  - rewrite !install_keys_insert. simpl.
    by rewrite lookup_insert_ne, lookup_insert_eq.
Qed.

Lemma bind_ok {A B} (x : A) (f : A → result B) : (Ok x ≫= f) = f x.
Proof. reflexivity. Qed.

Lemma pop_name_again key vals :
  (pop_name key (pop_name key [] vals).1 vals).1 = (pop_name key [] vals).1.
Proof.
  unfold pop_name. destruct (pop key vals) as [[n vals']|]; simpl; [|done].
  rewrite bool_decide_eq_true_2 by set_solver. done.
Qed.

Lemma install_first st k o :
  buffered_settings st = None →
  install_entry st k (AJson o) =
  Ok (with_names st o (<[k := AJson (settings o)]> (finaldict st)) (Some (settings o))).
Proof. intros Hb. rewrite install_entry_eq. simpl. by rewrite Hb. Qed.

Lemma install_same st k o :
  buffered_settings st = Some (settings o) →
  install_entry st k (AJson o) =
  Ok (with_names st o (finaldict st) (Some (settings o))).
Proof.
  intros Hb. rewrite install_entry_eq. simpl.
  rewrite bool_decide_eq_true_2 by done. by rewrite Hb.
Qed.

Lemma install_other st k o s :
  buffered_settings st = Some s → s ≠ settings o →
  install_entry st k (AJson o) =
  Ok (with_names st o (<[k := AJson (settings o)]> (finaldict st)) (Some s)).
Proof.
  intros Hb Hne. rewrite install_entry_eq. simpl.
  rewrite bool_decide_eq_false_2 by (rewrite Hb; congruence). by rewrite Hb.
Qed.

#[local] Arguments entries : simpl never.
#[local] Arguments batch_attrs : simpl never.

Lemma merge_aab k1 k2 k3 a b fa fb ra rb sn sn2 :
  has_prefix 7 "install" k1 = true →
  has_prefix 7 "install" k2 = true →
  has_prefix 7 "install" k3 = true →
  k1 ≠ k3 →
  pop "raw_file_name" a = Some (fa, ra) →
  pop "raw_file_name" b = Some (fb, rb) →
  settings a ≠ settings b →
  ∃ fd, combine_xr_attributes
          [batch_attrs k1 a sn sn2; batch_attrs k2 a sn sn2; batch_attrs k3 b sn sn2]
        = Ok fd ∧
        install_keys fd = {[k1; k3]} ∧
        fd !! "multibeam_files"%string = Some (AStrList (np_unique [fa; fa; fb])).
Proof.
  intros Hk1 Hk2 Hk3 Hne Ha Hb Hab. unfold combine_xr_attributes.
  cbn [concat]. rewrite app_nil_r.
  assert (k1 ≠ "system_serial_number"%string) by (by eapply prefix_ne).
  assert (k1 ≠ "secondary_system_serial_number"%string) by (by eapply prefix_ne).
  assert (k3 ≠ "system_serial_number"%string) by (by eapply prefix_ne).
  assert (k3 ≠ "secondary_system_serial_number"%string) by (by eapply prefix_ne).
  rewrite entries_app.
  erewrite first_batch; [|done|done|done|by apply install_first].
  rewrite bind_ok, entries_app.
  erewrite later_batch;
    [|done|by simpl; simplify_map_eq|by simpl; simplify_map_eq|by apply install_same].
  rewrite bind_ok.
  erewrite later_batch;
    [|done|by simpl; simplify_map_eq|by simpl; simplify_map_eq
     |by apply (install_other _ _ _ (settings a))].
  rewrite bind_ok.
  match goal with
  | |- context [finish ?s] =>
      destruct (finish_no_casts s [sn] [sn2]) as (fd & Hfin & Hkeys & Hmb)
  end.
  - simpl. unfold pop_name. rewrite Ha, Hb. simpl.
    repeat case_bool_decide; done.
  - done.
  - simpl. by simplify_map_eq.
  - simpl. by simplify_map_eq.
  - exists fd. split; [done|]. split.
    + rewrite Hkeys. simpl.
      rewrite !install_keys_insert, Hk1, Hk3, install_keys_empty. simpl.
      set_solver.
    + rewrite Hmb. simpl. unfold pop_name. rewrite Ha, Hb. simpl.
      rewrite (bool_decide_eq_true_2 (fa ∈ [fa])) by set_solver.
      case_bool_decide as Hin.
      * assert (fb = fa) as -> by set_solver. by rewrite np_unique_thrice.
      * by rewrite np_unique_twice_l.
Qed.

Lemma merge_aba k1 k2 k3 a b fa fb ra rb sn sn2 :
  has_prefix 7 "install" k1 = true →
  has_prefix 7 "install" k2 = true →
  has_prefix 7 "install" k3 = true →
  k1 ≠ k2 →
  pop "raw_file_name" a = Some (fa, ra) →
  pop "raw_file_name" b = Some (fb, rb) →
  settings a ≠ settings b →
  ∃ fd, combine_xr_attributes
          [batch_attrs k1 a sn sn2; batch_attrs k2 b sn sn2; batch_attrs k3 a sn sn2]
        = Ok fd ∧
        install_keys fd = {[k1; k2]} ∧
        fd !! "multibeam_files"%string = Some (AStrList (np_unique [fa; fb; fa])).
Proof.
  intros Hk1 Hk2 Hk3 Hne Ha Hb Hab. unfold combine_xr_attributes.
  cbn [concat]. rewrite app_nil_r.
  assert (k1 ≠ "system_serial_number"%string) by (by eapply prefix_ne).
  assert (k1 ≠ "secondary_system_serial_number"%string) by (by eapply prefix_ne).
  assert (k2 ≠ "system_serial_number"%string) by (by eapply prefix_ne).
  assert (k2 ≠ "secondary_system_serial_number"%string) by (by eapply prefix_ne).
  rewrite entries_app.
  erewrite first_batch; [|done|done|done|by apply install_first].
  rewrite bind_ok, entries_app.
  erewrite later_batch;
    [|done|by simpl; simplify_map_eq|by simpl; simplify_map_eq
     |by apply (install_other _ _ _ (settings a))].
  rewrite bind_ok.
  erewrite later_batch;
    [|done|by simpl; simplify_map_eq|by simpl; simplify_map_eq|by apply install_same].
  rewrite bind_ok.
  match goal with
  | |- context [finish ?s] =>
      destruct (finish_no_casts s [sn] [sn2]) as (fd & Hfin & Hkeys & Hmb)
  end.
  - simpl. unfold pop_name. rewrite Ha, Hb. simpl.
    repeat case_bool_decide; done.
  - done.
  - simpl. by simplify_map_eq.
  - simpl. by simplify_map_eq.
  - exists fd. split; [done|]. split.
    + rewrite Hkeys. simpl.
      rewrite !install_keys_insert, Hk1, Hk2, install_keys_empty. simpl.
      set_solver.
    + rewrite Hmb. simpl. unfold pop_name. rewrite Ha, Hb. simpl.
      destruct (decide (fb = fa)) as [->|Hfb].
      * rewrite (bool_decide_eq_true_2 (fa ∈ [fa])) by (apply list_elem_of_singleton; done).
        rewrite (bool_decide_eq_true_2 (fa ∈ [fa])) by (apply list_elem_of_singleton; done).
        by rewrite np_unique_thrice.
      * rewrite (bool_decide_eq_false_2 (fb ∈ [fa]))
          by (rewrite list_elem_of_singleton; done).
        simpl.
        rewrite (bool_decide_eq_true_2 (fa ∈ [fa; fb])) by (apply list_elem_of_here).
        by rewrite np_unique_twice_r.
Qed.




(** *** What becomes of the keys *)

Lemma result_bind_Ok {A B} (r : result A) (f : A → result B) b :
  (r ≫= f) = Ok b → ∃ a, r = Ok a ∧ f a = Ok b.
Proof. destruct r as [a|e]; [|done]. intros H. by exists a. Qed.

(** The cases of a run that gave a result. *)
Ltac run_cases :=
  repeat first
    [ progress simplify_eq/=
    | match goal with
      | H : (_ ≫= _) = Ok _ |- _ => apply result_bind_Ok in H as (? & ? & H)
      end
    | case_match ].

(** An entry changes the merged dict at its own key only. *)
Lemma entry_frame st k' v st' k :
  entry st (k', v) = Ok st' → k' ≠ k → finaldict st' !! k = finaldict st !! k.
Proof.
  intros Hrun Hne. unfold entry in Hrun.
  destruct (has_prefix 7 "install" k').
  { destruct v; try discriminate. by eapply install_entry_lookup. }
  destruct (has_prefix 7 "runtime" k').
  { unfold runtime_entry in Hrun. destruct v; try discriminate. simpl in Hrun.
    repeat case_match; simplify_eq/=; rewrite ?lookup_insert_ne; done. }
  run_cases; rewrite ?lookup_insert_ne; done.
Qed.

(** The casts are kept under keys that start with 'profile'. *)
Lemma entry_cast_dump st k' v st' k :
  entry st (k', v) = Ok st' → has_prefix 7 "profile" k = false →
  cast_dump st' !! k = cast_dump st !! k.
Proof.
  intros Hrun Hk. unfold entry in Hrun.
  destruct (has_prefix 7 "install" k').
  { destruct v; try discriminate. rewrite install_entry_eq in Hrun.
    injection Hrun as <-. simpl. repeat case_match; done. }
  destruct (has_prefix 7 "runtime" k').
  { unfold runtime_entry in Hrun. destruct v; try discriminate. simpl in Hrun.
    repeat case_match; simplify_eq/=; done. }
  destruct (is_serial_key k' && _).
  { run_cases; done. }
  destruct (has_prefix 7 "profile" k') eqn:Hk'.
  { injection Hrun as <-. simpl. rewrite lookup_insert_ne; [done|].
    intros ->. congruence. }
  run_cases; done.
Qed.

Lemma entries_cast_dump items :
  ∀ st st' k,
    entries st items = Ok st' → has_prefix 7 "profile" k = false →
    cast_dump st' !! k = cast_dump st !! k.
Proof.
  induction items as [|[k' v] items IH]; intros st st' k Hrun Hk.
  - by injection Hrun as <-.
  - simpl in Hrun. apply result_bind_Ok in Hrun as (st1 & H1 & Hrun).
    rewrite (IH _ _ _ Hrun Hk). by eapply entry_cast_dump.
Qed.

Lemma keep_unique_casts_frame casts k :
  casts !! k = None →
  ∀ sorted_kys unique_casts fd,
    keep_unique_casts casts sorted_kys unique_casts fd !! k = fd !! k.
Proof.
  intros Hk sorted_kys. induction sorted_kys as [|k' rest IH]; intros unique_casts fd; [done|].
  simpl. destruct (casts !! k') as [c|] eqn:Hc; [|apply IH].
  destruct (existsb _ _); rewrite IH; [done|].
  rewrite lookup_insert_ne; [done|]. intros ->. congruence.
Qed.

(** When the datasets are done with, the merged dict is changed at the
    serial numbers, at multibeam_files and survey_number, and at the keys
    of the casts. *)
Lemma finish_frame st fd k :
  finish st = Ok fd →
  is_serial_key k = false →
  k ≠ "multibeam_files"%string →
  k ≠ "survey_number"%string →
  cast_dump st !! k = None →
  fd !! k = finaldict st !! k.
Proof.
  intros Hrun Hserial Hfiles Hsurvey Hcast. unfold finish in Hrun.
  apply result_bind_Ok in Hrun as (fd1 & Hadd & [= <-]).
  rewrite keep_unique_casts_frame by done.
  assert (k ≠ "system_serial_number"%string ∧ k ≠ "secondary_system_serial_number"%string)
    as [Hs1 Hs2].
  { unfold is_serial_key in Hserial. apply orb_false_iff in Hserial as [H1 H2].
    apply String.eqb_neq in H1, H2. done. }
  assert (fd1 !! k = finaldict st !! k) as Hfd1.
  { unfold add_file_names in Hadd. destruct (fnames st); [by injection Hadd as <-|].
    run_cases. by rewrite !lookup_insert_ne. }
  destruct (survey_nums st); [done|]. by rewrite lookup_insert_ne.
Qed.

Lemma special_false k :
  special k = false →
  has_prefix 7 "install" k = false ∧ has_prefix 7 "runtime" k = false ∧
  is_serial_key k = false ∧ has_prefix 7 "profile" k = false ∧
  has_prefix 3 "min" k = false ∧ has_prefix 3 "max" k = false ∧
  k ≠ "multibeam_files"%string ∧ k ≠ "survey_number"%string.
Proof.
  unfold special. intros H. repeat (apply orb_false_iff in H as [H ?]).
  repeat split; try done; by apply String.eqb_neq.
Qed.

(** The merged dict at a key without a treatment of its own: the value it
    had, or else the first value that the items give. *)
Lemma entries_plain k :
  special k = false →
  ∀ items st st',
    entries st items = Ok st' →
    finaldict st' !! k = match finaldict st !! k with
                         | Some v => Some v
                         | None => first_given k items
                         end.
Proof.
  intros Hk. destruct (special_false k Hk) as (Hi & Hr & Hs & Hp & Hmin & Hmax & _).
  induction items as [|[k' v] items IH]; intros st st' Hrun.
  - injection Hrun as <-. by destruct (finaldict st !! k).
  - simpl in Hrun. apply result_bind_Ok in Hrun as (st1 & H1 & Hrun).
    rewrite (IH _ _ Hrun). simpl.
    destruct (String.eqb_spec k' k) as [->|Hne].
    + unfold entry in H1. rewrite Hi, Hr, Hs, Hp, Hmin, Hmax in H1. simpl in H1.
      destruct (finaldict st !! k) as [old|] eqn:Hold.
      * injection H1 as <-. by rewrite Hold.
      * injection H1 as <-. simpl. by rewrite lookup_insert_eq.
    + by rewrite (entry_frame _ _ _ _ _ H1 Hne).
Qed.

(** A key without a treatment of its own keeps the value of the first
    dataset that has it: the values of the later datasets are dropped. *)
Theorem plain_key_first_wins (all_attrs : list dict) (fd : gmap string attr) (k : string) :
  special k = false →
  combine_xr_attributes all_attrs = Ok fd →
  fd !! k = first_given k (concat all_attrs).
Proof.
  intros Hk Hrun. unfold combine_xr_attributes in Hrun.
  apply result_bind_Ok in Hrun as (st & Hentries & Hfinish).
  destruct (special_false k Hk) as (_ & _ & Hs & Hp & _ & _ & Hfiles & Hsurvey).
  rewrite (finish_frame _ _ _ Hfinish Hs Hfiles Hsurvey).
  - by rewrite (entries_plain k Hk _ _ _ Hentries).
  - by rewrite (entries_cast_dump _ _ _ _ Hentries Hp).
Qed.

Lemma plain_key_first_wins_witness :
  ∃ fd, combine_xr_attributes [line_1; line_2] = Ok fd ∧
        fd !! "survey"%string = first_given "survey" (concat [line_1; line_2]).
Proof.
  eexists. split; [reflexivity|].
  apply (plain_key_first_wins [line_1; line_2] _ "survey"); reflexivity.
Defined.

(** *** The least and the greatest of the statistics *)

Lemma has_prefix_3 (a b c : ascii) (k : string) :
  has_prefix 3 (String a (String b (String c ""))) k = true →
  ∃ s, k = String a (String b (String c s)).
Proof.
  unfold has_prefix. intros H. apply String.eqb_eq in H.
  destruct k as [|a' [|b' [|c' s]]]; simpl in H; try discriminate.
  injection H as -> -> -> _. by exists s.
Qed.

Section extreme.
Variable k : string.
Variable op : Q → Q → Q.
Variable le : Q → Q → Prop.
Hypothesis le_refl : ∀ a, le a a.
Hypothesis le_trans : ∀ a b c, le a b → le b c → le a c.
Hypothesis op_cases : ∀ a b, (op a b = a ∧ le a b) ∨ (op a b = b ∧ le b a).
Hypothesis entry_k :
  ∀ st v, entry st (k, v) =
          match finaldict st !! k with
          | Some old =>
              match v, old with
              | ANum a, ANum b => Ok (set_finaldict st k (ANum (op a b)))
              | _, _ => Raise TypeError
              end
          | None => Ok (set_finaldict st k v)
          end.

Lemma entries_extreme items :
  ∀ seen st st',
    (∀ v, (k, v) ∈ items → ∃ q, v = ANum q) →
    extreme_of le k seen (finaldict st !! k) →
    entries st items = Ok st' →
    extreme_of le k (seen ++ items) (finaldict st' !! k).
Proof.
  induction items as [|[k' v] items IH]; intros seen st st' Hnum Hseen Hrun.
  - injection Hrun as <-. by rewrite app_nil_r.
  - simpl in Hrun. apply result_bind_Ok in Hrun as (st1 & H1 & Hrun).
    replace (seen ++ (k', v) :: items) with ((seen ++ [(k', v)]) ++ items)
      by (by rewrite <- (assoc_L (++))).
    apply (IH _ st1); [intros v' Hv'; apply Hnum; by right| |done].
    destruct (decide (k' = k)) as [->|Hne].
    + destruct (Hnum v) as [a ->]; [by left|].
      rewrite entry_k in H1. unfold extreme_of in Hseen |- *.
      destruct (finaldict st !! k) as [old|] eqn:Hold.
      * destruct Hseen as (b & -> & Hin & Hle). injection H1 as <-. simpl.
        rewrite lookup_insert_eq. exists (op a b). split; [done|].
        destruct (op_cases a b) as [[-> Hab]|[-> Hba]].
        -- split; [apply elem_of_app; right; by left|].
           intros q' [Hq'|Hq']%elem_of_app.
           ++ eapply le_trans; [exact Hab|]. by apply Hle.
           ++ apply list_elem_of_singleton in Hq'. injection Hq' as ->. apply le_refl.
        -- split; [apply elem_of_app; by left|].
           intros q' [Hq'|Hq']%elem_of_app.
           ++ by apply Hle.
           ++ apply list_elem_of_singleton in Hq'. by injection Hq' as ->.
      * injection H1 as <-. simpl. rewrite lookup_insert_eq. exists a. split; [done|].
        split; [apply elem_of_app; right; by left|].
        intros q' [Hq'|Hq']%elem_of_app; [by destruct (Hseen (ANum q'))|].
        apply list_elem_of_singleton in Hq'. injection Hq' as ->. apply le_refl.
    + rewrite (entry_frame _ _ _ _ _ H1 Hne). unfold extreme_of in Hseen |- *.
      destruct (finaldict st !! k) as [old|].
      * destruct Hseen as (b & -> & Hin & Hle). exists b. split; [done|].
        split; [apply elem_of_app; by left|].
        intros q' [Hq'|Hq']%elem_of_app; [by apply Hle|].
        apply list_elem_of_singleton in Hq'. by injection Hq' as ->.
      * intros v' [Hv'|Hv']%elem_of_app; [by apply (Hseen v')|].
        apply list_elem_of_singleton in Hv'. by injection Hv' as ->.
Qed.

Lemma combine_extreme all_attrs fd :
  is_serial_key k = false →
  has_prefix 7 "profile" k = false →
  k ≠ "multibeam_files"%string →
  k ≠ "survey_number"%string →
  (∀ v, (k, v) ∈ concat all_attrs → ∃ q, v = ANum q) →
  combine_xr_attributes all_attrs = Ok fd →
  extreme_of le k (concat all_attrs) (fd !! k).
Proof.
  intros Hs Hp Hfiles Hsurvey Hnum Hrun. unfold combine_xr_attributes in Hrun.
  apply result_bind_Ok in Hrun as (st & Hentries & Hfinish).
  rewrite (finish_frame _ _ _ Hfinish Hs Hfiles Hsurvey).
  - apply (entries_extreme _ [] initial st Hnum); [|done].
    unfold extreme_of. change (finaldict initial) with (∅ : gmap string attr).
    rewrite lookup_empty. intros v. apply not_elem_of_nil.
  - by rewrite (entries_cast_dump _ _ _ _ Hentries Hp).
Qed.

End extreme.

Lemma Qmin_cases a b :
  (Qmin a b = a ∧ (a <= b)%Q) ∨ (Qmin a b = b ∧ (b <= a)%Q).
Proof.
  unfold Qmin, GenericMinMax.gmin. destruct (a ?= b)%Q eqn:E.
  - left. split; [done|]. apply Qeq_alt in E. rewrite E. apply Qle_refl.
  - left. split; [done|]. apply Qlt_alt in E. by apply Qlt_le_weak.
  - right. split; [done|]. apply Qgt_alt in E. by apply Qlt_le_weak.
Qed.

Lemma Qmax_cases a b :
  (Qmax a b = a ∧ (b <= a)%Q) ∨ (Qmax a b = b ∧ (a <= b)%Q).
Proof.
  unfold Qmax, GenericMinMax.gmax. destruct (a ?= b)%Q eqn:E.
  - left. split; [done|]. apply Qeq_alt in E. rewrite E. apply Qle_refl.
  - right. split; [done|]. apply Qlt_alt in E. by apply Qlt_le_weak.
  - left. split; [done|]. apply Qgt_alt in E. by apply Qlt_le_weak.
Qed.

(** A key that starts with 'min', given as numbers: the merged dict holds
    the least of the numbers that the datasets give for it. *)
Theorem min_key_holds_least (all_attrs : list dict) (fd : gmap string attr) (k : string) :
  has_prefix 3 "min" k = true →
  (∀ v, (k, v) ∈ concat all_attrs → ∃ q, v = ANum q) →
  combine_xr_attributes all_attrs = Ok fd →
  match fd !! k with
  | Some m => ∃ q, m = ANum q ∧ (k, ANum q) ∈ concat all_attrs ∧
                   ∀ q', (k, ANum q') ∈ concat all_attrs → (q <= q')%Q
  | None => ∀ v, (k, v) ∉ concat all_attrs
  end.
Proof.
  intros Hk Hnum Hrun. pose proof Hk as Hmin. apply has_prefix_3 in Hk as [s ->].
  apply (combine_extreme _ Qmin Qle Qle_refl Qle_trans Qmin_cases) with (fd := fd);
    try done.
  intros st v. unfold entry.
  change (has_prefix 7 "install" _) with false.
  change (has_prefix 7 "runtime" _) with false.
  change (is_serial_key _) with false.
  change (has_prefix 7 "profile" _) with false.
  rewrite Hmin. cbn [andb]. unfold np_min2.
  destruct (finaldict st !! _) as [old|]; [|done].
  destruct v, old; done.
Qed.

Lemma min_key_holds_least_witness :
  ∃ fd, combine_xr_attributes [line_1; line_2] = Ok fd ∧
        match fd !! "min_depth"%string with
        | Some m => ∃ q, m = ANum q ∧ ("min_depth"%string, ANum q) ∈ concat [line_1; line_2] ∧
                         ∀ q', ("min_depth"%string, ANum q') ∈ concat [line_1; line_2] →
                               (q <= q')%Q
        | None => ∀ v, ("min_depth"%string, v) ∉ concat [line_1; line_2]
        end.
Proof.
  eexists. split; [reflexivity|].
  apply (min_key_holds_least [line_1; line_2] _ "min_depth"); [reflexivity| |reflexivity].
  intros v Hv. simpl in Hv.
  repeat (apply elem_of_cons in Hv as [Hv|Hv]; [by (simplify_eq; eauto)|]).
  by apply elem_of_nil in Hv.
Defined.

(** A key that starts with 'max', given as numbers: the merged dict holds
    the greatest of the numbers that the datasets give for it. *)
Theorem max_key_holds_greatest (all_attrs : list dict) (fd : gmap string attr) (k : string) :
  has_prefix 3 "max" k = true →
  (∀ v, (k, v) ∈ concat all_attrs → ∃ q, v = ANum q) →
  combine_xr_attributes all_attrs = Ok fd →
  match fd !! k with
  | Some m => ∃ q, m = ANum q ∧ (k, ANum q) ∈ concat all_attrs ∧
                   ∀ q', (k, ANum q') ∈ concat all_attrs → (q' <= q)%Q
  | None => ∀ v, (k, v) ∉ concat all_attrs
  end.
Proof.
  intros Hk Hnum Hrun. pose proof Hk as Hmax. apply has_prefix_3 in Hk as [s ->].
  apply (combine_extreme _ Qmax (λ a b, (b <= a)%Q)) with (fd := fd); try done.
  - intros a. apply Qle_refl.
  - intros a b c Hab Hbc. by eapply Qle_trans.
  - apply Qmax_cases.
  - intros st v. unfold entry.
    change (has_prefix 7 "install" _) with false.
    change (has_prefix 7 "runtime" _) with false.
    change (is_serial_key _) with false.
    change (has_prefix 7 "profile" _) with false.
    change (has_prefix 3 "min" _) with false.
    rewrite Hmax. cbn [andb]. unfold np_max2.
    destruct (finaldict st !! _) as [old|]; [|done].
    destruct v, old; done.
Qed.

Lemma max_key_holds_greatest_witness :
  ∃ fd, combine_xr_attributes [line_1; line_2] = Ok fd ∧
        match fd !! "max_depth"%string with
        | Some m => ∃ q, m = ANum q ∧ ("max_depth"%string, ANum q) ∈ concat [line_1; line_2] ∧
                         ∀ q', ("max_depth"%string, ANum q') ∈ concat [line_1; line_2] →
                               (q' <= q)%Q
        | None => ∀ v, ("max_depth"%string, v) ∉ concat [line_1; line_2]
        end.
Proof.
  eexists. split; [reflexivity|].
  apply (max_key_holds_greatest [line_1; line_2] _ "max_depth"); [reflexivity| |reflexivity].
  intros v Hv. simpl in Hv.
  repeat (apply elem_of_cons in Hv as [Hv|Hv]; [by (simplify_eq; eauto)|]).
  by apply elem_of_nil in Hv.
Defined.

(** The survey of the first line is kept, and the depths of the two lines
    are taken together. *)
Example combine_two_lines :
  ∃ fd, combine_xr_attributes [line_1; line_2] = Ok fd ∧
        fd !! "survey"%string = Some (AStr "H12345") ∧
        fd !! "min_depth"%string = Some (ANum 9) ∧
        fd !! "max_depth"%string = Some (ANum 40).
Proof. eexists. split; [reflexivity|]. repeat split; reflexivity. Qed.

End AttrsFacts.

(** ** Properties of the zarr writer *)

Section StoreFacts.
Import Store.

(** C10: when the first time of the dataset is not among the times of the
    group, my_xarr_to_zarr called with merge=True returns None, raises
    nothing and leaves the group as it was: no array is created or
    written and no attribute is stored. *)
Theorem failed_merge_validation_leaves_store xarr new_attrs outputpth dataloc append_dim
    finalsize override_chunk_size rootgroup tim t first :
  assoc "time" xarr = Some tim →
  arrays rootgroup !! "time"%string = Some t →
  first_value (da_values tim) = Ok first →
  contains t first = false →
  my_xarr_to_zarr xarr new_attrs outputpth dataloc append_dim finalsize true
                  override_chunk_size rootgroup
  = (Ok None, rootgroup).
Proof.
  intros Hx Hg Hf Hc. unfold my_xarr_to_zarr, validate_merge.
  unfold mbind, M_bind, bind, get, lift. simpl.
  rewrite Hx, Hg, Hf. simpl. rewrite Hc. reflexivity.
Qed.

Lemma failed_merge_validation_leaves_store_witness :
  my_xarr_to_zarr batch_y_at_5 None "store" (0, 1) "time" (Some 1) true None group_0_10
  = (Ok None, group_0_10).
Proof.
  apply (failed_merge_validation_leaves_store _ _ _ _ _ _ _ _
           (time_series [5%Q]) times_0_10 (VFloat (Num 5))).
  - reflexivity.
  - reflexivity.
  - reflexivity.
  - reflexivity.
Defined.

(** *** Which errors a write can raise *)

Lemma plain_result_ok {A} (x : A) : plain_result (Ok x).
Proof. intros e He. discriminate. Qed.

Lemma plain_result_raise {A} e : plain e → plain_result (@Raise A e).
Proof. intros He e' [= <-]. done. Qed.

Lemma plain_result_bind {A B} (r : result A) (f : A → result B) :
  plain_result r → (∀ a, plain_result (f a)) → plain_result (r ≫= f).
Proof.
  intros Hr Hf e He. destruct r as [a|e']; simpl in He.
  - by apply (Hf a).
  - apply Hr. congruence.
Qed.

Lemma plain_M_ret {S A} (x : A) : plain_M (S := S) (mret x).
Proof. intros s e s' He. discriminate. Qed.

Lemma plain_M_bind {S A B} (m : M S A) (f : A → M S B) :
  plain_M m → (∀ a, plain_M (f a)) → plain_M (m ≫= f).
Proof.
  intros Hm Hf s e s' He. unfold mbind, M_bind, bind in He.
  destruct (m s) as [[a|e'] s1] eqn:Em.
  - by apply (Hf a s1 e s').
  - injection He as <- <-. by apply (Hm s e' s1).
Qed.

Lemma plain_M_lift {S A} (r : result A) : plain_result r → plain_M (S := S) (lift r).
Proof. intros Hr s e s' [= -> _]. by apply Hr. Qed.

Lemma plain_M_get {S} : plain_M (@get S).
Proof. intros s e s' He. discriminate. Qed.

Lemma plain_M_put {S} (s0 : S) : plain_M (put s0).
Proof. intros s e s' He. discriminate. Qed.

Lemma plain_M_for_each {S A} (l : list A) (body : A → M S unit) :
  (∀ x, plain_M (body x)) → plain_M (for_each l body).
Proof.
  intros Hb. induction l as [|x l IH]; simpl.
  - apply (plain_M_ret (S := S) tt).
  - apply (plain_M_bind (body x)); [apply Hb | intros _; apply IH].
Qed.

Ltac plain_step :=
  first
    [ apply plain_M_ret | apply plain_M_get | apply plain_M_put
    | apply plain_result_ok | apply plain_result_raise; exact I
    | apply plain_M_bind; [|intros ?] | apply plain_result_bind; [|intros ?]
    | apply plain_M_for_each; intros ?
    | apply plain_M_lift
    | match goal with
      | |- plain_M (match ?x with _ => _ end) => destruct x
      | |- plain_result (match ?x with _ => _ end) => destruct x
      | |- plain_M (let '(_, _) := ?x in _) => destruct x
      end ].

Ltac plain := repeat plain_step; eauto with plain.

Create HintDb plain.

Lemma plain_shape0 shape : plain_result (shape0 shape).
Proof. unfold shape0. plain. Qed.

Lemma plain_g_get g var : plain_result (g_get g var).
Proof. unfold g_get. plain. Qed.

Lemma plain_ds_get xarr k : plain_result (ds_get xarr k).
Proof. unfold ds_get. plain. Qed.

Lemma plain_normalize_selection shape sel : plain_result (normalize_selection shape sel).
Proof.
  revert sel. induction shape as [|n shape IH]; intros [|s sel]; simpl; plain.
Qed.

Hint Resolve plain_shape0 plain_g_get plain_ds_get plain_normalize_selection : plain.

Lemma plain_z_setitem a sel v : plain_result (z_setitem a sel v).
Proof. unfold z_setitem. plain. Qed.

Lemma plain_z_resize a shape : plain_result (z_resize a shape).
Proof. unfold z_resize. plain. Qed.

Lemma plain_normalize_chunks shape chunks : plain_result (normalize_chunks shape chunks).
Proof. unfold normalize_chunks. plain. Qed.

Hint Resolve plain_z_setitem plain_z_resize plain_normalize_chunks : plain.

Lemma plain_z_create dt shape chunks fill : plain_result (z_create dt shape chunks fill).
Proof. unfold z_create. plain. Qed.

Lemma plain_zarr_array values chunks : plain_result (zarr_array values chunks).
Proof. unfold zarr_array. plain. Qed.

Lemma plain_np_concatenate1 a b : plain_result (np_concatenate1 a b).
Proof. unfold np_concatenate1. plain. Qed.

Hint Resolve plain_z_create plain_zarr_array plain_np_concatenate1 : plain.

Lemma plain_inflate a n nodata : plain_result (_inflate_expand_dim a n nodata).
Proof. unfold _inflate_expand_dim. plain. Qed.

Lemma plain_check_fix zw xarr : plain_result (_check_fix_rootgroup_expand_dim zw xarr).
Proof. unfold _check_fix_rootgroup_expand_dim. plain. Qed.

Lemma plain_adjust_max_beams zw shp : plain_result (_write_adjust_max_beams zw shp).
Proof. unfold _write_adjust_max_beams. plain. Qed.

Lemma plain_determine_shape zw var dims shape finalsize :
  plain_result (_write_determine_shape zw var dims shape finalsize).
Proof. unfold _write_determine_shape. plain. Qed.

Hint Resolve plain_inflate plain_check_fix plain_adjust_max_beams
  plain_determine_shape : plain.

Lemma plain_get_array var : plain_M (get_array var).
Proof. intros s e s' [= He _]. by apply (plain_g_get _ _ _ He). Qed.

Lemma plain_put_array var a : plain_M (put_array var a).
Proof. intros s e s' He. discriminate. Qed.

Lemma plain_get_array_names : plain_M get_array_names.
Proof. intros s e s' He. discriminate. Qed.

Lemma plain_write_attributes new_attrs : plain_M (write_attributes new_attrs).
Proof. intros s e s' He. unfold write_attributes in He. destruct new_attrs; discriminate. Qed.

Hint Resolve plain_get_array plain_put_array plain_get_array_names
  plain_write_attributes : plain.

Lemma plain_fix_one xarr curr var : plain_M (fix_one xarr curr var).
Proof. unfold fix_one. plain. Qed.

Hint Resolve plain_fix_one : plain.

Lemma plain_correct_rootgroup_dims xarr : plain_M (correct_rootgroup_dims xarr).
Proof. unfold correct_rootgroup_dims, fix_rootgroup_expand_dim. plain. Qed.

Lemma plain_write_existing xarr loc var shape chunksize timlength timaxis startingshp :
  plain_M (_write_existing_rootgroup xarr loc var shape chunksize timlength timaxis
                                     startingshp).
Proof. unfold _write_existing_rootgroup. plain. Qed.

Lemma plain_write_new xarr var shape chunksize startingshp :
  plain_M (_write_new_dataset_rootgroup xarr var shape chunksize startingshp).
Proof. unfold _write_new_dataset_rootgroup. plain. Qed.

Hint Resolve plain_correct_rootgroup_dims plain_write_existing plain_write_new : plain.

Lemma plain_write_one xarr dataloc finalsize merge item :
  plain_M (write_one xarr dataloc finalsize merge item).
Proof. unfold write_one. destruct item as [var [dims shape]]. plain. Qed.

Hint Resolve plain_write_one : plain.

Lemma plain_mapM {A B} (f : A → result B) (l : list A) :
  (∀ x, plain_result (f x)) → plain_result (mapM f l).
Proof. intros Hf. induction l as [|x l IH]; simpl; plain. Qed.

Lemma plain_as_float v : plain_result (as_float v).
Proof. unfold as_float. plain. Qed.

Lemma plain_np_min_arr shape data : plain_result (np_min_arr shape data).
Proof. unfold np_min_arr. plain. apply plain_mapM, plain_as_float. Qed.

Lemma plain_np_max_arr shape data : plain_result (np_max_arr shape data).
Proof. unfold np_max_arr. plain. apply plain_mapM, plain_as_float. Qed.

Lemma plain_first_value a : plain_result (first_value a).
Proof. unfold first_value. plain. Qed.

Lemma plain_last_value a : plain_result (last_value a).
Proof. unfold last_value. plain. Qed.

Hint Resolve plain_as_float plain_np_min_arr plain_np_max_arr plain_first_value
  plain_last_value : plain.

Lemma plain_check_merge zw xarr : plain_result (_check_merge zw xarr).
Proof. unfold _check_merge. plain; apply plain_mapM, plain_as_float. Qed.

(** What is left of write_to_zarr once the merge check is passed raises
    library errors only. *)
Lemma write_to_zarr_merge_check zw xarr new_attrs dataloc finalsize :
  (write_to_zarr xarr new_attrs dataloc finalsize true zw).1 = Raise unable_to_merge
  ↔ _check_merge zw xarr = Ok false.
Proof.
  unfold write_to_zarr.
  unfold mbind at 1, M_bind at 1, bind at 1. unfold get at 1.
  unfold mbind at 1, M_bind at 1, bind at 1.
  unfold mbind at 1, M_bind at 1, bind at 1. unfold lift at 1.
  destruct (_check_merge zw xarr) as [[|]|e] eqn:Hc.
  - split; [|discriminate]. intros Hr. exfalso.
    unfold mret at 1, M_ret at 1, ret at 1 in Hr. cbv iota beta in Hr.
    match type of Hr with (?body ?s).1 = _ =>
      destruct (body s) as [r s'] eqn:Hb; simpl in Hr; subst r;
      assert (plain_M body) as Hp by plain;
      exact (Hp _ _ _ Hb)
    end.
  - simpl. done.
  - simpl. split; [|discriminate]. intros [= ->].
    destruct (plain_check_merge _ _ _ Hc).
Qed.

Lemma write_to_zarr_merge_check_state zw xarr new_attrs dataloc finalsize :
  _check_merge zw xarr = Ok false →
  write_to_zarr xarr new_attrs dataloc finalsize true zw = (Raise unable_to_merge, zw).
Proof.
  intros Hc. unfold write_to_zarr, mbind, M_bind, bind, get, lift. by rewrite Hc.
Qed.

(** On a group without the append dimension a merge always fails. *)
Lemma merge_fails_without_append_dim zw xarr new_attrs dataloc finalsize :
  arrays (rootgroup zw) !! append_dim zw = None →
  write_to_zarr xarr new_attrs dataloc finalsize true zw = (Raise unable_to_merge, zw).
Proof.
  intros Hn. apply write_to_zarr_merge_check_state. unfold _check_merge. by rewrite Hn.
Qed.




(** *** Full assignment, resize and inflation of one array *)

Lemma normalize_selection_full shape :
  normalize_selection shape [] = Ok (map (λ n, (0, n)) shape).
Proof. induction shape as [|n shape IH]; simpl; [done|]. by rewrite IH. Qed.

Lemma selection_shape_full shape : selection_shape (map (λ n, (0, n)) shape) = shape.
Proof.
  unfold selection_shape. induction shape as [|n shape IH]; simpl; [done|].
  by rewrite IH, Nat.sub_0_r.
Qed.

Lemma in_selection_full shape idx :
  in_selection (map (λ n, (0, n)) shape) idx = in_bounds shape idx.
Proof.
  revert idx. induction shape as [|n shape IH]; intros [|i idx]; simpl; try done.
  by rewrite IH.
Qed.

Lemma selection_offset_full shape idx :
  in_bounds shape idx = true → selection_offset (map (λ n, (0, n)) shape) idx = idx.
Proof.
  unfold selection_offset.
  revert idx. induction shape as [|n shape IH]; intros [|i idx]; simpl; try done.
  intros [_ H]%andb_true_iff. by rewrite IH, Nat.sub_0_r.
Qed.

(** z[:] = v for an array v of the shape of z *)
Lemma z_setitem_full a v :
  nd_shape v = z_shape a →
  ∃ a', z_setitem a [] v = Ok a' ∧
        z_shape a' = z_shape a ∧ z_dtype a' = z_dtype a ∧ z_fill a' = z_fill a ∧
        z_dims a' = z_dims a ∧
        ∀ idx, in_bounds (z_shape a) idx = true → z_data a' idx = nd_data v idx.
Proof.
  intros Hs. unfold z_setitem. rewrite normalize_selection_full. simpl.
  rewrite selection_shape_full, decide_True by done.
  eexists. split; [reflexivity|]. simpl. repeat split.
  intros idx Hin. by rewrite in_selection_full, Hin, selection_offset_full.
Qed.

Lemma z_resize_spec a shp :
  length shp = length (z_shape a) →
  ∃ a', z_resize a shp = Ok a' ∧
        z_shape a' = zip_with (λ n o, default n o) (z_shape a) shp ∧
        z_dtype a' = z_dtype a ∧ z_fill a' = z_fill a ∧ z_dims a' = z_dims a ∧
        ∀ idx, z_data a' idx = if in_bounds (z_shape a) idx then z_data a idx else z_fill a.
Proof.
  intros Hl. unfold z_resize. rewrite decide_True by done.
  eexists. split; [reflexivity|]. simpl. done.
Qed.

Lemma inflate_spec a n nodata s0 s1 rest :
  nd_shape a = s0 :: s1 :: rest →
  length rest ≤ 1 →
  s1 ≤ n →
  ∃ v, _inflate_expand_dim a n nodata = Ok v ∧
       nd_shape v = s0 :: n :: rest ∧
       ∀ i j r, nd_data v (i :: j :: r) = if j <? s1 then nd_data a (i :: j :: r) else nodata.
Proof.
  intros Hs Hr Hn. unfold _inflate_expand_dim. rewrite Hs.
  rewrite decide_False by lia.
  destruct rest as [|s2 [|? ?]]; [| |simpl in Hr; lia].
  - unfold np_concatenate1. rewrite Hs. simpl.
    rewrite decide_True by done.
    eexists. split; [reflexivity|]. simpl. split; [f_equal; f_equal; lia|done].
  - unfold np_concatenate1. rewrite Hs. simpl.
    rewrite decide_True by done.
    eexists. split; [reflexivity|]. simpl. split; [f_equal; f_equal; lia|done].
Qed.

(** *** Running a computation step by step *)

Lemma run_bind {S A B} (m : M S A) (f : A → M S B) s a s1 :
  m s = (Ok a, s1) → (m ≫= f) s = f a s1.
Proof. intros Hm. unfold mbind, M_bind, bind. by rewrite Hm. Qed.

Lemma run_get {S} (s : S) : get s = (Ok s, s).
Proof. reflexivity. Qed.

Lemma run_lift {S A} (r : result A) (s : S) : lift r s = (r, s).
Proof. reflexivity. Qed.

Lemma run_get_array var a s :
  arrays (rootgroup s) !! var = Some a → get_array var s = (Ok a, s).
Proof. intros Ha. unfold get_array, g_get. by rewrite Ha. Qed.

Lemma set_rootgroup_same s v a :
  arrays (rootgroup s) !! v = Some a →
  set_rootgroup s (g_set (rootgroup s) v a) = s.
Proof.
  intros Ha. destruct s as [? ? ? ? ? [arrs ats] ?]. simpl in *.
  unfold set_rootgroup, g_set. simpl. by rewrite insert_id.
Qed.

Lemma set_rootgroup_twice s v a a' :
  set_rootgroup (set_rootgroup s (g_set (rootgroup s) v a))
                (g_set (rootgroup (set_rootgroup s (g_set (rootgroup s) v a))) v a')
  = set_rootgroup s (g_set (rootgroup s) v a').
Proof. unfold set_rootgroup, g_set. simpl. by rewrite insert_insert_eq. Qed.

(** One pass of the loop of fix_rootgroup_expand_dim. *)
Lemma fix_one_spec xarr B1 B2 xb s v a :
  assoc (expand_dim s) xarr = Some xb →
  nd_shape (da_values xb) = [B2] →
  B1 < B2 →
  arrays (rootgroup s) !! v = Some a →
  length (z_shape a) ≤ 3 →
  (v = expand_dim s → length (z_shape a) = 1) →
  ∃ a', fix_one xarr B1 v s = (Ok tt, set_rootgroup s (g_set (rootgroup s) v a')) ∧
        (v ≠ expand_dim s → ∀ s0 rest, z_shape a = s0 :: B1 :: rest →
           grown B1 B2 (_get_arr_nodatavalue s (z_dtype a)) a a').
Proof.
  intros Hxb Hsh Hlt Ha Hrank Hbeam.
  unfold fix_one, mbind, M_bind, bind, get, lift, get_array, put_array, ds_get, g_get.
  destruct (decide (v = expand_dim s)) as [Hv|Hv].
  - (* the expand dimension itself *)
    specialize (Hbeam Hv).
    destruct (z_resize_spec a [Some B2]) as (a1 & Hr & Hs1 & Hd1 & Hf1 & Hdm1 & Hdat1);
      [done|].
    destruct (z_shape a) as [|b1 [|? ?]] eqn:Esh; simpl in Hbeam; try lia.
    destruct (z_setitem_full a1 (np_arange B2)) as (a2 & Hset & _);
      [by rewrite Hs1|].
    exists a2. split; [|done].
    rewrite Hxb. simpl. rewrite Hsh. simpl. rewrite Ha, Hr. simpl.
    rewrite lookup_insert_eq, Hset. simpl.
    unfold set_rootgroup, g_set. simpl. by rewrite insert_insert_eq.
  - rewrite Ha. simpl.
    destruct (z_shape a) as [|s0 [|s1 rest]] eqn:Esh.
    + exists a. split; [|intros _ ? ? [=]]. simpl. by rewrite set_rootgroup_same.
    + exists a. split; [|intros _ ? ? [=]]. simpl. by rewrite set_rootgroup_same.
    + destruct (decide (s1 = B1)) as [->|Hs1].
      * destruct (inflate_spec (to_ndarray a) B2
                    (_get_arr_nodatavalue s (z_dtype a)) s0 B1 rest)
          as (newdat & Hinf & Hnsh & Hndat); [done|simpl in Hrank; lia|lia|].
        destruct (z_resize_spec a (Some s0 :: Some B2 :: map Some rest))
          as (a1 & Hr & Hs1 & Hd1 & Hf1 & Hdm1 & Hdat1).
        { rewrite Esh. simpl. by rewrite length_map. }
        assert (z_shape a1 = s0 :: B2 :: rest) as Hs1'.
        { rewrite Hs1, Esh. simpl. f_equal. f_equal.
          clear. induction rest as [|x rest IH]; simpl; [done|]. by rewrite IH. }
        destruct (z_setitem_full a1 newdat) as (a2 & Hset & Hs2 & Hd2 & Hf2 & Hdm2 & Hdat2);
          [by rewrite Hs1'|].
        exists a2. split.
        -- rewrite Hxb. simpl. rewrite Hsh. simpl. rewrite Hinf. simpl.
           rewrite Ha, Hr. simpl. rewrite lookup_insert_eq, Hset. simpl.
           unfold set_rootgroup, g_set. simpl. by rewrite insert_insert_eq.
        -- intros _ s0' rest' [= <- <-].
           exists s0, rest. split; [done|]. split; [by rewrite Hs2|].
           split; [by rewrite Hd2, Hd1|].
           intros i j r Hin. rewrite Hs2 in Hin.
           rewrite Hdat2 by done. rewrite Hndat. done.
      * exists a. split; [|intros _ ? ? [= _ ? _]; done].
        simpl. by rewrite set_rootgroup_same.
Qed.

(** The loop of fix_rootgroup_expand_dim over names without repeats, each
    the name of an array of three dimensions at most. *)
Lemma fix_loop_spec xarr B1 B2 xb l :
  ∀ s,
    NoDup l →
    assoc (expand_dim s) xarr = Some xb →
    nd_shape (da_values xb) = [B2] →
    B1 < B2 →
    (∀ v, v ∈ l → ∃ a, arrays (rootgroup s) !! v = Some a ∧
                       length (z_shape a) ≤ 3 ∧
                       (v = expand_dim s → length (z_shape a) = 1)) →
    ∃ s', for_each l (fix_one xarr B1) s = (Ok tt, s') ∧
          expand_dim s' = expand_dim s ∧
          (∀ dt, _get_arr_nodatavalue s' dt = _get_arr_nodatavalue s dt) ∧
          (∀ v, v ∉ l → arrays (rootgroup s') !! v = arrays (rootgroup s) !! v) ∧
          (∀ v a, v ∈ l → arrays (rootgroup s) !! v = Some a →
             ∃ a', arrays (rootgroup s') !! v = Some a' ∧
                   (v ≠ expand_dim s → ∀ s0 rest, z_shape a = s0 :: B1 :: rest →
                      grown B1 B2 (_get_arr_nodatavalue s (z_dtype a)) a a')).
Proof.
  induction l as [|v l IH]; intros s Hnd Hxb Hsh Hlt Hall.
  - exists s. split; [done|]. repeat split; try done.
    intros v a Hin. by apply elem_of_nil in Hin.
  - apply NoDup_cons in Hnd as [Hv Hnd].
    destruct (Hall v) as (a & Ha & Hrank & Hbeam); [by left|].
    destruct (fix_one_spec xarr B1 B2 xb s v a Hxb Hsh Hlt Ha Hrank Hbeam)
      as (a1 & Hstep & Hgrown).
    set (s1 := set_rootgroup s (g_set (rootgroup s) v a1)) in *.
    destruct (IH s1 Hnd Hxb Hsh Hlt) as (s' & Hloop & Hexp & Hnod & Hout & Hin).
    { intros w Hw. destruct (Hall w) as (b & Hb & Hbr & Hbb); [by right|].
      exists b. split; [|done]. simpl. rewrite lookup_insert_ne; [done|].
      intros ->. done. }
    exists s'. split.
    { simpl. unfold bind. by rewrite Hstep. }
    split; [done|]. split; [done|]. split.
    + intros w Hw. apply not_elem_of_cons in Hw as [Hwv Hwl].
      rewrite Hout by done. simpl. by rewrite lookup_insert_ne.
    + intros w b Hw Hb. apply elem_of_cons in Hw as [->|Hw].
      * rewrite Hout by done. simpl. rewrite lookup_insert_eq.
        exists a1. split; [done|]. rewrite Ha in Hb. injection Hb as <-. done.
      * assert (w ≠ v) as Hwv by (intros ->; done).
        destruct (Hin w b Hw) as (b' & Hb' & Hg).
        { simpl. by rewrite lookup_insert_ne. }
        exists b'. split; [done|]. done.
Qed.

Lemma insert_sorted_perm x l : insert_sorted x l ≡ₚ x :: l.
Proof.
  induction l as [|y l IH]; simpl; [done|].
  destruct (String.leb x y); [done|]. rewrite IH. apply Permutation_swap.
Qed.

Lemma sorted_perm l : sorted l ≡ₚ l.
Proof.
  unfold sorted. induction l as [|x l IH]; simpl; [done|].
  by rewrite insert_sorted_perm, IH.
Qed.

Lemma array_keys_NoDup g : NoDup (array_keys g).
Proof.
  unfold array_keys. rewrite sorted_perm. apply NoDup_fst_map_to_list.
Qed.

Lemma elem_of_array_keys g v : v ∈ array_keys g ↔ is_Some (arrays g !! v).
Proof.
  unfold array_keys. rewrite sorted_perm.
  rewrite list_elem_of_fmap. split.
  - intros ([k a] & -> & Hin). apply elem_of_map_to_list in Hin. simpl. eauto.
  - intros [a Ha]. exists (v, a). split; [done|]. by apply elem_of_map_to_list.
Qed.



(** A whole write that grows the group: two pings of two beams are in the
    group, one ping of three beams is appended as the first task.  The
    third column of the two old pings reads NaN, their other columns and
    the new ping read as written. *)
Example write_with_more_beams :
  let g := (_distrib_zarr_write_convenience
              {[ "time"%string := [1]; "x"%string := [1; 3] ]}
              batch_three_beams None (2, 3) (Some 3) false group_two_beams) in
  g.1 = Ok tt ∧
  shape_of g.2 "x" = Some [3; 3] ∧
  shape_of g.2 "beam" = Some [3] ∧
  read g.2 "x" [0; 2] = Some (VFloat NaN) ∧
  read g.2 "x" [1; 2] = Some (VFloat NaN) ∧
  read g.2 "x" [1; 1] = Some (VFloat (Num 4)) ∧
  read g.2 "x" [2; 2] = Some (VFloat (Num 7)) ∧
  read g.2 "time" [2] = Some (VFloat (Num 2)).
Proof. vm_compute. repeat split; reflexivity. Qed.

(** *** What a write leaves alone *)

Lemma keeps_refl s : keeps s s.
Proof. by repeat split. Qed.

Lemma keeps_trans s1 s2 s3 : keeps s1 s2 → keeps s2 s3 → keeps s1 s3.
Proof.
  intros (Hn1 & Ha1 & He1 & Hc1 & Hk1) (Hn2 & Ha2 & He2 & Hc2 & Hk2).
  repeat split; try congruence. intros v Hv. by apply Hk2, Hk1.
Qed.

Lemma frame_refl var s : frame var s s.
Proof. split; [apply keeps_refl|done]. Qed.

Lemma frame_trans var s1 s2 s3 : frame var s1 s2 → frame var s2 s3 → frame var s1 s3.
Proof.
  intros [Hk1 Hf1] [Hk2 Hf2]. split; [by eapply keeps_trans|].
  intros k Hk. by rewrite Hf2, Hf1.
Qed.

Section preserves.
Context (R : ZarrWrite → ZarrWrite → Prop).
Context (R_refl : ∀ s, R s s).
Context (R_trans : ∀ s1 s2 s3, R s1 s2 → R s2 s3 → R s1 s3).

Lemma preserves_ret {A} (x : A) : preserves R (mret x).
Proof using R_refl. intros s r s' [= _ <-]. apply R_refl. Qed.

Lemma preserves_get : preserves R get.
Proof using R_refl. intros s r s' [= _ <-]. apply R_refl. Qed.

Lemma preserves_lift {A} (x : result A) : preserves R (lift x).
Proof using R_refl. intros s r s' [= _ <-]. apply R_refl. Qed.

Lemma preserves_get_array var : preserves R (get_array var).
Proof using R_refl. intros s r s' [= _ <-]. apply R_refl. Qed.

Lemma preserves_bind {A B} (m : M ZarrWrite A) (f : A → M ZarrWrite B) :
  preserves R m → (∀ a, preserves R (f a)) → preserves R (m ≫= f).
Proof using R_trans.
  intros Hm Hf s r s' Hrun. unfold mbind, M_bind, bind in Hrun.
  destruct (m s) as [[a|e] s1] eqn:Em.
  - eapply R_trans; [by eapply Hm | by eapply Hf].
  - injection Hrun as _ <-. by eapply Hm.
Qed.

Lemma preserves_for_each {A} (l : list A) (body : A → M ZarrWrite unit) :
  (∀ x, preserves R (body x)) → preserves R (for_each l body).
Proof using R_refl R_trans.
  intros Hb. induction l as [|x l IH]; simpl.
  - apply (preserves_ret tt).
  - apply (preserves_bind (body x)); [apply Hb | intros _; apply IH].
Qed.
End preserves.

Lemma keeps_put_array var a : preserves keeps (put_array var a).
Proof.
  intros s r s' [= _ <-]. repeat split; try done.
  intros v Hv. simpl. destruct (decide (var = v)) as [->|Hne].
  - rewrite lookup_insert_eq. eauto.
  - by rewrite lookup_insert_ne.
Qed.

Lemma frame_put_array var a : preserves (frame var) (put_array var a).
Proof.
  intros s r s' Hrun. split; [by eapply keeps_put_array|].
  injection Hrun as _ <-. intros k Hk. simpl. by rewrite lookup_insert_ne.
Qed.

Ltac preserves_step R_refl R_trans :=
  first
    [ apply (preserves_ret _ R_refl) | apply (preserves_get _ R_refl)
    | apply (preserves_lift _ R_refl) | apply (preserves_get_array _ R_refl)
    | apply keeps_put_array | apply frame_put_array
    | apply (preserves_bind _ R_trans); [|intros ?]
    | apply (preserves_for_each _ R_refl R_trans); intros ?
    | match goal with
      | |- preserves _ (match ?x with _ => _ end) => destruct x
      | |- preserves _ (let '(_, _) := ?x in _) => destruct x
      end ].

Lemma keeps_fix_one xarr curr var : preserves keeps (fix_one xarr curr var).
Proof. unfold fix_one. repeat preserves_step keeps_refl keeps_trans. Qed.

Lemma keeps_correct_rootgroup_dims xarr : preserves keeps (correct_rootgroup_dims xarr).
Proof.
  unfold correct_rootgroup_dims, fix_rootgroup_expand_dim.
  repeat (apply keeps_fix_one || preserves_step keeps_refl keeps_trans).
Qed.

Lemma frame_write_existing xarr loc var shape chunksize timlength timaxis startingshp :
  preserves (frame var)
    (_write_existing_rootgroup xarr loc var shape chunksize timlength timaxis startingshp).
Proof.
  unfold _write_existing_rootgroup.
  repeat preserves_step (frame_refl var) (frame_trans var).
Qed.

Lemma frame_write_new xarr var shape chunksize startingshp :
  preserves (frame var) (_write_new_dataset_rootgroup xarr var shape chunksize startingshp).
Proof.
  unfold _write_new_dataset_rootgroup.
  repeat preserves_step (frame_refl var) (frame_trans var).
Qed.

Lemma frame_write_one xarr dataloc finalsize merge item :
  preserves (frame (fst item)) (write_one xarr dataloc finalsize merge item).
Proof.
  unfold write_one. destruct item as [var [dims shape]]. simpl.
  repeat (apply frame_write_existing || apply frame_write_new
          || preserves_step (frame_refl var) (frame_trans var)).
Qed.

(** *** The resize of the first task *)

Lemma bind_Ok_inv {S A B} (m : M S A) (f : A → M S B) s b s' :
  (m ≫= f) s = (Ok b, s') → ∃ a s1, m s = (Ok a, s1) ∧ f a s1 = (Ok b, s').
Proof.
  unfold mbind, M_bind, bind. destruct (m s) as [[a|e] s1]; [eauto|discriminate].
Qed.

Lemma lift_Ok_inv {S A} (r : result A) (s s' : S) a :
  lift r s = (Ok a, s') → r = Ok a ∧ s' = s.
Proof. by intros [= -> ->]. Qed.

Lemma get_array_Ok_inv var s a s' :
  get_array var s = (Ok a, s') → arrays (rootgroup s) !! var = Some a ∧ s' = s.
Proof.
  unfold get_array, g_get. destruct (arrays (rootgroup s) !! var); by intros [= <- <-].
Qed.

Lemma z_resize_shape a shp a' :
  z_resize a shp = Ok a' → z_shape a' = zip_with (λ n o, default n o) (z_shape a) shp.
Proof. unfold z_resize. destruct (decide _); [|discriminate]. by intros [= <-]. Qed.

Lemma z_resize_length a shp a' :
  z_resize a shp = Ok a' → length shp = length (z_shape a).
Proof. unfold z_resize. by destruct (decide _). Qed.

Lemma z_resize_first a shp a' n :
  z_resize a shp = Ok a' → shp !! 0 = Some (Some n) → z_shape a' !! 0 = Some n.
Proof.
  intros Hr Hs. rewrite (z_resize_shape _ _ _ Hr). apply z_resize_length in Hr.
  destruct shp as [|o shp]; [done|]. destruct (z_shape a) as [|m sh]; [done|].
  simpl in *. by injection Hs as ->.
Qed.

Lemma z_setitem_shape a sel v a' : z_setitem a sel v = Ok a' → z_shape a' = z_shape a.
Proof.
  unfold z_setitem. destruct (normalize_selection _ _); [|discriminate]. simpl.
  destruct (decide _); [|discriminate]. by intros [= <-].
Qed.

Lemma adjust_max_beams_first zw shp shp' o :
  _write_adjust_max_beams zw shp = Ok shp' → shp !! 0 = Some o → shp' !! 0 = Some o.
Proof.
  unfold _write_adjust_max_beams. destruct (decide _); [|by intros [= <-]].
  destruct (g_get _ _); [|discriminate]. simpl.
  destruct (shape0 _); [|discriminate]. simpl. intros [= <-] Hs.
  by rewrite list_lookup_insert_ne.
Qed.

(** The resize of _write_existing_rootgroup leaves the array with the
    length asked for along its first dimension. *)
Lemma write_existing_resizes xarr loc var shape chunksize timlength timaxis shp n s s' :
  _write_existing_rootgroup xarr loc var shape chunksize timlength timaxis (Some shp) s
  = (Ok tt, s') →
  var ≠ "tx"%string →
  shp !! 0 = Some (Some n) →
  ∃ a', arrays (rootgroup s') !! var = Some a' ∧ z_shape a' !! 0 = Some n.
Proof.
  intros Hrun Htx Hshp. unfold _write_existing_rootgroup in Hrun.
  apply bind_Ok_inv in Hrun as (da & s1 & [_ ->]%lift_Ok_inv & Hrun).
  apply bind_Ok_inv in Hrun as (newarr & s1 & [_ ->]%lift_Ok_inv & Hrun).
  apply bind_Ok_inv in Hrun as (loc' & s1 & [_ ->]%lift_Ok_inv & Hrun).
  apply bind_Ok_inv in Hrun as ([] & s1 & Hresize & Hrun).
  rewrite decide_True in Hresize by done.
  apply bind_Ok_inv in Hresize as (zw & s2 & [= <- <-] & Hresize).
  apply bind_Ok_inv in Hresize as (shp' & s2 & [Hadj ->]%lift_Ok_inv & Hresize).
  apply bind_Ok_inv in Hresize as (a & s2 & [Ha ->]%get_array_Ok_inv & Hresize).
  apply bind_Ok_inv in Hresize as (a1 & s2 & [Hres ->]%lift_Ok_inv & Hresize).
  injection Hresize as <-.
  apply bind_Ok_inv in Hrun as (a1' & s2 & [Ha1 ->]%get_array_Ok_inv & Hrun).
  simpl in Ha1. rewrite lookup_insert_eq in Ha1. injection Ha1 as <-.
  apply bind_Ok_inv in Hrun as (a2 & s2 & [Hset ->]%lift_Ok_inv & Hrun).
  injection Hrun as <-. simpl. rewrite lookup_insert_eq.
  exists a2. split; [done|].
  rewrite (z_setitem_shape _ _ _ _ Hset).
  eapply z_resize_first; [done|]. by eapply adjust_max_beams_first.
Qed.

(** The shape asked for has the final size at its first place when the
    append dimension is the first dimension of the variable. *)
Lemma determine_shape_first zw var dims shape n timaxis timlength shp :
  _write_determine_shape zw var dims shape (Some n) = Ok (timaxis, timlength, shp) →
  var ∉ ["beam"; "xyz"]%string →
  index_of (append_dim zw) dims = Some 0 →
  shp !! 0 = Some (Some n).
Proof.
  intros Hd Hv Hi. unfold _write_determine_shape in Hd.
  rewrite bool_decide_eq_false_2 in Hd by done. rewrite Hi in Hd.
  destruct shape as [|x shape]; [discriminate|]. simpl in Hd.
  injection Hd as _ _ <-. simpl.
  destruct (decide (x = x)) as [_|Hx]; [|done]. by rewrite decide_True.
Qed.

(** One pass of the loop of write_to_zarr, for a variable that the group
    has already. *)
Lemma write_one_resizes xarr dataloc n var dims shape s s' :
  write_one xarr dataloc (Some n) false (var, (dims, shape)) s = (Ok tt, s') →
  var ∈ zarr_array_names s →
  var ∉ ["tx"; "beam"; "xyz"]%string →
  index_of (append_dim s) dims = Some 0 →
  ∃ a', arrays (rootgroup s') !! var = Some a' ∧ z_shape a' !! 0 = Some n.
Proof.
  intros Hrun Hin Hv Hi. unfold write_one in Hrun.
  assert (var ∉ ["beam"; "xyz"]%string) as Hv'.
  { intros H. apply Hv. by right. }
  assert (var ≠ "tx"%string) as Htx.
  { intros ->. apply Hv. by left. }
  apply bind_Ok_inv in Hrun as (zw & s1 & [= <- <-] & Hrun).
  rewrite (bool_decide_eq_false_2 _ Hv'), (bool_decide_eq_true_2 _ Hin) in Hrun.
  simpl in Hrun.
  apply bind_Ok_inv in Hrun as ([[timaxis timlength] shp] & s1 & [Hd ->]%lift_Ok_inv & Hrun).
  apply bind_Ok_inv in Hrun as (chunksize & s1 & [_ ->]%lift_Ok_inv & Hrun).
  apply bind_Ok_inv in Hrun as ([] & s1 & Hwrite & Hrun).
  destruct (write_existing_resizes _ _ _ _ _ _ _ _ n _ _ Hwrite Htx) as (a1 & Ha1 & Hs1).
  { by eapply determine_shape_first. }
  apply bind_Ok_inv in Hrun as (a1' & s2 & [Ha1' ->]%get_array_Ok_inv & Hrun).
  rewrite Ha1 in Ha1'. injection Ha1' as <-.
  injection Hrun as <-. simpl. rewrite lookup_insert_eq. by exists (set_dims a1 dims).
Qed.

(** The loop of write_to_zarr leaves alone the arrays of the names that
    are not among its variables. *)
Lemma write_loop_frame xarr dataloc finalsize merge items var :
  var ∉ items.*1 →
  preserves (λ t t', arrays (rootgroup t') !! var = arrays (rootgroup t) !! var)
            (for_each items (write_one xarr dataloc finalsize merge)).
Proof.
  induction items as [|item items IH]; intros Hvar.
  - by intros t r t' [= _ <-].
  - intros t r t' Hrun. simpl in Hrun. unfold bind in Hrun.
    simpl in Hvar. apply not_elem_of_cons in Hvar as [Hne Hvar].
    destruct (write_one _ _ _ _ item t) as [[[]|e] t1] eqn:Hone.
    + rewrite (IH Hvar _ _ _ Hrun).
      by apply (frame_write_one _ _ _ _ _ _ _ _ Hone).
    + injection Hrun as _ <-.
      by apply (frame_write_one _ _ _ _ _ _ _ _ Hone).
Qed.

(** The loop of write_to_zarr over variables without repeats: the arrays
    of the variables that the group had already end with the final size
    along their first dimension. *)
Lemma write_loop_resizes xarr dataloc n items :
  ∀ s s',
    NoDup items.*1 →
    for_each items (write_one xarr dataloc (Some n) false) s = (Ok tt, s') →
    ∀ var dims shape,
      (var, (dims, shape)) ∈ items →
      var ∈ zarr_array_names s →
      var ∉ ["tx"; "beam"; "xyz"]%string →
      index_of (append_dim s) dims = Some 0 →
      ∃ a', arrays (rootgroup s') !! var = Some a' ∧ z_shape a' !! 0 = Some n.
Proof.
  induction items as [|item items IH]; intros s s' Hnd Hrun var dims shape Hin Hnm Hv Hi.
  - by apply elem_of_nil in Hin.
  - simpl in Hnd. apply NoDup_cons in Hnd as [Hhd Hnd].
    simpl in Hrun. change (bind ?m ?f) with (m ≫= f) in Hrun.
    apply bind_Ok_inv in Hrun as ([] & s1 & Hone & Hrest).
    apply elem_of_cons in Hin as [<-|Hin].
    + destruct (write_one_resizes _ _ _ _ _ _ _ _ Hone Hnm Hv Hi) as (a1 & Ha1 & Hs1).
      exists a1. split; [|done]. rewrite <- Ha1.
      by eapply (write_loop_frame _ _ _ _ items var Hhd).
    + destruct (frame_write_one _ _ _ _ _ _ _ _ Hone) as [(Hn & Ha & _) _].
      eapply (IH s1 s' Hnd Hrest var dims shape Hin).
      * by rewrite Hn.
      * done.
      * by rewrite Ha.
Qed.

Lemma same_length_refl v s : same_length v s s.
Proof. split; [done|]. intros _ a Ha. by exists a. Qed.

Lemma same_length_trans v s1 s2 s3 :
  same_length v s1 s2 → same_length v s2 s3 → same_length v s1 s3.
Proof.
  intros [He1 H1] [He2 H2]. split; [congruence|].
  intros Hv a Ha. destruct (H1 Hv a Ha) as (a1 & Ha1 & Hs1).
  destruct (H2 ltac:(congruence) a1 Ha1) as (a2 & Ha2 & Hs2).
  exists a2. split; [done|congruence].
Qed.

Lemma frame_same_length w v s s' : w ≠ v → frame w s s' → same_length v s s'.
Proof.
  intros Hne [(_ & _ & He & _) Hf]. split; [done|].
  intros _ a Ha. exists a. split; [|done]. by rewrite Hf.
Qed.

Lemma frame_fix_one xarr curr var : preserves (frame var) (fix_one xarr curr var).
Proof. unfold fix_one. repeat preserves_step (frame_refl var) (frame_trans var). Qed.

(** The loop of fix_rootgroup_expand_dim changes no length along the first
    dimension, the expand dimension apart. *)
Lemma same_length_fix_one xarr curr w v : preserves (same_length v) (fix_one xarr curr w).
Proof.
  intros s r s' Hrun. destruct (decide (w = v)) as [->|Hne].
  2: { eapply frame_same_length; [done|]. by eapply frame_fix_one. }
  split; [by destruct (keeps_fix_one _ _ _ _ _ _ Hrun) as (_ & _ & He & _)|].
  intros Hv a Ha. revert Hrun.
  unfold fix_one, mbind, M_bind, bind, get, lift, get_array, put_array, g_get.
  rewrite decide_False by done. rewrite Ha. simpl.
  destruct (z_shape a) as [|s0 [|s1 rest]] eqn:Esh;
    try (intros [= _ <-]; exists a; by rewrite Esh).
  destruct (decide (s1 = curr)) as [_|_];
    [|intros [= _ <-]; exists a; by rewrite Esh].
  destruct (ds_get xarr (expand_dim s)) as [xb|e];
    [|intros [= _ <-]; exists a; by rewrite Esh].
  simpl. destruct (shape0 _) as [n|e];
    [|intros [= _ <-]; exists a; by rewrite Esh].
  simpl. destruct (_inflate_expand_dim _ _ _) as [newdat|e];
    [|intros [= _ <-]; exists a; by rewrite Esh].
  simpl. rewrite Ha.
  destruct (z_resize a _) as [a1|e] eqn:Hres;
    [|intros [= _ <-]; exists a; by rewrite Esh].
  simpl. rewrite lookup_insert_eq.
  assert (z_shape a1 !! 0 = Some s0) as Hs1 by (by eapply z_resize_first).
  destruct (z_setitem a1 [] newdat) as [a2|e] eqn:Hset.
  - intros [= _ <-]. simpl. rewrite lookup_insert_eq. exists a2. split; [done|].
    by rewrite (z_setitem_shape _ _ _ _ Hset).
  - intros [= _ <-]. simpl. rewrite lookup_insert_eq. by exists a1.
Qed.

Lemma same_length_correct_rootgroup_dims xarr v :
  preserves (same_length v) (correct_rootgroup_dims xarr).
Proof.
  unfold correct_rootgroup_dims, fix_rootgroup_expand_dim.
  repeat (apply same_length_fix_one
          || preserves_step (same_length_refl v) (same_length_trans v)).
Qed.

(** The variables of the loop of write_to_zarr are variables of the
    dataset, in its order. *)
Lemma build_arraydimensions_sublist xarr :
  (_my_xarr_to_zarr_build_arraydimensions xarr).*1 `sublist_of` xarr.*1.
Proof.
  unfold _my_xarr_to_zarr_build_arraydimensions.
  induction xarr as [|[k da] xarr IH]; simpl; [done|].
  destruct (da_dims da), (nd_shape (da_values da)); simpl;
    (by apply sublist_skip) || (by apply sublist_cons).
Qed.

Lemma elem_of_build_arraydimensions xarr var da :
  (var, da) ∈ xarr →
  da_dims da ≠ [] →
  nd_shape (da_values da) ≠ [] →
  (var, (da_dims da, nd_shape (da_values da))) ∈ _my_xarr_to_zarr_build_arraydimensions xarr.
Proof.
  intros Hin Hd Hs. unfold _my_xarr_to_zarr_build_arraydimensions.
  apply list_elem_of_omap. exists (var, da). split; [done|].
  by destruct (da_dims da), (nd_shape (da_values da)).
Qed.

(** C3, as the code has it: when the first task of a non-merge write, the
    one that carries the final size, completes, the arrays that the group
    had before and that the batch names (tx, beam and xyz apart) have the
    final size along the append dimension, their first; the arrays that
    the batch does not name are as long along their first dimension as
    they were. *)
Theorem final_size_resizes_batch_arrays chunk_shape xarr new_attrs dataloc n g g' :
  NoDup xarr.*1 →
  _distrib_zarr_write_convenience chunk_shape xarr new_attrs dataloc (Some n) false g
  = (Ok tt, g') →
  (∀ var da a,
     (var, da) ∈ xarr →
     arrays g !! var = Some a →
     var ∉ ["tx"; "beam"; "xyz"]%string →
     index_of "time"%string (da_dims da) = Some 0 →
     nd_shape (da_values da) ≠ [] →
     ∃ a', arrays g' !! var = Some a' ∧ z_shape a' !! 0 = Some n) ∧
  (∀ var a,
     var ∉ xarr.*1 →
     var ≠ "beam"%string →
     arrays g !! var = Some a →
     ∃ a', arrays g' !! var = Some a' ∧ z_shape a' !! 0 = z_shape a !! 0).
Proof.
  intros Hnd Hrun. unfold _distrib_zarr_write_convenience in Hrun.
  destruct (write_to_zarr _ _ _ _ _ _) as [r zw] eqn:Hw.
  injection Hrun as -> <-. unfold write_to_zarr in Hw.
  apply bind_Ok_inv in Hw as (zw0 & s0 & [= <- <-] & Hw).
  apply bind_Ok_inv in Hw as ([] & s0 & [= <-] & Hw).
  apply bind_Ok_inv in Hw as ([] & s1 & Hfix & Hw).
  apply bind_Ok_inv in Hw as ([] & s2 & [= <-] & Hw).
  apply bind_Ok_inv in Hw as ([] & s3 & Hattrs & Hloop).
  assert (arrays (rootgroup s3) = arrays (rootgroup s1) ∧
          zarr_array_names s3 = array_keys (rootgroup s1) ∧
          append_dim s3 = append_dim s1) as (Harr & Hnames & Happ).
  { unfold write_attributes in Hattrs. by destruct new_attrs; injection Hattrs as <-. }
  destruct (keeps_correct_rootgroup_dims _ _ _ _ Hfix) as (_ & Happ1 & _ & _ & Hkeep).
  simpl in Happ1.
  assert (NoDup (_my_xarr_to_zarr_build_arraydimensions xarr).*1) as Hnd'.
  { eapply sublist_NoDup; [done|apply build_arraydimensions_sublist]. }
  split.
  - intros var da a Hin Ha Hv Hi Hs.
    eapply (write_loop_resizes _ _ _ _ _ _ Hnd' Hloop var (da_dims da)).
    + apply elem_of_build_arraydimensions; [done| |done].
      intros Hd. by rewrite Hd in Hi.
    + rewrite Hnames. apply elem_of_array_keys, Hkeep. simpl. eauto.
    + done.
    + by rewrite Happ, Happ1.
  - intros var a Hvar Hbeam Ha.
    destruct (same_length_correct_rootgroup_dims xarr var _ _ _ Hfix) as [_ Hlen].
    destruct (Hlen Hbeam a Ha) as (a1 & Ha1 & Hs1).
    exists a1. split; [|done].
    assert (var ∉ (_my_xarr_to_zarr_build_arraydimensions xarr).*1) as Hout.
    { intros Hin. apply Hvar.
      eapply elem_of_sublist; [done|apply build_arraydimensions_sublist]. }
    rewrite (write_loop_frame _ _ _ _ _ var Hout _ _ _ Hloop). by rewrite Harr.
Qed.

Lemma final_size_resizes_batch_arrays_witness :
  let g' := (_distrib_zarr_write_convenience {[ "time"%string := [1] ]}
               [("time"%string, time_series [2%Q])] None (2, 3) (Some 3) false
               group_time_x).2 in
  (∀ var da a,
     (var, da) ∈ [("time"%string, time_series [2%Q])] →
     arrays group_time_x !! var = Some a →
     var ∉ ["tx"; "beam"; "xyz"]%string →
     index_of "time"%string (da_dims da) = Some 0 →
     nd_shape (da_values da) ≠ [] →
     ∃ a', arrays g' !! var = Some a' ∧ z_shape a' !! 0 = Some 3) ∧
  (∀ var a,
     var ∉ [("time"%string, time_series [2%Q])].*1 →
     var ≠ "beam"%string →
     arrays group_time_x !! var = Some a →
     ∃ a', arrays g' !! var = Some a' ∧ z_shape a' !! 0 = z_shape a !! 0).
Proof.
  apply (final_size_resizes_batch_arrays {[ "time"%string := [1] ]}
           [("time"%string, time_series [2%Q])] None (2, 3) 3 group_time_x).
  - apply NoDup_singleton.
  - vm_compute. reflexivity.
Defined.

(** C3 as stated fails: the group holds time and x, two samples each, and
    the first task writes a batch that names time alone with the final
    size 3.  The write succeeds, time is three long, and x, which was there
    before, is still two long. *)
Lemma final_size_skips_arrays_outside_batch :
  let g := _distrib_zarr_write_convenience {[ "time"%string := [1] ]}
             [("time"%string, time_series [2%Q])] None (2, 3) (Some 3) false
             group_time_x in
  g.1 = Ok tt ∧
  shape_of group_time_x "x" = Some [2] ∧
  shape_of g.2 "time" = Some [3] ∧
  shape_of g.2 "x" = Some [2].
Proof. vm_compute. repeat split; reflexivity. Qed.

(** *** The arrays a write does not touch *)

Lemma untouched_refl v s : untouched v s s.
Proof. done. Qed.

Lemma untouched_trans v s1 s2 s3 : untouched v s1 s2 → untouched v s2 s3 → untouched v s1 s3.
Proof. unfold untouched. congruence. Qed.

Lemma untouched_raise {A} v e : preserves (untouched v) (raise (A := A) e).
Proof. by intros s r s' [= _ <-]. Qed.

Lemma untouched_get_array_names v : preserves (untouched v) get_array_names.
Proof. by intros s r s' [= _ <-]. Qed.

Lemma untouched_write_attributes v new_attrs : preserves (untouched v) (write_attributes new_attrs).
Proof.
  intros s r s' Hrun. unfold write_attributes in Hrun.
  by destruct new_attrs; injection Hrun as _ <-.
Qed.

Lemma untouched_frame w v m : w ≠ v → preserves (A := unit) (frame w) m → preserves (untouched v) m.
Proof. intros Hne Hm s r s' Hrun. destruct (Hm s r s' Hrun) as [_ Hf]. by apply Hf. Qed.

(** The loop of a computation over a list, when the computation keeps the
    relation for the elements of the list. *)
Lemma preserves_for_each_in {A} (R : ZarrWrite → ZarrWrite → Prop)
    (l : list A) (body : A → M ZarrWrite unit) :
  (∀ s, R s s) → (∀ s1 s2 s3, R s1 s2 → R s2 s3 → R s1 s3) →
  (∀ x, x ∈ l → preserves R (body x)) → preserves R (for_each l body).
Proof.
  intros Hrefl Htrans. induction l as [|x l IH]; intros Hb; simpl.
  - apply (preserves_ret _ Hrefl tt).
  - apply (preserves_bind _ Htrans (body x)).
    + apply Hb. by left.
    + intros _. apply IH. intros y Hy. apply Hb. by right.
Qed.

Lemma untouched_merge_check v (merge : bool) zw xarr :
  preserves (untouched v)
    (if merge then
       ok ← lift (_check_merge zw xarr);
       if (ok : bool) then mret tt else raise unable_to_merge
     else mret tt).
Proof.
  destruct merge; [|apply (preserves_ret _ (untouched_refl v) tt)].
  apply (preserves_bind _ (untouched_trans v)).
  - apply (preserves_lift _ (untouched_refl v)).
  - intros [|]; [apply (preserves_ret _ (untouched_refl v) tt)|apply untouched_raise].
Qed.

(** A write without a final size leaves every array that the batch does not
    name as it was, whether the write is a merge or not and whether it
    completes or raises. *)
Theorem write_leaves_unnamed_arrays chunk_shape xarr new_attrs dataloc merge g var :
  var ∉ xarr.*1 →
  arrays (_distrib_zarr_write_convenience chunk_shape xarr new_attrs dataloc None merge g).2
    !! var
  = arrays g !! var.
Proof.
  intros Hvar. unfold _distrib_zarr_write_convenience.
  destruct (write_to_zarr _ _ _ _ _ _) as [r zw] eqn:Hw. simpl.
  assert (preserves (untouched var) (write_to_zarr xarr new_attrs dataloc None merge)) as Hp;
    [|exact (Hp _ _ _ Hw)].
  unfold write_to_zarr.
  apply (preserves_bind _ (untouched_trans var)); [apply (preserves_get _ (untouched_refl var))|].
  intros zw0.
  apply (preserves_bind _ (untouched_trans var)); [apply untouched_merge_check|]. intros _.
  apply (preserves_bind _ (untouched_trans var));
    [apply (preserves_ret _ (untouched_refl var) tt)|]. intros _.
  apply (preserves_bind _ (untouched_trans var)); [apply untouched_get_array_names|]. intros _.
  apply (preserves_bind _ (untouched_trans var)); [apply untouched_write_attributes|]. intros _.
  apply write_loop_frame. intros Hin. apply Hvar.
  eapply elem_of_sublist; [done|apply build_arraydimensions_sublist].
Qed.

Lemma write_leaves_unnamed_arrays_witness :
  arrays (_distrib_zarr_write_convenience {[ "time"%string := [1] ]}
            [("time"%string, time_series [2%Q])] None (2, 3) None false group_time_x).2
    !! "x"%string
  = arrays group_time_x !! "x"%string.
Proof.
  apply (write_leaves_unnamed_arrays {[ "time"%string := [1] ]}
           [("time"%string, time_series [2%Q])] None (2, 3) false group_time_x "x").
  simpl. intros Hin. apply list_elem_of_singleton in Hin. discriminate.
Defined.

Lemma merge_fails_without_append_dim_witness :
  write_to_zarr batch_y_at_5 None (0, 1) None true
                (open {[ "y"%string := [1] ]} {| arrays := ∅; attrs := ∅ |})
  = (Raise unable_to_merge, open {[ "y"%string := [1] ]} {| arrays := ∅; attrs := ∅ |}).
Proof.
  apply (merge_fails_without_append_dim
           (open {[ "y"%string := [1] ]} {| arrays := ∅; attrs := ∅ |})
           batch_y_at_5 None (0, 1) None).
  reflexivity.
Defined.

(** *** A merge leaves the time array alone *)

(** One pass of the loop of fix_rootgroup_expand_dim leaves an array of one
    dimension alone, the array of the expand dimension apart. *)
Lemma untouched_fix_one xarr curr w v s r s' a :
  fix_one xarr curr w s = (r, s') →
  v ≠ expand_dim s →
  arrays (rootgroup s) !! v = Some a →
  length (z_shape a) ≤ 1 →
  untouched v s s' ∧ expand_dim s' = expand_dim s.
Proof.
  intros Hrun Hv Ha Hrank.
  split; [|by destruct (keeps_fix_one _ _ _ _ _ _ Hrun) as (_ & _ & He & _)].
  destruct (decide (w = v)) as [->|Hne].
  2: { destruct (frame_fix_one _ _ _ _ _ _ Hrun) as [_ Hf]. by apply Hf. }
  revert Hrun.
  unfold fix_one, mbind, M_bind, bind, get, lift, get_array, put_array, g_get.
  rewrite decide_False by done. rewrite Ha. simpl.
  destruct (z_shape a) as [|s0 [|s1 rest]]; simpl in Hrank; try lia.
  - by intros [= _ <-].
  - by intros [= _ <-].
Qed.

Lemma untouched_fix_loop xarr curr v a l :
  ∀ s r s',
    for_each l (fix_one xarr curr) s = (r, s') →
    v ≠ expand_dim s →
    arrays (rootgroup s) !! v = Some a →
    length (z_shape a) ≤ 1 →
    untouched v s s'.
Proof.
  induction l as [|w l IH]; intros s r s' Hrun Hv Ha Hrank.
  - by injection Hrun as _ <-.
  - simpl in Hrun. unfold bind in Hrun.
    destruct (fix_one xarr curr w s) as [[[]|e] s1] eqn:Hone.
    + destruct (untouched_fix_one _ _ _ _ _ _ _ _ Hone Hv Ha Hrank) as [Hu He].
      eapply untouched_trans; [exact Hu|].
      eapply IH; [done|by rewrite He|by rewrite Hu|done].
    + injection Hrun as _ <-.
      by destruct (untouched_fix_one _ _ _ _ _ _ _ _ Hone Hv Ha Hrank).
Qed.

(** A merge never changes the time array of the group, with or without a
    final size, whether it completes or raises: the growth of the beam
    dimension passes over an array of one dimension, and the loop over the
    variables skips time. *)
Theorem merge_keeps_time_array chunk_shape xarr new_attrs dataloc finalsize g t :
  arrays g !! "time"%string = Some t →
  length (z_shape t) ≤ 1 →
  arrays (_distrib_zarr_write_convenience chunk_shape xarr new_attrs dataloc finalsize true g).2
    !! "time"%string
  = Some t.
Proof.
  intros Ht Hrank. rewrite <- Ht. unfold _distrib_zarr_write_convenience.
  destruct (write_to_zarr _ _ _ _ _ _) as [r zw] eqn:Hw. simpl.
  change (untouched "time" (open chunk_shape g) zw).
  revert Hw. unfold write_to_zarr.
  unfold mbind at 1, M_bind at 1, bind at 1, get at 1.
  unfold mbind at 1, M_bind at 1, bind at 1.
  destruct ((ok ← lift (_check_merge (open chunk_shape g) xarr);
             if (ok : bool) then mret tt else raise unable_to_merge) (open chunk_shape g))
    as [[[]|e] s0] eqn:Hcheck.
  2: { intros [= _ <-]. exact (untouched_merge_check "time" true _ _ _ _ _ Hcheck). }
  assert (s0 = open chunk_shape g) as ->.
  { revert Hcheck. unfold mbind, M_bind, bind, lift.
    destruct (_check_merge _ _) as [[|]|]; by intros [= <-]. }
  unfold mbind at 1, M_bind at 1, bind at 1.
  destruct ((match finalsize with Some _ => correct_rootgroup_dims xarr | None => mret tt end)
              (open chunk_shape g)) as [[[]|e] s1] eqn:Hfix.
  2: { intros [= _ <-]. revert Hfix. destruct finalsize; [|by intros [= _ <-]].
       unfold correct_rootgroup_dims, fix_rootgroup_expand_dim.
       unfold mbind, M_bind, bind, get, lift, get_array.
       destruct (_check_fix_rootgroup_expand_dim _ _) as [[|]|]; try by intros [= _ <-].
       destruct (g_get _ _); [|by intros [= _ <-]].
       intros Hloop. by eapply untouched_fix_loop. }
  assert (untouched "time" (open chunk_shape g) s1 ∧ append_dim s1 = "time"%string)
    as [Hu1 Happ].
  { revert Hfix. destruct finalsize; [|by intros [= <-]].
    intros Hfix. split.
    - revert Hfix. unfold correct_rootgroup_dims, fix_rootgroup_expand_dim.
      unfold mbind, M_bind, bind, get, lift, get_array.
      destruct (_check_fix_rootgroup_expand_dim _ _) as [[|]|]; try by intros [= <-].
      destruct (g_get _ _); [|by intros [= <-]].
      intros Hloop. by eapply untouched_fix_loop.
    - by destruct (keeps_correct_rootgroup_dims _ _ _ _ Hfix) as (_ & Ha & _). }
  intros Hrest. eapply untouched_trans; [exact Hu1|].
  revert Hrest.
  unfold mbind at 1, M_bind at 1, bind at 1. unfold get_array_names at 1.
  unfold mbind at 1, M_bind at 1, bind at 1.
  destruct (write_attributes new_attrs _) as [[[]|e] s3] eqn:Hattrs.
  2: { unfold write_attributes in Hattrs. destruct new_attrs; discriminate. }
  assert (untouched "time" s1 s3 ∧ append_dim s3 = "time"%string) as [Hu3 Happ3].
  { unfold write_attributes in Hattrs. by destruct new_attrs; injection Hattrs as <-. }
  intros Hloop. eapply untouched_trans; [exact Hu3|].
  clear -Hloop Happ3. revert s3 Hloop Happ3.
  induction (_my_xarr_to_zarr_build_arraydimensions xarr) as [|[var [dims shape]] items IH];
    intros s3 Hloop Happ3.
  - by injection Hloop as _ <-.
  - cbn [for_each] in Hloop. unfold bind in Hloop.
    destruct (write_one xarr dataloc finalsize true (var, (dims, shape)) s3)
      as [[[]|e] s4] eqn:Hone.
    + destruct (frame_write_one _ _ _ _ _ _ _ _ Hone) as [(_ & Ha & _) Hf].
      eapply untouched_trans; [|eapply (IH s4); [done|by rewrite Ha]].
      destruct (decide (var = "time"%string)) as [->|Hne];
        [|apply Hf; simpl; congruence].
      revert Hone. unfold write_one, mbind at 1, M_bind at 1, bind at 1, get at 1.
      rewrite Happ3. simpl. by intros [= <-].
    + injection Hloop as _ <-.
      destruct (frame_write_one _ _ _ _ _ _ _ _ Hone) as [_ Hf].
      destruct (decide (var = "time"%string)) as [->|Hne];
        [|apply Hf; simpl; congruence].
      revert Hone. unfold write_one, mbind at 1, M_bind at 1, bind at 1, get at 1.
      rewrite Happ3. simpl. by intros [= _ <-].
Qed.

Lemma merge_keeps_time_array_witness :
  arrays (_distrib_zarr_write_convenience {[ "y"%string := [1] ]} batch_y_at_5 None (0, 1)
            (Some 2) true group_0_10).2 !! "time"%string
  = Some times_0_10.
Proof.
  apply (merge_keeps_time_array {[ "y"%string := [1] ]} batch_y_at_5 None (0, 1) (Some 2)
           group_0_10 times_0_10).
  - reflexivity.
  - simpl. lia.
Defined.

(** *** What one variable of a batch becomes *)

Lemma same_config_refl s : same_config s s.
Proof. by repeat split. Qed.

Lemma same_config_trans s1 s2 s3 : same_config s1 s2 → same_config s2 s3 → same_config s1 s3.
Proof.
  intros (H1 & H2 & H3 & H4 & H5) (H1' & H2' & H3' & H4' & H5').
  repeat split; congruence.
Qed.

Lemma same_config_put_array var a : preserves same_config (put_array var a).
Proof. intros s r s' [= _ <-]. by repeat split. Qed.

Ltac config_step :=
  first [ apply same_config_put_array | preserves_step same_config_refl same_config_trans ].

Lemma same_config_fix_one xarr curr var : preserves same_config (fix_one xarr curr var).
Proof. unfold fix_one. repeat config_step. Qed.

Lemma same_config_correct_rootgroup_dims xarr :
  preserves same_config (correct_rootgroup_dims xarr).
Proof.
  unfold correct_rootgroup_dims, fix_rootgroup_expand_dim.
  repeat (apply same_config_fix_one || config_step).
Qed.

Lemma same_config_write_one xarr dataloc finalsize merge item :
  preserves same_config (write_one xarr dataloc finalsize merge item).
Proof.
  unfold write_one, _write_existing_rootgroup, _write_new_dataset_rootgroup.
  destruct item as [var [dims shape]]. repeat config_step.
Qed.

Lemma same_config_nodata s s' dt :
  same_config s s' → _get_arr_nodatavalue s' dt = _get_arr_nodatavalue s dt.
Proof. intros (_ & _ & _ & Hf & Hi). unfold _get_arr_nodatavalue. by rewrite Hf, Hi. Qed.

(** The loop of write_to_zarr seen from one of its variables: the state the
    variable is written in has the settings, the names and the array of that
    variable as they were when the loop began, and what is written is not
    touched again. *)
Lemma write_loop_at xarr dataloc finalsize merge item items :
  ∀ s s',
    NoDup items.*1 →
    item ∈ items →
    for_each items (write_one xarr dataloc finalsize merge) s = (Ok tt, s') →
    ∃ s1 s2,
      write_one xarr dataloc finalsize merge item s1 = (Ok tt, s2) ∧
      keeps s s1 ∧ same_config s s1 ∧ untouched item.1 s s1 ∧ untouched item.1 s2 s'.
Proof.
  induction items as [|hd items IH]; intros s s' Hnd Hin Hrun.
  - by apply elem_of_nil in Hin.
  - simpl in Hnd. apply NoDup_cons in Hnd as [Hhd Hnd].
    cbn [for_each] in Hrun. change (bind ?m ?f) with (m ≫= f) in Hrun.
    apply bind_Ok_inv in Hrun as ([] & sh & Hone & Hrest).
    apply elem_of_cons in Hin as [->|Hin].
    + exists s, sh. split; [done|]. split; [apply keeps_refl|].
      split; [apply same_config_refl|]. split; [done|].
      exact (write_loop_frame _ _ _ _ items hd.1 Hhd _ _ _ Hrest).
    + destruct (IH sh s' Hnd Hin Hrest) as (s1 & s2 & Hw & Hk & Hc & Hu1 & Hu2).
      exists s1, s2. split; [done|].
      destruct (frame_write_one _ _ _ _ _ _ _ _ Hone) as [Hkh Hfh].
      split; [by eapply keeps_trans|].
      split; [eapply same_config_trans; [|done]; by eapply same_config_write_one|].
      split; [|done].
      eapply untouched_trans; [|done]. apply Hfh.
      intros Heq. apply Hhd. rewrite <- Heq. apply list_elem_of_fmap. by exists item.
Qed.

Lemma assoc_lookup {A} (l : list (string * A)) k v :
  NoDup l.*1 → (k, v) ∈ l → assoc k l = Some v.
Proof.
  induction l as [|[k' v'] l IH]; intros Hnd Hin; [by apply elem_of_nil in Hin|].
  simpl in Hnd. apply NoDup_cons in Hnd as [Hhd Hnd]. simpl.
  apply elem_of_cons in Hin as [[= <- <-]|Hin].
  - by rewrite String.eqb_refl.
  - destruct (String.eqb_spec k' k) as [->|Hne]; [|by apply IH].
    exfalso. apply Hhd. apply list_elem_of_fmap. by exists (k, v).
Qed.

(** The shape asked for: the final size in the place of the time length,
    when no other dimension is as long as the time dimension. *)
Lemma starting_shape_time_first tl rest (finalsize : option nat) :
  tl ∉ rest →
  zip_with (λ n o, default n o) (tl :: rest)
           (map (λ x, if decide (index_of x (tl :: rest) = Some 0) then finalsize else Some x)
                (tl :: rest))
  = default tl finalsize :: rest.
Proof.
  intros Hnot. cbn [map zip_with]. f_equal.
  - simpl. destruct (decide (tl = tl)) as [_|Hne]; [|done]. by rewrite decide_True.
  - assert (∀ l, l ⊆ rest →
              zip_with (λ n o, default n o) l
                (map (λ x, if decide (index_of x (tl :: rest) = Some 0)
                           then finalsize else Some x) l) = l) as Hl;
      [|by apply Hl].
    induction l as [|x l IH]; intros Hsub; [done|].
    cbn [map zip_with]. rewrite IH by (intros y Hy; apply Hsub; by right).
    f_equal. rewrite decide_False; [done|].
    simpl. rewrite decide_False.
    + by destruct (index_of x rest).
    + intros ->. apply Hnot, Hsub. by left.
Qed.

Lemma determine_shape_time_first zw var dims tl rest finalsize :
  var ∉ ["beam"; "xyz"]%string →
  index_of (append_dim zw) dims = Some 0 →
  _write_determine_shape zw var dims (tl :: rest) finalsize
  = Ok (Some 0, Some tl,
        map (λ x, if decide (index_of x (tl :: rest) = Some 0) then finalsize else Some x)
            (tl :: rest)).
Proof.
  intros Hv Hi. unfold _write_determine_shape.
  rewrite bool_decide_eq_false_2 by done. by rewrite Hi.
Qed.

Lemma z_resize_inv a shp a' :
  z_resize a shp = Ok a' →
  z_shape a' = zip_with (λ n o, default n o) (z_shape a) shp ∧
  z_dtype a' = z_dtype a ∧ z_fill a' = z_fill a ∧ z_dims a' = z_dims a ∧
  ∀ idx, z_data a' idx = if in_bounds (z_shape a) idx then z_data a idx else z_fill a.
Proof. unfold z_resize. destruct (decide _); [|discriminate]. by intros [= <-]. Qed.

(** One pass of the loop of write_to_zarr for a variable that the group
    does not hold: the array is created with the values of the batch from
    row 0 on, whatever the data location, and the rows up to the final
    size hold the no data value. *)
Lemma write_one_new xarr dataloc finalsize merge var dims tl rest da s s' :
  write_one xarr dataloc finalsize merge (var, (dims, tl :: rest)) s = (Ok tt, s') →
  var ∉ zarr_array_names s →
  (merge = true → var ≠ append_dim s) →
  var ∉ ["beam"; "xyz"]%string →
  index_of (append_dim s) dims = Some 0 →
  tl ∉ rest →
  assoc var xarr = Some da →
  nd_shape (da_values da) = tl :: rest →
  ∃ a', arrays (rootgroup s') !! var = Some a' ∧
        z_shape a' = default tl finalsize :: rest ∧
        z_dims a' = Some dims ∧
        z_dtype a' = nd_dtype (da_values da) ∧
        ∀ idx, z_data a' idx =
               if in_bounds (tl :: rest) idx then nd_data (da_values da) idx
               else _get_arr_nodatavalue s (nd_dtype (da_values da)).
Proof.
  intros Hrun Hnew Hmerge Hv Hi Hnot Hda Hshape. unfold write_one in Hrun.
  apply bind_Ok_inv in Hrun as (zw & s1 & [= <- <-] & Hrun).
  assert (merge && bool_decide (var ∈ [append_dim s; "beam"%string]) = false) as Hm.
  { destruct merge; [|done]. simpl. apply bool_decide_eq_false_2.
    intros [->|Hin]%elem_of_cons; [by apply Hmerge|].
    apply list_elem_of_singleton in Hin. subst var. apply Hv. by left. }
  rewrite Hm, (bool_decide_eq_false_2 _ Hv), (bool_decide_eq_false_2 _ Hnew) in Hrun.
  cbn [andb] in Hrun.
  rewrite (determine_shape_time_first _ _ _ _ _ _ Hv Hi) in Hrun.
  apply bind_Ok_inv in Hrun as ([[timaxis timlength] shp] & s1 & [[= <- <- Hshp] ->]%lift_Ok_inv
                                & Hrun).
  apply bind_Ok_inv in Hrun as (chunksize & s1 & [_ ->]%lift_Ok_inv & Hrun).
  apply bind_Ok_inv in Hrun as ([] & s1 & Hnewds & Hrun).
  unfold _write_new_dataset_rootgroup in Hnewds.
  apply bind_Ok_inv in Hnewds as (zw & s2 & [= <- <-] & Hnewds).
  unfold ds_get in Hnewds. rewrite Hda in Hnewds.
  apply bind_Ok_inv in Hnewds as (da' & s2 & [[= <-] ->]%lift_Ok_inv & Hnewds).
  apply bind_Ok_inv in Hnewds as (a0 & s2 & [Hcreate ->]%lift_Ok_inv & Hnewds).
  apply bind_Ok_inv in Hnewds as (a1 & s2 & [Hset ->]%lift_Ok_inv & Hnewds).
  apply bind_Ok_inv in Hnewds as (a2 & s2 & [Hres ->]%lift_Ok_inv & Hnewds).
  injection Hnewds as <-.
  apply bind_Ok_inv in Hrun as (a2' & s2 & [Ha2 ->]%get_array_Ok_inv & Hrun).
  simpl in Ha2. rewrite lookup_insert_eq in Ha2. injection Ha2 as <-.
  injection Hrun as <-. cbn [rootgroup set_rootgroup g_set arrays].
  rewrite lookup_insert_eq.
  exists (set_dims a2 dims). split; [done|].
  destruct (arrays (rootgroup s) !! var); [discriminate|].
  unfold z_create in Hcreate.
  destruct (normalize_chunks _ _) as [chunks|]; [|discriminate]. simpl in Hcreate.
  injection Hcreate as <-.
  destruct (z_setitem_full
              {| z_dtype := nd_dtype (da_values da); z_shape := tl :: rest; z_chunks := chunks;
                 z_fill := _get_arr_nodatavalue s (nd_dtype (da_values da));
                 z_data := λ _, _get_arr_nodatavalue s (nd_dtype (da_values da));
                 z_dims := None |} (da_values da) Hshape)
    as (a1' & Hset' & Hs1 & Hd1 & Hf1 & _ & Hdat1).
  rewrite Hset in Hset'. injection Hset' as <-.
  pose proof (z_resize_shape _ _ _ Hres) as Hs2.
  change (map (λ x, if decide (index_of x (tl :: rest) = Some 0) then finalsize else Some x)
              (tl :: rest) = shp) in Hshp.
  rewrite Hs1, <- Hshp in Hs2. cbn [z_shape] in Hs2.
  rewrite starting_shape_time_first in Hs2 by done.
  destruct (z_resize_inv _ _ _ Hres) as (_ & Hd2 & Hf2 & _ & Hdat2).
  split; [done|]. split; [done|].
  split; [cbn [set_dims z_dtype]; by rewrite Hd2, Hd1|].
  intros idx. cbn [set_dims z_data]. rewrite Hdat2, Hs1. cbn [z_shape].
  destruct (in_bounds (tl :: rest) idx) eqn:Hin; [|by rewrite Hf1].
  by rewrite Hdat1.
Qed.

(** write_to_zarr taken apart, when it completes: the growth of the beam
    dimension, the state the loop over the variables starts in, and the
    loop. *)
Lemma write_to_zarr_Ok_inv xarr new_attrs dataloc finalsize merge s s' :
  write_to_zarr xarr new_attrs dataloc finalsize merge s = (Ok tt, s') →
  ∃ s1 s3,
    (match finalsize with
     | Some _ => correct_rootgroup_dims xarr
     | None => mret tt
     end) s = (Ok tt, s1) ∧
    arrays (rootgroup s3) = arrays (rootgroup s1) ∧
    zarr_array_names s3 = array_keys (rootgroup s1) ∧
    same_config s1 s3 ∧
    for_each (_my_xarr_to_zarr_build_arraydimensions xarr)
             (write_one xarr dataloc finalsize merge) s3 = (Ok tt, s').
Proof.
  intros Hw. unfold write_to_zarr in Hw.
  apply bind_Ok_inv in Hw as (zw0 & s0 & [= <- <-] & Hw).
  apply bind_Ok_inv in Hw as ([] & s0 & Hcheck & Hw).
  assert (s0 = s) as ->.
  { destruct merge; [|by injection Hcheck as <-].
    apply bind_Ok_inv in Hcheck as (ok & s0' & [_ ->]%lift_Ok_inv & Hcheck).
    destruct ok; [by injection Hcheck as <-|discriminate]. }
  apply bind_Ok_inv in Hw as ([] & s1 & Hfix & Hw).
  apply bind_Ok_inv in Hw as ([] & s2 & [= <-] & Hw).
  apply bind_Ok_inv in Hw as ([] & s3 & Hattrs & Hloop).
  exists s1, s3. split; [done|].
  unfold write_attributes in Hattrs.
  destruct new_attrs; injection Hattrs as <-; repeat split; done.
Qed.

(** The growth of the beam dimension passes over a name that the writer
    does not list. *)
Lemma untouched_correct_rootgroup_dims xarr var s r s' :
  correct_rootgroup_dims xarr s = (r, s') →
  var ∉ zarr_array_names s →
  untouched var s s'.
Proof.
  intros Hrun Hvar. revert Hrun.
  unfold correct_rootgroup_dims, fix_rootgroup_expand_dim.
  unfold mbind, M_bind, bind, get, lift, get_array.
  destruct (_check_fix_rootgroup_expand_dim _ _) as [[|]|]; try by intros [= _ <-].
  destruct (g_get _ _); [|by intros [= _ <-]].
  apply (preserves_for_each_in (untouched var)); [done|apply untouched_trans|].
  intros w Hw. apply (untouched_frame w); [by intros ->|apply frame_fix_one].
Qed.

Lemma open_nodata chunk_shape g dt : _get_arr_nodatavalue (open chunk_shape g) dt = nodata_of dt.
Proof. by destruct dt. Qed.

(** The write of a variable that the group does not hold. *)
Lemma write_to_zarr_new_variable chunk_shape xarr new_attrs dataloc finalsize merge
    g zw var da tl rest :
  NoDup xarr.*1 →
  write_to_zarr xarr new_attrs dataloc finalsize merge (open chunk_shape g) = (Ok tt, zw) →
  (var, da) ∈ xarr →
  arrays g !! var = None →
  var ∉ ["beam"; "xyz"]%string →
  (merge = true → var ≠ "time"%string) →
  index_of "time"%string (da_dims da) = Some 0 →
  nd_shape (da_values da) = tl :: rest →
  tl ∉ rest →
  ∃ a', arrays (rootgroup zw) !! var = Some a' ∧
        z_shape a' = default tl finalsize :: rest ∧
        z_dims a' = Some (da_dims da) ∧
        z_dtype a' = nd_dtype (da_values da) ∧
        ∀ idx, z_data a' idx =
               if in_bounds (tl :: rest) idx then nd_data (da_values da) idx
               else nodata_of (nd_dtype (da_values da)).
Proof.
  intros Hnd Hw Hin Hnone Hv Hmerge Hi Hshape Hnot.
  destruct (write_to_zarr_Ok_inv _ _ _ _ _ _ _ Hw) as (s1 & s3 & Hfix & Harr & Hnames & Hc3 & Hloop).
  assert (var ∉ array_keys g) as Hnokey.
  { intros [a Ha]%elem_of_array_keys. congruence. }
  assert (untouched var (open chunk_shape g) s1 ∧ same_config (open chunk_shape g) s1)
    as [Hu1 Hc1].
  { destruct finalsize; [|by injection Hfix as <-]. split.
    - by eapply untouched_correct_rootgroup_dims.
    - by eapply same_config_correct_rootgroup_dims. }
  assert (NoDup (_my_xarr_to_zarr_build_arraydimensions xarr).*1) as Hnd'.
  { eapply sublist_NoDup; [done|apply build_arraydimensions_sublist]. }
  assert ((var, (da_dims da, nd_shape (da_values da)))
          ∈ _my_xarr_to_zarr_build_arraydimensions xarr) as Hitem.
  { apply elem_of_build_arraydimensions; [done| |by rewrite Hshape].
    intros Hd. by rewrite Hd in Hi. }
  destruct (write_loop_at _ _ _ _ _ _ _ _ Hnd' Hitem Hloop)
    as (s4 & s5 & Hone & Hk & Hc4 & Hu4 & Hu5).
  cbn [fst] in Hu4, Hu5. rewrite Hshape in Hone.
  pose proof (same_config_trans _ _ _ Hc1 (same_config_trans _ _ _ Hc3 Hc4)) as Hc.
  destruct Hk as (Hn4 & _).
  destruct (write_one_new _ _ _ _ _ _ _ _ da _ _ Hone) as (a' & Ha' & Hs & Hd & Hdt & Hdat);
    try done.
  - rewrite Hn4, Hnames. intros [a Ha]%elem_of_array_keys.
    rewrite Hu1 in Ha. simpl in Ha. congruence.
  - destruct Hc as (_ & -> & _). done.
  - destruct Hc as (_ & -> & _). done.
  - by apply assoc_lookup.
  - exists a'. split; [unfold untouched in Hu5; by rewrite Hu5|]. split; [done|]. split; [done|]. split; [done|].
    intros idx. rewrite Hdat.
    by rewrite (same_config_nodata _ _ _ Hc), open_nodata.
Qed.



(** A merge that adds the variable y at the data location [1, 2) to a group
    with two times: the value is stored in row 0, and row 1 reads NaN. *)
Example merge_writes_new_variable_at_row_zero :
  let g := _distrib_zarr_write_convenience {[ "y"%string := [1] ]} batch_y_at_5 None (1, 2)
             (Some 2) true group_0_10 in
  g.1 = Ok tt ∧
  shape_of g.2 "y" = Some [2] ∧
  read g.2 "y" [0] = Some (VFloat (Num 7)) ∧
  read g.2 "y" [1] = Some (VFloat NaN).
Proof. vm_compute. repeat split; reflexivity. Qed.

(** *** A batch written over rows of an array that is there *)

Lemma chunk_idx_time_first tl rest (rng : nat * nat) :
  tl ∉ rest →
  map (λ i, if decide (index_of i (tl :: rest) = Some 0) then rng else (0, i)) (tl :: rest)
  = rng :: map (λ i, (0, i)) rest.
Proof.
  intros Hnot. cbn [map]. f_equal.
  - simpl. destruct (decide (tl = tl)) as [_|Hne]; [|done]. by rewrite decide_True.
  - apply map_ext_in. intros x Hx. rewrite decide_False; [done|].
    simpl. rewrite decide_False.
    + by destruct (index_of x rest).
    + intros ->. apply Hnot. by apply list_elem_of_In.
Qed.

(** The slices 0:i over the dimensions past the first select the indices
    within the shape of the batch, and the offset into the batch is the
    index itself. *)
Lemma cols_selection srest :
  ∀ rest sel idx,
    normalize_selection srest (map (λ i, (0, i)) rest) = Ok sel →
    selection_shape sel = rest →
    in_bounds srest idx = true →
    in_selection sel idx = in_bounds rest idx ∧
    (in_bounds rest idx = true → selection_offset sel idx = idx).
Proof.
  induction srest as [|n srest IH]; intros [|r rest] sel idx Hnorm Hshape Hin.
  - injection Hnorm as <-. destruct idx; done.
  - discriminate.
  - cbn [map normalize_selection] in Hnorm.
    destruct (normalize_selection srest []) as [sel'|]; [|discriminate].
    injection Hnorm as <-. discriminate.
  - cbn [map normalize_selection] in Hnorm.
    destruct (normalize_selection srest (map (λ i, (0, i)) rest)) as [sel'|] eqn:Hn';
      [|discriminate].
    injection Hnorm as <-. unfold selection_shape, clip in Hshape.
    cbn [map fst snd] in Hshape. injection Hshape as Hr Hshape.
    destruct idx as [|i idx]; [done|].
    cbn [in_bounds] in Hin. apply andb_true_iff in Hin as [Hi Hin].
    destruct (IH rest sel' idx Hn' Hshape Hin) as [IH1 IH2].
    assert (Nat.min r n = r) as Hmin by lia.
    unfold clip. cbn [in_selection in_bounds fst snd]. rewrite IH1.
    change (Nat.min 0 n) with 0. rewrite Hmin. split; [done|].
    intros [_ Hb]%andb_true_iff. unfold selection_offset in *.
    cbn [zip_with fst]. by rewrite Nat.sub_0_r, IH2.
Qed.

Lemma time_slice lo tl s0 i :
  i < s0 →
  (Nat.min lo s0 <=? i) && (i <? Nat.min (lo + tl) s0) = (lo <=? i) && (i <? lo + tl) ∧
  (lo ≤ i → i - Nat.min lo s0 = i - lo).
Proof.
  intros Hi. split; [|lia].
  destruct (Nat.leb_spec (Nat.min lo s0) i), (Nat.leb_spec lo i),
    (Nat.ltb_spec i (Nat.min (lo + tl) s0)), (Nat.ltb_spec i (lo + tl)); simpl; lia.
Qed.

(** z[lo:lo+tl, 0:r1, ...] = v on an array of shape s0, s1, ...: the rows
    lo .. lo+tl-1 hold the rows of v, the other elements are as they
    were. *)
Lemma z_setitem_rows a lo tl rest v a' :
  z_setitem a ((lo, lo + tl) :: map (λ i, (0, i)) rest) v = Ok a' →
  nd_shape v = tl :: rest →
  z_shape a' = z_shape a ∧ z_dtype a' = z_dtype a ∧ z_dims a' = z_dims a ∧
  z_fill a' = z_fill a ∧
  ∀ i idx, in_bounds (z_shape a) (i :: idx) = true →
           z_data a' (i :: idx) =
           if (lo <=? i) && (i <? lo + tl) && in_bounds rest idx
           then nd_data v ((i - lo) :: idx)
           else z_data a (i :: idx).
Proof.
  intros Hset Hv. unfold z_setitem in Hset.
  destruct (z_shape a) as [|s0 srest] eqn:Hsa; [discriminate|].
  cbn [normalize_selection] in Hset.
  destruct (normalize_selection srest (map (λ i, (0, i)) rest)) as [sel|] eqn:Hnorm;
    [|discriminate].
  cbn [mbind result_bind] in Hset.
  destruct (decide _) as [Hshape|]; [|discriminate].
  injection Hset as <-. cbn [z_shape z_dtype z_dims z_fill z_data].
  repeat split; try done.
  rewrite Hv in Hshape. unfold selection_shape in Hshape.
  cbn [map] in Hshape. injection Hshape as Htl Hrest.
  intros i idx Hin. cbn [in_bounds] in Hin. apply andb_true_iff in Hin as [Hi Hin].
  apply Nat.ltb_lt in Hi.
  destruct (cols_selection srest rest sel idx Hnorm (eq_sym Hrest) Hin) as [Hsel Hoff].
  destruct (time_slice lo tl s0 i Hi) as [Hrow Hsub].
  unfold clip. cbn [in_selection fst snd]. rewrite Hrow, Hsel.
  destruct ((lo <=? i) && (i <? lo + tl) && in_bounds rest idx) eqn:E; [|done].
  apply andb_true_iff in E as [[Hlo _]%andb_true_iff Hb]. apply Nat.leb_le in Hlo.
  unfold selection_offset in *. cbn [zip_with fst]. by rewrite Hsub, (Hoff Hb).
Qed.

(** One pass of the loop of write_to_zarr, without a final size, for a
    variable that the group holds. *)
Lemma write_one_existing xarr lo hi merge var dims tl rest da a s s' :
  write_one xarr (lo, hi) None merge (var, (dims, tl :: rest)) s = (Ok tt, s') →
  var ∈ zarr_array_names s →
  arrays (rootgroup s) !! var = Some a →
  (merge = true → var ≠ append_dim s) →
  var ∉ ["beam"; "xyz"]%string →
  index_of (append_dim s) dims = Some 0 →
  tl ∉ rest →
  assoc var xarr = Some da →
  nd_shape (da_values da) = tl :: rest →
  ∃ a', arrays (rootgroup s') !! var = Some a' ∧
        z_shape a' = z_shape a ∧ z_dtype a' = z_dtype a ∧ z_fill a' = z_fill a ∧
        z_dims a' = Some dims ∧
        ∀ i idx, in_bounds (z_shape a) (i :: idx) = true →
                 z_data a' (i :: idx) =
                 if (lo <=? i) && (i <? lo + tl) && in_bounds rest idx
                 then nd_data (da_values da) ((i - lo) :: idx)
                 else z_data a (i :: idx).
Proof.
  intros Hrun Hold Ha Hmerge Hv Hi Hnot Hda Hshape. unfold write_one in Hrun.
  apply bind_Ok_inv in Hrun as (zw & s1 & [= <- <-] & Hrun).
  assert (merge && bool_decide (var ∈ [append_dim s; "beam"%string]) = false) as Hm.
  { destruct merge; [|done]. simpl. apply bool_decide_eq_false_2.
    intros [->|Hin]%elem_of_cons; [by apply Hmerge|].
    apply list_elem_of_singleton in Hin. subst var. apply Hv. by left. }
  rewrite Hm, (bool_decide_eq_false_2 _ Hv), (bool_decide_eq_true_2 _ Hold) in Hrun.
  cbn [andb] in Hrun.
  rewrite (determine_shape_time_first _ _ _ _ _ _ Hv Hi) in Hrun.
  apply bind_Ok_inv in Hrun as ([[timaxis timlength] shp] & s1 & [[= <- <- _] ->]%lift_Ok_inv
                                & Hrun).
  apply bind_Ok_inv in Hrun as (chunksize & s1 & [_ ->]%lift_Ok_inv & Hrun).
  apply bind_Ok_inv in Hrun as ([] & s1 & Hwrite & Hrun).
  unfold _write_existing_rootgroup in Hwrite.
  unfold ds_get in Hwrite. rewrite Hda in Hwrite.
  apply bind_Ok_inv in Hwrite as (da' & s2 & [[= <-] ->]%lift_Ok_inv & Hwrite).
  apply bind_Ok_inv in Hwrite as (newarr & s2 & [Hnew ->]%lift_Ok_inv & Hwrite).
  assert (newarr = da_values da) as ->.
  { unfold zarr_array in Hnew. destruct (normalize_chunks _ _); [|discriminate].
    by injection Hnew as <-. }
  apply bind_Ok_inv in Hwrite as (loc & s2 & [Hloc ->]%lift_Ok_inv & Hwrite).
  assert (loc = (lo, lo + tl)) as ->.
  { cbn [fst snd] in Hloc. destruct (decide _) as [|Heq]; injection Hloc as <-; [done|].
    f_equal. lia. }
  rewrite (chunk_idx_time_first tl rest (lo, lo + tl) Hnot) in Hwrite.
  apply bind_Ok_inv in Hwrite as ([] & s2 & [= <-] & Hwrite).
  apply bind_Ok_inv in Hwrite as (a0 & s2 & [Ha0 ->]%get_array_Ok_inv & Hwrite).
  rewrite Ha in Ha0. injection Ha0 as <-.
  apply bind_Ok_inv in Hwrite as (a1 & s2 & [Hset ->]%lift_Ok_inv & Hwrite).
  injection Hwrite as <-.
  apply bind_Ok_inv in Hrun as (a1' & s2 & [Ha1 ->]%get_array_Ok_inv & Hrun).
  cbn [rootgroup set_rootgroup g_set arrays] in Ha1.
  rewrite lookup_insert_eq in Ha1. injection Ha1 as <-.
  injection Hrun as <-. cbn [rootgroup set_rootgroup g_set arrays].
  rewrite lookup_insert_eq.
  destruct (z_setitem_rows _ _ _ _ _ _ Hset Hshape) as (Hs & Hd & Hdm & Hf & Hdat).
  exists (set_dims a1 dims). split; [done|].
  cbn [set_dims z_shape z_dtype z_fill z_dims z_data]. repeat split; done.
Qed.

(** The write, without final size, of a variable that the group holds. *)
Lemma write_to_zarr_existing_variable chunk_shape xarr new_attrs lo hi merge
    g zw var da a tl rest :
  NoDup xarr.*1 →
  write_to_zarr xarr new_attrs (lo, hi) None merge (open chunk_shape g) = (Ok tt, zw) →
  (var, da) ∈ xarr →
  arrays g !! var = Some a →
  var ∉ ["beam"; "xyz"]%string →
  (merge = true → var ≠ "time"%string) →
  index_of "time"%string (da_dims da) = Some 0 →
  nd_shape (da_values da) = tl :: rest →
  tl ∉ rest →
  ∃ a', arrays (rootgroup zw) !! var = Some a' ∧
        z_shape a' = z_shape a ∧
        ∀ i idx, in_bounds (z_shape a) (i :: idx) = true →
                 z_data a' (i :: idx) =
                 if (lo <=? i) && (i <? lo + tl) && in_bounds rest idx
                 then nd_data (da_values da) ((i - lo) :: idx)
                 else z_data a (i :: idx).
Proof.
  intros Hnd Hw Hin Hsome Hv Hmerge Hi Hshape Hnot.
  destruct (write_to_zarr_Ok_inv _ _ _ _ _ _ _ Hw) as (s1 & s3 & Hfix & Harr & Hnames & Hc3 & Hloop).
  injection Hfix as <-.
  assert (NoDup (_my_xarr_to_zarr_build_arraydimensions xarr).*1) as Hnd'.
  { eapply sublist_NoDup; [done|apply build_arraydimensions_sublist]. }
  assert ((var, (da_dims da, nd_shape (da_values da)))
          ∈ _my_xarr_to_zarr_build_arraydimensions xarr) as Hitem.
  { apply elem_of_build_arraydimensions; [done| |by rewrite Hshape].
    intros Hd. by rewrite Hd in Hi. }
  destruct (write_loop_at _ _ _ _ _ _ _ _ Hnd' Hitem Hloop)
    as (s4 & s5 & Hone & Hk & Hc4 & Hu4 & Hu5).
  cbn [fst] in Hu4, Hu5. rewrite Hshape in Hone.
  pose proof (same_config_trans _ _ _ Hc3 Hc4) as Hc.
  destruct Hk as (Hn4 & _).
  unfold untouched in Hu4, Hu5.
  destruct (write_one_existing _ _ _ _ _ _ _ _ da a _ _ Hone)
    as (a' & Ha' & Hs & _ & _ & _ & Hdat); try done.
  - rewrite Hn4, Hnames. apply elem_of_array_keys. simpl. eauto.
  - by rewrite Hu4, Harr.
  - destruct Hc as (_ & -> & _). done.
  - destruct Hc as (_ & -> & _). done.
  - by apply assoc_lookup.
  - exists a'. split; [by rewrite Hu5|]. done.
Qed.



(** The second row of x is overwritten, the first is kept. *)
Example append_overwrites_rows_of_data_location :
  let g := _distrib_zarr_write_convenience {[ "time"%string := [1]; "x"%string := [1] ]}
             [("time"%string, time_series [5%Q]); ("x"%string, time_series [9%Q])]
             None (1, 2) None false group_time_x in
  g.1 = Ok tt ∧
  read g.2 "x" [0] = Some (VFloat (Num 3)) ∧
  read g.2 "x" [1] = Some (VFloat (Num 9)) ∧
  read g.2 "time" [1] = Some (VFloat (Num 5)).
Proof. vm_compute. repeat split; reflexivity. Qed.

(** *** resize_zarr *)

Lemma zip_with_default_Some (shape new_shape : list nat) :
  length new_shape = length shape →
  zip_with (λ n o, default n o) shape (map Some new_shape) = new_shape.
Proof.
  revert new_shape. induction shape as [|x shape IH]; intros [|y new_shape] Hl; try done.
  simpl. f_equal. apply IH. simpl in Hl. lia.
Qed.

Lemma resize_one_static n v g :
  v ∈ ["beam"; "sector"]%string → resize_one n v g = (Ok tt, g).
Proof. intros Hv. unfold resize_one. by rewrite bool_decide_eq_true_2. Qed.

Lemma resize_one_spec n v g a d k :
  v ∉ ["beam"; "sector"]%string →
  arrays g !! v = Some a →
  z_dims a = Some d →
  index_of "time"%string d = Some k →
  k < length (z_shape a) →
  ∃ a', resize_one n v g = (Ok tt, g_set g v a') ∧ resized n k a a'.
Proof.
  intros Hv Ha Hd Hk Hlt. unfold resize_one. rewrite bool_decide_eq_false_2 by done.
  unfold mbind, M_bind, bind, get, lift, put, g_get.
  rewrite Ha, Hd, Hk. rewrite decide_True by done.
  destruct (z_resize_spec a (map Some (<[k := n]> (z_shape a))))
    as (a' & Hres & Hs & Hdt & Hf & Hdm & Hdat).
  { by rewrite length_map, length_insert. }
  rewrite Hres. exists a'. split; [done|].
  split; [|done]. rewrite Hs. apply zip_with_default_Some. by rewrite length_insert.
Qed.

Lemma resize_one_no_time n v g a d :
  v ∉ ["beam"; "sector"]%string →
  arrays g !! v = Some a →
  z_dims a = Some d →
  index_of "time"%string d = None →
  resize_one n v g = (Raise ValueError, g).
Proof.
  intros Hv Ha Hd Hk. unfold resize_one. rewrite bool_decide_eq_false_2 by done.
  unfold mbind, M_bind, bind, get, lift, put, g_get. by rewrite Ha, Hd, Hk.
Qed.

(** The loop of resize_zarr over names without repeats. *)
Lemma resize_loop_spec n l :
  ∀ g,
    NoDup l →
    (∀ v, v ∈ l → v ∉ ["beam"; "sector"]%string →
          ∃ a d k, arrays g !! v = Some a ∧ z_dims a = Some d ∧
                   index_of "time"%string d = Some k ∧ k < length (z_shape a)) →
    ∃ g', for_each l (resize_one n) g = (Ok tt, g') ∧
          attrs g' = attrs g ∧
          (∀ v, v ∉ l ∨ v ∈ ["beam"; "sector"]%string → arrays g' !! v = arrays g !! v) ∧
          (∀ v a d k, v ∈ l → v ∉ ["beam"; "sector"]%string →
                      arrays g !! v = Some a → z_dims a = Some d →
                      index_of "time"%string d = Some k →
                      ∃ a', arrays g' !! v = Some a' ∧ resized n k a a').
Proof.
  induction l as [|v l IH]; intros g Hnd Hall.
  - exists g. split; [done|]. split; [done|]. split; [done|].
    intros v a d k Hin. by apply elem_of_nil in Hin.
  - apply NoDup_cons in Hnd as [Hv Hnd].
    destruct (decide (v ∈ ["beam"; "sector"]%string)) as [Hstatic|Hdyn].
    + destruct (IH g Hnd) as (g' & Hloop & Hattrs & Hout & Hin).
      { intros w Hw. apply Hall. by right. }
      exists g'. cbn [for_each]. unfold bind. rewrite resize_one_static by done.
      split; [done|]. split; [done|]. split.
      * intros w [Hw|Hw]; apply Hout; [left|by right].
        by apply not_elem_of_cons in Hw as [_ Hw].
      * intros w a d k Hw Hwd. apply elem_of_cons in Hw as [->|Hw]; [done|].
        by apply Hin.
    + destruct (Hall v) as (a & d & k & Ha & Hd & Hk & Hlt); [by left|done|].
      destruct (resize_one_spec n v g a d k Hdyn Ha Hd Hk Hlt) as (a1 & Hstep & Hres).
      destruct (IH (g_set g v a1) Hnd) as (g' & Hloop & Hattrs & Hout & Hin).
      { intros w Hw Hwd. destruct (Hall w) as (b & db & kb & Hb & ?); [by right|done|].
        exists b, db, kb. split; [|done]. simpl. rewrite lookup_insert_ne; [done|].
        by intros ->. }
      exists g'. cbn [for_each]. unfold bind. rewrite Hstep.
      split; [done|]. split; [done|]. split.
      * intros w Hw. rewrite Hout.
        -- simpl. apply lookup_insert_ne. intros ->.
           destruct Hw as [Hw|Hw]; [|done]. apply Hw. by left.
        -- destruct Hw as [Hw|Hw]; [left|by right].
           by apply not_elem_of_cons in Hw as [_ Hw].
      * intros w b db kb Hw Hwd Hb Hdb Hkb. apply elem_of_cons in Hw as [->|Hw].
        -- rewrite Hout by (by left). simpl. rewrite lookup_insert_eq.
           exists a1. split; [done|]. congruence.
        -- apply (Hin w b db kb Hw Hwd); [|done|done].
           simpl. rewrite lookup_insert_ne; [done|]. by intros ->.
Qed.



(** The loop raises at the first array that has no time dimension. *)
Lemma resize_loop_no_time n l :
  ∀ g,
    NoDup l →
    (∀ v, v ∈ l → v ∉ ["beam"; "sector"]%string →
          ∃ a d, arrays g !! v = Some a ∧ z_dims a = Some d ∧
                 match index_of "time"%string d with
                 | Some k => k < length (z_shape a)
                 | None => True
                 end) →
    (∃ v a d, v ∈ l ∧ (v ∉ ["beam"; "sector"]%string) ∧ arrays g !! v = Some a ∧
              z_dims a = Some d ∧ index_of "time"%string d = None) →
    ∃ g', for_each l (resize_one n) g = (Raise ValueError, g').
Proof.
  induction l as [|v l IH]; intros g Hnd Hall (w & b & db & Hw & Hwd & Hb & Hdb & Hkb).
  - by apply elem_of_nil in Hw.
  - apply NoDup_cons in Hnd as [Hv Hnd]. cbn [for_each]. unfold bind.
    destruct (decide (v ∈ ["beam"; "sector"]%string)) as [Hstatic|Hdyn].
    + rewrite resize_one_static by done.
      apply IH; [done|intros x Hx; apply Hall; by right|].
      exists w, b, db. apply elem_of_cons in Hw as [->|Hw]; [done|]. done.
    + destruct (Hall v) as (a & d & Ha & Hd & Hk); [by left|done|].
      destruct (index_of "time"%string d) as [k|] eqn:Ek.
      * destruct (resize_one_spec n v g a d k Hdyn Ha Hd Ek Hk) as (a1 & -> & _).
        assert (w ≠ v) as Hne by (intros ->; congruence).
        apply elem_of_cons in Hw as [->|Hw]; [done|].
        apply IH; [done| |].
        -- intros x Hx Hxd. destruct (Hall x) as (c & dc & Hc & ?); [by right|done|].
           exists c, dc. split; [|done]. simpl. rewrite lookup_insert_ne; [done|].
           by intros ->.
        -- exists w, b, db. repeat split; try done.
           simpl. by rewrite lookup_insert_ne.
      * rewrite (resize_one_no_time n v g a d) by done. eauto.
Qed.

(** resize_zarr passes over beam and sector only: when some other array of
    the group has no time dimension, as the static array xyz, the call
    raises ValueError.  The arrays carry their dimension names, as many as
    they have dimensions. *)
Theorem resize_zarr_needs_time_dimension n g v a d :
  (∀ w b, arrays g !! w = Some b → ∃ db, z_dims b = Some db ∧ length db = length (z_shape b)) →
  arrays g !! v = Some a →
  v ∉ ["beam"; "sector"]%string →
  z_dims a = Some d →
  "time"%string ∉ d →
  ∃ g', resize_zarr (Some n) g = (Raise ValueError, g').
Proof.
  intros Hall Ha Hv Hd Hnotime.
  assert (∀ (l : list string), index_of "time"%string l = None ↔ "time"%string ∉ l) as Hidx.
  { induction l as [|x l IH]; simpl.
    - split; [intros _; apply not_elem_of_nil|done].
    - destruct (decide (x = "time"%string)) as [->|Hne].
      + split; [done|]. intros H. exfalso. apply H. by left.
      + rewrite not_elem_of_cons.
        destruct (index_of "time"%string l); simpl.
        * split; [done|]. intros [_ H]. by apply IH in H.
        * split; [|done]. intros _. split; [done|]. by apply IH. }
  assert (∀ (l : list string) k, index_of "time"%string l = Some k → k < length l) as Hlt.
  { induction l as [|x l IH]; intros k; simpl; [done|].
    destruct (decide (x = "time"%string)); [intros [= <-]; lia|].
    destruct (index_of "time"%string l) as [k'|]; simpl; [|done].
    intros [= <-]. specialize (IH k' eq_refl). lia. }
  unfold resize_zarr, mbind, M_bind, bind, get, lift.
  apply resize_loop_no_time.
  - apply array_keys_NoDup.
  - intros w [b Hb]%elem_of_array_keys Hw. destruct (Hall w b Hb) as (db & Hdb & Hlen).
    exists b, db. split; [done|]. split; [done|].
    destruct (index_of "time"%string db) as [k|] eqn:Ek; [|done].
    rewrite <- Hlen. by apply Hlt.
  - exists v, a, d. split; [apply elem_of_array_keys; eauto|].
    repeat split; try done. by apply Hidx.
Qed.

Lemma resize_zarr_needs_time_dimension_witness :
  ∃ g', resize_zarr (Some 5) group_time_xyz = (Raise ValueError, g').
Proof.
  apply (resize_zarr_needs_time_dimension 5 group_time_xyz "xyz"
           (z_of_ndarray (nd_of_list DOther [VStr "x"; VStr "y"; VStr "z"])
                         (VStr "") ["xyz"%string])
           ["xyz"%string]).
  - intros w b Hb. unfold group_time_xyz in Hb. cbn [arrays] in Hb.
    apply lookup_insert_Some in Hb as [[<- <-]|[_ Hb]].
    { by exists ["time"%string]. }
    apply lookup_singleton_Some in Hb as [<- <-].
    by exists ["xyz"%string].
  - reflexivity.
  - intros H. repeat (apply elem_of_cons in H as [H|H]; [discriminate|]).
    by apply elem_of_nil in H.
  - reflexivity.
  - intros H. apply list_elem_of_singleton in H. discriminate.
Defined.

(** *** A distributed write *)

Lemma convenience_run chunk_shape xarr new_attrs dataloc finalsize merge g r g' :
  _distrib_zarr_write_convenience chunk_shape xarr new_attrs dataloc finalsize merge g
  = (r, g') →
  ∃ zw, write_to_zarr xarr new_attrs dataloc finalsize merge (open chunk_shape g) = (r, zw) ∧
        g' = rootgroup zw.
Proof.
  unfold _distrib_zarr_write_convenience.
  destruct (write_to_zarr _ _ _ _ _ _) as [r' zw]. intros [= <- <-]. by exists zw.
Qed.

Lemma consecutive_lookup lengths :
  ∀ start k lo hi,
    consecutive start lengths !! k = Some (lo, hi) →
    ∃ n, lengths !! k = Some n ∧ hi = lo + n ∧ start ≤ lo ∧ hi ≤ start + sum_list lengths.
Proof.
  induction lengths as [|n lengths IH]; intros start k lo hi Hk; [done|].
  destruct k as [|k]; simpl in Hk.
  - injection Hk as <- <-. exists n. simpl. repeat split; lia.
  - destruct (IH _ _ _ _ Hk) as (m & Hm & -> & Hlo & Hhi). exists m. simpl.
    repeat split; [done|lia|lia].
Qed.

Lemma consecutive_last start n lengths :
  snd <$> last (consecutive start (n :: lengths)) = Some (start + sum_list (n :: lengths)).
Proof.
  revert start n. induction lengths as [|m lengths IH]; intros start n.
  - simpl. f_equal. lia.
  - change (consecutive start (n :: m :: lengths))
      with ((start, start + n) :: consecutive (start + n) (m :: lengths)).
    specialize (IH (start + n) m).
    destruct (consecutive (start + n) (m :: lengths)) as [|loc locs] eqn:E; [done|].
    rewrite last_cons_cons, IH. simpl. f_equal. lia.
Qed.

(** The later tasks at data locations that follow one another, for a
    variable that the group holds: the rows before the first location are
    kept, and the rows of each location hold the rows of its batch. *)
Lemma later_writes_rows chunk_sizes merge var rest :
  var ∉ ["beam"; "xyz"]%string →
  (merge = true → var ≠ "time"%string) →
  ∀ xarrays das,
    Forall2 (holds var rest) xarrays das →
    ∀ start g g' futs a,
      later_writes chunk_sizes xarrays (consecutive start (map rows das)) merge g
      = (Ok futs, g') →
      Forall (λ fut, fut = Ok tt) futs →
      arrays g !! var = Some a →
      ∃ a', arrays g' !! var = Some a' ∧
            z_shape a' = z_shape a ∧
            (∀ i idx, in_bounds (z_shape a) (i :: idx) = true → i < start →
                      z_data a' (i :: idx) = z_data a (i :: idx)) ∧
            (∀ k da lo hi,
               das !! k = Some da →
               consecutive start (map rows das) !! k = Some (lo, hi) →
               ∀ r idx,
                 in_bounds (z_shape a) ((lo + r) :: idx) = true →
                 in_bounds (rows da :: rest) (r :: idx) = true →
                 z_data a' ((lo + r) :: idx) = nd_data (da_values da) (r :: idx)).
Proof.
  intros Hv Hmerge xarrays das Hall.
  induction Hall as [|xarr da xarrays das Hh Hall IH]; intros start g g' futs a Hrun Hfuts Ha.
  - injection Hrun as <- <-. exists a. split; [done|]. split; [done|]. split; [done|].
    intros k da lo hi Hk. done.
  - destruct Hh as (Hnd & Hin & Htime & Hshape & Hnot).
    cbn [map consecutive later_writes] in Hrun.
    unfold mbind, M_bind, bind, submit in Hrun.
    destruct (_distrib_zarr_write_convenience _ _ _ _ _ _ g) as [r g1] eqn:Hw.
    destruct (later_writes _ _ _ _ g1) as [[futs'|e] g2] eqn:Hl; [|done].
    injection Hrun as <- <-.
    apply Forall_cons in Hfuts as [-> Hfuts].
    apply convenience_run in Hw as (zw & Hw & ->).
    destruct (write_to_zarr_existing_variable _ _ _ _ _ _ _ _ var da a (rows da) rest
                Hnd Hw Hin Ha Hv Hmerge Htime Hshape Hnot) as (a1 & Ha1 & Hs1 & Hd1).
    destruct (IH _ _ _ _ a1 Hl Hfuts Ha1) as (a' & Ha' & Hs' & Hbefore & Hrows).
    rewrite Hs1 in Hs', Hbefore, Hrows.
    exists a'. split; [done|]. split; [done|]. split.
    + intros i idx Hb Hi. rewrite Hbefore by (done || lia). rewrite Hd1 by done.
      replace (start <=? i) with false by (symmetry; apply Nat.leb_gt; lia). done.
    + intros [|k] da' lo hi Hk Hloc r idx Hb Hr.
      * simpl in Hk, Hloc. injection Hk as <-. injection Hloc as <- <-.
        cbn [in_bounds] in Hr. apply andb_true_iff in Hr as [Hr Hidx].
        apply Nat.ltb_lt in Hr.
        rewrite Hbefore by (done || lia). rewrite Hd1 by done.
        replace (start <=? start + r) with true by (symmetry; apply Nat.leb_le; lia).
        replace (start + r <? start + rows da) with true
          by (symmetry; apply Nat.ltb_lt; lia).
        rewrite Hidx. simpl. f_equal. f_equal. lia.
      * simpl in Hk, Hloc. by eapply Hrows.
Qed.



(** Two batches of a variable x written to an empty store: the store holds
    the three rows in their order. *)
Example distributed_write_two_batches :
  let run := distrib_zarr_write {[ "time"%string := [2]; "x"%string := [2] ]}
               [batch_x_01; batch_x_2] None [(0, 2); (2, 3)] false empty_group in
  run.1 = Ok [Ok tt; Ok tt] ∧
  shape_of run.2 "x" = Some [3] ∧
  read run.2 "x" [0] = Some (VFloat (Num 3)) ∧
  read run.2 "x" [1] = Some (VFloat (Num 4)) ∧
  read run.2 "x" [2] = Some (VFloat (Num 5)) ∧
  read run.2 "time" [2] = Some (VFloat (Num 2)).
Proof. vm_compute. repeat split; reflexivity. Qed.

(** *** Attributes written again *)

Lemma foldl_insert_notin (l : list (string * attr)) :
  ∀ (m : gmap string attr) k,
    k ∉ l.*1 → foldl (λ m kv, <[fst kv := snd kv]> m) m l !! k = m !! k.
Proof.
  induction l as [|[k' v'] l IH]; intros m k Hk; [done|].
  simpl in *. apply not_elem_of_cons in Hk as [Hne Hk].
  rewrite IH by done. by rewrite lookup_insert_ne.
Qed.

Lemma foldl_insert_in (l : list (string * attr)) :
  ∀ (m : gmap string attr) k v,
    NoDup l.*1 → (k, v) ∈ l → foldl (λ m kv, <[fst kv := snd kv]> m) m l !! k = Some v.
Proof.
  induction l as [|[k' v'] l IH]; intros m k v Hnd Hin; [by apply elem_of_nil in Hin|].
  simpl in *. apply NoDup_cons in Hnd as [Hk' Hnd].
  apply elem_of_cons in Hin as [[= -> ->]|Hin].
  - rewrite foldl_insert_notin by done. by rewrite lookup_insert_eq.
  - by apply IH.
Qed.

Lemma foldl_insert_id (l : list (string * attr)) :
  ∀ m : gmap string attr,
    (∀ k v, (k, v) ∈ l → m !! k = Some v) →
    foldl (λ m kv, <[fst kv := snd kv]> m) m l = m.
Proof.
  induction l as [|[k v] l IH]; intros m Hm; [done|].
  simpl. rewrite insert_id by (apply Hm; by left).
  apply IH. intros k' v' Hin. apply Hm. by right.
Qed.

(** The value is among the values that the group holds under the keys with
    the prefix. *)
Lemma existsb_current_vals n p (g : group) v :
  existsb (attr_eqb v)
          (map snd (filter (λ kv, has_prefix n p (fst kv) = true) (map_to_list (attrs g))))
  = true ↔
  ∃ k v', has_prefix n p k = true ∧ attrs g !! k = Some v' ∧ attr_eqb v v' = true.
Proof.
  rewrite existsb_exists. split.
  - intros (v' & Hin & Heq). apply list_elem_of_In, list_elem_of_fmap in Hin as ([k w] & -> & Hin).
    apply list_elem_of_filter in Hin as [Hk Hin]. apply elem_of_map_to_list in Hin.
    by exists k, w.
  - intros (k & v' & Hk & Hv' & Heq). exists v'. split; [|done].
    apply list_elem_of_In, list_elem_of_fmap. exists (k, v'). split; [done|].
    apply list_elem_of_filter. split; [done|]. by apply elem_of_map_to_list.
Qed.

Lemma elem_of_only_unique n p g l kv :
  kv ∈ only_unique n p g l ↔
  kv ∈ l ∧
  ¬ (has_prefix n p (fst kv) = true ∧
     existsb (attr_eqb (snd kv))
             (map snd (filter (λ kv, has_prefix n p (fst kv) = true) (map_to_list (attrs g))))
     = true).
Proof. unfold only_unique. rewrite list_elem_of_filter. tauto. Qed.

Lemma only_unique_NoDup n p g l : NoDup l.*1 → NoDup (only_unique n p g l).*1.
Proof.
  intros Hnd. eapply sublist_NoDup; [exact Hnd|].
  apply fmap_sublist. unfold only_unique. apply sublist_filter.
Qed.

(** Attributes that are strings or numbers, written again: once a dict of
    attributes is written, a write of the same attributes, or of any of
    them, leaves the writer and the group as they are.  The dict does not
    give a profile or a settings key of the group another value. *)
Theorem attributes_written_once (zw : ZarrWrite) (l l' : list (string * attr)) :
  NoDup l.*1 →
  (∀ kv, kv ∈ l' → kv ∈ l) →
  (∀ k v v0, (k, v) ∈ l →
             has_prefix 7 "profile" k = true ∨ has_prefix 8 "settings" k = true →
             attrs (rootgroup zw) !! k = Some v0 → v0 = v) →
  write_attributes (Some l') (write_attributes (Some l) zw).2
  = (Ok tt, (write_attributes (Some l) zw).2).
Proof.
  intros Hnd Hsub Hsame.
  destruct zw as [dcs ad ed fnd ind g zan]. simpl in Hsame.
  unfold write_attributes, _attributes_only_unique_profile, _attributes_only_unique_settings,
    _attributes_only_unique_xyzrph, set_rootgroup, _my_xarr_to_zarr_writeattributes.
  cbn [snd rootgroup desired_chunk_shape append_dim expand_dim float_no_data_value
       int_no_data_value zarr_array_names arrays attrs].
  set (l2 := only_unique 8 "settings" g (only_unique 7 "profile" g l)).
  set (g1 := {| arrays := arrays g;
                attrs := foldl (λ m kv, <[fst kv := snd kv]> m) (attrs g) l2 |}).
  set (l2' := only_unique 8 "settings" g1 (only_unique 7 "profile" g1 l')).
  assert (NoDup l2.*1) as Hnd2 by (by do 2 apply only_unique_NoDup).
  assert (∀ kv, kv ∈ l2 → kv ∈ l) as Hl2.
  { intros kv Hin. apply elem_of_only_unique in Hin as [Hin _].
    by apply elem_of_only_unique in Hin as [Hin _]. }
  assert (∀ k v, (k, v) ∈ l2 → attrs g1 !! k = Some v) as Hwritten.
  { intros k v Hin. simpl. by apply foldl_insert_in. }
  assert (∀ k v0, has_prefix 7 "profile" k = true ∨ has_prefix 8 "settings" k = true →
                  attrs g !! k = Some v0 → attrs g1 !! k = Some v0) as Hkept.
  { intros k v0 Hk Hv0. destruct (decide (k ∈ l2.*1)) as [Hin|Hnotin].
    - apply list_elem_of_fmap in Hin as ([k' w] & -> & Hin). simpl in *.
      rewrite (Hsame k' w v0 (Hl2 _ Hin) Hk Hv0). by apply Hwritten.
    - simpl. by rewrite foldl_insert_notin. }
  assert (foldl (λ m kv, <[fst kv := snd kv]> m) (attrs g1) l2' = attrs g1) as Hid.
  { apply foldl_insert_id. intros k v Hin.
    apply elem_of_only_unique in Hin as [Hin Hs1].
    apply elem_of_only_unique in Hin as [Hin Hp1]. cbn [fst snd] in Hs1, Hp1.
    assert (∀ n p, n = 7 ∧ p = "profile"%string ∨ n = 8 ∧ p = "settings"%string →
                   has_prefix n p k = true →
                   existsb (attr_eqb v)
                           (map snd (filter (λ kv, has_prefix n p (fst kv) = true)
                                            (map_to_list (attrs g)))) = true →
                   existsb (attr_eqb v)
                           (map snd (filter (λ kv, has_prefix n p (fst kv) = true)
                                            (map_to_list (attrs g1)))) = true) as Hstill.
    { intros n p Hnp Hk Hex.
      apply existsb_current_vals in Hex as (k0 & v0 & Hk0 & Hv0 & Heq).
      apply existsb_current_vals. exists k0, v0. split; [done|]. split; [|done].
      apply Hkept; [|done]. destruct Hnp as [[-> ->]|[-> ->]]; [by left|by right]. }
    apply Hwritten. apply elem_of_only_unique.
    split; [apply elem_of_only_unique; split; [by apply Hsub|]|]; cbn [fst snd].
    - intros [Hk Hex]. apply Hp1. split; [done|]. apply Hstill; [by left|done|done].
    - intros [Hk Hex]. apply Hs1. split; [done|]. apply Hstill; [by right|done|done]. }
  change (foldl (λ m kv, <[fst kv := snd kv]> m) (attrs g) l2) with (attrs g1).
  by rewrite Hid.
Qed.

Lemma attributes_written_once_witness :
  write_attributes (Some [("profile_1"%string, AStr "cast"); ("units"%string, AStr "m")])
    (write_attributes (Some [("profile_1"%string, AStr "cast"); ("units"%string, AStr "m")])
                      (open ∅ group_0_10)).2
  = (Ok tt,
     (write_attributes (Some [("profile_1"%string, AStr "cast"); ("units"%string, AStr "m")])
                       (open ∅ group_0_10)).2).
Proof.
  apply (attributes_written_once (open ∅ group_0_10)
           [("profile_1"%string, AStr "cast"); ("units"%string, AStr "m")]
           [("profile_1"%string, AStr "cast"); ("units"%string, AStr "m")]).
  - simpl. apply NoDup_cons. split; [|apply NoDup_singleton].
    intros H. apply list_elem_of_singleton in H. discriminate.
  - intros kv Hkv. exact Hkv.
  - intros k v v0 _ _ Hv0. simpl in Hv0. by rewrite lookup_empty in Hv0.
Defined.

(** A profile key of the group that is given another value is written, and
    the cast it gave way to is then written under its own key by a second
    write of the same attributes. *)
Example attributes_written_twice_differ :
  let g := {| arrays := ∅; attrs := {[ "profile_1"%string := AStr "a" ]} |} in
  let new_attrs := Some [("profile_1"%string, AStr "b"); ("profile_2"%string, AStr "a")] in
  let once := (write_attributes new_attrs (open ∅ g)).2 in
  let twice := (write_attributes new_attrs once).2 in
  attrs (rootgroup once) !! "profile_2"%string = None ∧
  attrs (rootgroup twice) !! "profile_2"%string = Some (AStr "a").
Proof. vm_compute. split; reflexivity. Qed.

(** *** Batches appended to the arrays of a group *)

(** The growth of the beam dimension passes over an array of one
    dimension. *)
Lemma untouched_correct_rootgroup_dims_flat xarr v a s r s' :
  correct_rootgroup_dims xarr s = (r, s') →
  v ≠ expand_dim s →
  arrays (rootgroup s) !! v = Some a →
  length (z_shape a) ≤ 1 →
  untouched v s s'.
Proof.
  intros Hrun Hv Ha Hrank. revert Hrun.
  unfold correct_rootgroup_dims, fix_rootgroup_expand_dim.
  unfold mbind, M_bind, bind, get, lift, get_array.
  destruct (_check_fix_rootgroup_expand_dim _ _) as [[|]|]; try by intros [= _ <-].
  destruct (g_get _ _); [|by intros [= _ <-]].
  intros Hrun. by eapply untouched_fix_loop.
Qed.

(** One pass of the loop of write_to_zarr, with a final size, for a variable
    of one dimension that the group holds: the array gets the final size,
    and the batch goes to the rows of the data location. *)
Lemma write_one_existing_final xarr lo hi final merge var dims tl da a n s s' :
  write_one xarr (lo, hi) (Some final) merge (var, (dims, [tl])) s = (Ok tt, s') →
  var ∈ zarr_array_names s →
  arrays (rootgroup s) !! var = Some a →
  z_shape a = [n] →
  (merge = true → var ≠ append_dim s) →
  var ∉ ["beam"; "xyz"; "tx"]%string →
  index_of (append_dim s) dims = Some 0 →
  assoc var xarr = Some da →
  nd_shape (da_values da) = [tl] →
  ∃ a', arrays (rootgroup s') !! var = Some a' ∧
        z_shape a' = [final] ∧
        ∀ i, i < final →
             z_data a' [i] =
             if (lo <=? i) && (i <? lo + tl) then nd_data (da_values da) [i - lo]
             else if i <? n then z_data a [i] else z_fill a.
Proof.
  intros Hrun Hold Ha Hsa Hmerge Hv Hi Hda Hshape. unfold write_one in Hrun.
  assert ((var ∉ ["beam"; "xyz"]%string) ∧ var ≠ "tx"%string) as [Hv2 Htx].
  { split.
    - intros [->|[->|H]%elem_of_cons]%elem_of_cons; [| |by apply elem_of_nil in H].
      + apply Hv. by left.
      + apply Hv. right. by left.
    - intros ->. apply Hv. right. right. by left. }
  apply bind_Ok_inv in Hrun as (zw & s1 & [= <- <-] & Hrun).
  assert (merge && bool_decide (var ∈ [append_dim s; "beam"%string]) = false) as Hm.
  { destruct merge; [|done]. simpl. apply bool_decide_eq_false_2.
    intros [->|Hin]%elem_of_cons; [by apply Hmerge|].
    apply list_elem_of_singleton in Hin. subst var. apply Hv2. by left. }
  rewrite Hm, (bool_decide_eq_false_2 _ Hv2), (bool_decide_eq_true_2 _ Hold) in Hrun.
  cbn [andb] in Hrun.
  rewrite (determine_shape_time_first _ _ _ _ _ _ Hv2 Hi) in Hrun.
  apply bind_Ok_inv in Hrun as ([[timaxis timlength] shp] & s1 & [[= <- <- <-] ->]%lift_Ok_inv
                                & Hrun).
  apply bind_Ok_inv in Hrun as (chunksize & s1 & [_ ->]%lift_Ok_inv & Hrun).
  apply bind_Ok_inv in Hrun as ([] & s1 & Hwrite & Hrun).
  unfold _write_existing_rootgroup in Hwrite.
  unfold ds_get in Hwrite. rewrite Hda in Hwrite.
  apply bind_Ok_inv in Hwrite as (da' & s2 & [[= <-] ->]%lift_Ok_inv & Hwrite).
  apply bind_Ok_inv in Hwrite as (newarr & s2 & [Hnew ->]%lift_Ok_inv & Hwrite).
  assert (newarr = da_values da) as ->.
  { unfold zarr_array in Hnew. destruct (normalize_chunks _ _); [|discriminate].
    by injection Hnew as <-. }
  apply bind_Ok_inv in Hwrite as (loc & s2 & [Hloc ->]%lift_Ok_inv & Hwrite).
  assert (loc = (lo, lo + tl)) as ->.
  { cbn [fst snd] in Hloc. destruct (decide _) as [|Heq]; injection Hloc as <-; [done|].
    f_equal. lia. }
  rewrite (chunk_idx_time_first tl [] (lo, lo + tl)) in Hwrite by apply not_elem_of_nil.
  apply bind_Ok_inv in Hwrite as ([] & s2 & Hresize & Hwrite).
  rewrite decide_True in Hresize by done.
  apply bind_Ok_inv in Hresize as (zw' & s3 & [= <- <-] & Hresize).
  apply bind_Ok_inv in Hresize as (shp' & s3 & [Hadj ->]%lift_Ok_inv & Hresize).
  assert (shp' = [Some final]) as ->.
  { unfold _write_adjust_max_beams in Hadj. cbn [map length] in Hadj.
    rewrite decide_False in Hadj by lia. injection Hadj as <-.
    simpl. destruct (decide (tl = tl)) as [_|]; [|done]. by rewrite decide_True. }
  apply bind_Ok_inv in Hresize as (a0 & s3 & [Ha0 ->]%get_array_Ok_inv & Hresize).
  rewrite Ha in Ha0. injection Ha0 as <-.
  apply bind_Ok_inv in Hresize as (a1 & s3 & [Hres ->]%lift_Ok_inv & Hresize).
  injection Hresize as <-.
  apply bind_Ok_inv in Hwrite as (a1' & s3 & [Ha1 ->]%get_array_Ok_inv & Hwrite).
  cbn [rootgroup set_rootgroup g_set arrays] in Ha1.
  rewrite lookup_insert_eq in Ha1. injection Ha1 as <-.
  apply bind_Ok_inv in Hwrite as (a2 & s3 & [Hset ->]%lift_Ok_inv & Hwrite).
  injection Hwrite as <-.
  apply bind_Ok_inv in Hrun as (a2' & s3 & [Ha2 ->]%get_array_Ok_inv & Hrun).
  cbn [rootgroup set_rootgroup g_set arrays] in Ha2.
  rewrite lookup_insert_eq in Ha2. injection Ha2 as <-.
  injection Hrun as <-. cbn [rootgroup set_rootgroup g_set arrays].
  rewrite lookup_insert_eq.
  destruct (z_resize_inv _ _ _ Hres) as (Hs1 & _ & _ & _ & Hd1).
  rewrite Hsa in Hs1, Hd1. cbn [zip_with default] in Hs1.
  destruct (z_setitem_rows _ _ _ [] _ _ Hset Hshape) as (Hs2 & _ & _ & _ & Hd2).
  rewrite Hs1 in Hs2, Hd2.
  exists (set_dims a2 dims). split; [done|].
  cbn [set_dims z_shape z_data]. split; [done|].
  intros i Hi'. rewrite Hd2 by (cbn [in_bounds]; rewrite andb_true_r; by apply Nat.ltb_lt).
  cbn [in_bounds]. rewrite andb_true_r.
  destruct ((lo <=? i) && (i <? lo + tl)); [done|].
  rewrite Hd1. cbn [in_bounds]. by rewrite andb_true_r.
Qed.

(** The first write of an append, with the final size. *)
Lemma write_to_zarr_existing_final chunk_shape xarr new_attrs lo hi final merge
    g zw var da a tl n :
  NoDup xarr.*1 →
  write_to_zarr xarr new_attrs (lo, hi) (Some final) merge (open chunk_shape g) = (Ok tt, zw) →
  (var, da) ∈ xarr →
  arrays g !! var = Some a →
  z_shape a = [n] →
  var ∉ ["beam"; "xyz"; "tx"]%string →
  (merge = true → var ≠ "time"%string) →
  index_of "time"%string (da_dims da) = Some 0 →
  nd_shape (da_values da) = [tl] →
  ∃ a', arrays (rootgroup zw) !! var = Some a' ∧
        z_shape a' = [final] ∧
        ∀ i, i < final →
             z_data a' [i] =
             if (lo <=? i) && (i <? lo + tl) then nd_data (da_values da) [i - lo]
             else if i <? n then z_data a [i] else z_fill a.
Proof.
  intros Hnd Hw Hin Hsome Hsa Hv Hmerge Hi Hshape.
  destruct (write_to_zarr_Ok_inv _ _ _ _ _ _ _ Hw) as (s1 & s3 & Hfix & Harr & Hnames & Hc3 & Hloop).
  assert (untouched var (open chunk_shape g) s1 ∧ same_config (open chunk_shape g) s1)
    as [Hu1 Hc1].
  { split.
    - eapply untouched_correct_rootgroup_dims_flat; [done| |done|by rewrite Hsa].
      simpl. intros ->. apply Hv. by left.
    - by eapply same_config_correct_rootgroup_dims. }
  assert (NoDup (_my_xarr_to_zarr_build_arraydimensions xarr).*1) as Hnd'.
  { eapply sublist_NoDup; [done|apply build_arraydimensions_sublist]. }
  assert ((var, (da_dims da, nd_shape (da_values da)))
          ∈ _my_xarr_to_zarr_build_arraydimensions xarr) as Hitem.
  { apply elem_of_build_arraydimensions; [done| |by rewrite Hshape].
    intros Hd. by rewrite Hd in Hi. }
  destruct (write_loop_at _ _ _ _ _ _ _ _ Hnd' Hitem Hloop)
    as (s4 & s5 & Hone & Hk & Hc4 & Hu4 & Hu5).
  cbn [fst] in Hu4, Hu5. rewrite Hshape in Hone.
  pose proof (same_config_trans _ _ _ Hc1 (same_config_trans _ _ _ Hc3 Hc4)) as Hc.
  destruct Hk as (Hn4 & _).
  unfold untouched in Hu1, Hu4, Hu5.
  destruct (write_one_existing_final _ _ _ _ _ _ _ _ da a n _ _ Hone)
    as (a' & Ha' & Hs & Hdat); try done.
  - rewrite Hn4, Hnames. apply elem_of_array_keys. rewrite Hu1. simpl. eauto.
  - by rewrite Hu4, Harr, Hu1.
  - destruct Hc as (_ & -> & _). done.
  - destruct Hc as (_ & -> & _). done.
  - by apply assoc_lookup.
  - exists a'. split; [by rewrite Hu5|]. done.
Qed.

Lemma consecutive_shift n lengths :
  ∀ start,
    map (λ dl, (fst dl + n, snd dl + n)) (consecutive start lengths)
    = consecutive (start + n) lengths.
Proof.
  induction lengths as [|m lengths IH]; intros start; [done|].
  cbn [consecutive map fst snd]. rewrite IH. f_equal; [f_equal; lia|f_equal; lia].
Qed.

(** The data locations of batches that follow one another, as
    get_new_chunk_locations_zarr gives them for a group that is there: they
    follow one another from the length of the time array. *)
Lemma new_chunk_locations g t n lengths ideal_chunk_size data_locs :
  arrays g !! "time"%string = Some t →
  z_shape t = [n] →
  get_new_chunk_locations_zarr (Some g) (consecutive 0 lengths) ideal_chunk_size
  = Ok data_locs →
  data_locs = consecutive n lengths.
Proof.
  intros Ht Hst. unfold get_new_chunk_locations_zarr. rewrite Ht. cbn [mbind result_bind].
  rewrite Hst. cbn [shape0 mbind result_bind].
  destruct lengths as [|m lengths]; [done|].
  cbn [consecutive mbind result_bind].
  destruct (decide _); [done|]. intros [= <-].
  exact (consecutive_shift n (m :: lengths) 0).
Qed.



(** Two batches appended to a group of two rows: five rows, in their
    order. *)
Example distributed_write_append_two_batches :
  let run := distrib_zarr_write {[ "time"%string := [2]; "x"%string := [2] ]}
               [batch_tx_23; batch_tx_4] None [(2, 4); (4, 5)] false group_time_x in
  get_new_chunk_locations_zarr (Some group_time_x) [(0, 2); (2, 3)] 2 = Ok [(2, 4); (4, 5)] ∧
  run.1 = Ok [Ok tt; Ok tt] ∧
  shape_of run.2 "x" = Some [5] ∧
  map (λ i, read run.2 "x" [i]) [0; 1; 2; 3; 4]
  = map (λ q, Some (VFloat (Num q))) [3; 4; 5; 6; 7]%Q ∧
  map (λ i, read run.2 "time" [i]) [0; 1; 2; 3; 4]
  = map (λ q, Some (VFloat (Num q))) [0; 1; 2; 3; 4]%Q.
Proof. vm_compute. repeat split; reflexivity. Qed.

End StoreFacts.

(** ** Properties of the casts that combine_xr_attributes keeps *)

Section CastsFacts.
Import Attrs.

#[local] Arguments entry : simpl never.

Lemma has_prefix_head (n : nat) (c : ascii) (p k : string) :
  has_prefix (S n) (String c p) k = true → ∃ s, k = String c s.
Proof.
  unfold has_prefix. intros H. apply String.eqb_eq in H.
  destruct k as [|c' s]; simpl in H; [discriminate|].
  injection H as -> _. by exists s.
Qed.

(** A cast is put aside under its key. *)
Lemma entry_profile st k v :
  has_prefix 7 "profile" k = true →
  entry st (k, v) =
  Ok {| finaldict := finaldict st;
        buffered_settings := buffered_settings st;
        buffered_runtime_settings := buffered_runtime_settings st;
        fnames := fnames st; survey_nums := survey_nums st;
        cast_dump := <[k := v]> (cast_dump st) |}.
Proof.
  intros Hk. pose proof Hk as Hp. apply has_prefix_head in Hk as [s ->].
  unfold entry.
  change (has_prefix 7 "install" _) with false.
  change (has_prefix 7 "runtime" _) with false.
  change (is_serial_key _) with false.
  by rewrite Hp.
Qed.

(** An entry leaves the casts as they are, or puts its own aside. *)
Lemma entry_casts st k' v st' :
  entry st (k', v) = Ok st' →
  cast_dump st' = cast_dump st ∨
  (has_prefix 7 "profile" k' = true ∧ cast_dump st' = <[k' := v]> (cast_dump st)).
Proof.
  intros Hrun. unfold entry in Hrun.
  destruct (has_prefix 7 "install" k').
  { destruct v; try discriminate. rewrite install_entry_eq in Hrun.
    injection Hrun as <-. left. simpl. repeat case_match; done. }
  destruct (has_prefix 7 "runtime" k').
  { unfold runtime_entry in Hrun. destruct v; try discriminate. simpl in Hrun.
    left. repeat case_match; simplify_eq/=; done. }
  destruct (is_serial_key k' && _).
  { left. destruct (finaldict st !! k'); [|by injection Hrun as <-].
    apply result_bind_Ok in Hrun as ([] & _ & Hrun); [|by injection Hrun as <-].
    apply result_bind_Ok in Hrun as (new & _ & [= <-]). done. }
  destruct (has_prefix 7 "profile" k').
  { right. split; [done|]. by injection Hrun as <-. }
  left. destruct (has_prefix 3 "min" k').
  { destruct (finaldict st !! k'); [|by injection Hrun as <-].
    apply result_bind_Ok in Hrun as (new & _ & [= <-]). done. }
  destruct (has_prefix 3 "max" k').
  { destruct (finaldict st !! k'); [|by injection Hrun as <-].
    apply result_bind_Ok in Hrun as (new & _ & [= <-]). done. }
  destruct (finaldict st !! k'); by injection Hrun as <-.
Qed.

(** After the datasets: the casts hold the last value given for a key that
    starts with 'profile', and the merged dict holds no such key. *)
Lemma entries_casts k :
  has_prefix 7 "profile" k = true →
  ∀ items st st',
    entries st items = Ok st' →
    cast_dump st' !! k = match last_given k items with
                         | Some v => Some v
                         | None => cast_dump st !! k
                         end ∧
    finaldict st' !! k = finaldict st !! k.
Proof.
  intros Hk. induction items as [|[k' v] items IH]; intros st st' Hrun.
  - by injection Hrun as <-.
  - simpl in Hrun. apply result_bind_Ok in Hrun as (st1 & H1 & Hrun).
    destruct (IH _ _ Hrun) as [-> ->]. simpl.
    destruct (String.eqb_spec k' k) as [->|Hne].
    + rewrite entry_profile in H1 by done. injection H1 as <-. simpl.
      rewrite lookup_insert_eq. by destruct (last_given k items).
    + rewrite (entry_frame _ _ _ _ _ H1 Hne). split; [|done].
      destruct (last_given k items); [done|].
      destruct (entry_casts _ _ _ _ H1) as [->|[_ ->]]; [done|].
      by rewrite lookup_insert_ne.
Qed.

Lemma last_given_elem k items c : last_given k items = Some c → (k, c) ∈ items.
Proof.
  induction items as [|[k' v] items IH]; [done|]. simpl.
  destruct (last_given k items) as [w|].
  - intros [= ->]. right. by apply IH.
  - destruct (String.eqb_spec k' k) as [->|]; [|done]. intros [= ->]. by left.
Qed.

Lemma elem_last_given k items v : (k, v) ∈ items → is_Some (last_given k items).
Proof.
  induction items as [|[k' v'] items IH]; [by intros ?%elem_of_nil|].
  intros [[= <- <-]|Hin]%elem_of_cons; simpl.
  - destruct (last_given k items); [done|]. by rewrite String.eqb_refl.
  - destruct (IH Hin) as [w ->]. done.
Qed.

(** A cast that is a string is equal to the values that are the same
    string, and to no other. *)
Lemma existsb_cast s (unique_casts : list attr) :
  existsb (attr_eqb (AStr s)) unique_casts = true ↔ AStr s ∈ unique_casts.
Proof.
  rewrite existsb_exists. split.
  - intros (x & Hin & Heq). destruct x; try discriminate. simpl in Heq.
    apply String.eqb_eq in Heq as ->. by apply list_elem_of_In.
  - intros Hin. exists (AStr s). split; [by apply list_elem_of_In|].
    simpl. apply String.eqb_refl.
Qed.

(** The loop over the keys of the casts keeps each cast once. *)
Lemma keep_unique_casts_kept casts :
  (∀ k c, casts !! k = Some c → ∃ s, c = AStr s) →
  ∀ sorted_kys visited unique_casts fd,
    NoDup (visited ++ sorted_kys) →
    (∀ k, k ∈ sorted_kys → is_Some (casts !! k)) →
    casts_kept casts visited unique_casts fd →
    ∃ unique_casts',
      casts_kept casts (visited ++ sorted_kys) unique_casts'
                 (keep_unique_casts casts sorted_kys unique_casts fd).
Proof.
  intros Hstr sorted_kys.
  induction sorted_kys as [|k rest IH]; intros visited unique_casts fd Hnd Hkeys Hinv.
  - exists unique_casts. by rewrite app_nil_r.
  - destruct (Hkeys k) as [c Hc]; [by left|].
    destruct (Hstr k c Hc) as [s ->].
    assert (k ∉ visited) as Hk.
    { apply NoDup_app in Hnd as (_ & Hdis & _). intros Hin. apply (Hdis k Hin). by left. }
    replace (visited ++ k :: rest) with ((visited ++ [k]) ++ rest) in Hnd |- *
      by (by rewrite <- (assoc_L (++))).
    destruct Hinv as (H1 & H2 & H3 & H4 & H5).
    assert (fd !! k = None) as Hnone by (apply H1; [done|by eexists]).
    simpl. rewrite Hc.
    destruct (existsb (attr_eqb (AStr s)) unique_casts) eqn:Hex.
    + apply existsb_cast in Hex.
      apply IH; [done|intros k' Hk'; apply Hkeys; by right|].
      repeat split.
      * intros k' Hk' Hsome. apply H1; [|done]. intros Hin. apply Hk'.
        apply elem_of_app. by left.
      * apply elem_of_app in H as [Hin|Hin%list_elem_of_singleton]; [by apply (H2 k0 c)|].
        subst k0. congruence.
      * apply elem_of_app in H as [Hin|Hin%list_elem_of_singleton]; [by apply (H2 k0 c)|].
        subst k0. congruence.
      * intros c Hin. destruct (H3 c Hin) as (k' & Hk' & Hfd). exists k'.
        split; [apply elem_of_app; by left|done].
      * intros k1 k2 c [Hin1|Hin1%list_elem_of_singleton]%elem_of_app
                        [Hin2|Hin2%list_elem_of_singleton]%elem_of_app Hne Hfd1;
          subst; try congruence. by apply (H4 k1 k2).
      * intros k' c [Hin|Hin%list_elem_of_singleton]%elem_of_app Hc'; [by apply (H5 k')|].
        subst k'. congruence.
    + assert (AStr s ∉ unique_casts) as Hnot.
      { intros Hin. apply existsb_cast in Hin. congruence. }
      apply IH; [done|intros k' Hk'; apply Hkeys; by right|].
      repeat split.
      * intros k' Hk' Hsome. rewrite lookup_insert_ne.
        -- apply H1; [|done]. intros Hin. apply Hk'. apply elem_of_app. by left.
        -- intros ->. apply Hk'. apply elem_of_app. right. by left.
      * apply elem_of_app in H as [Hin|Hin%list_elem_of_singleton].
        -- rewrite lookup_insert_ne in H0 by (intros ->; done). by apply (H2 k0 c).
        -- subst k0. rewrite lookup_insert_eq in H0. congruence.
      * apply elem_of_app in H as [Hin|Hin%list_elem_of_singleton].
        -- rewrite lookup_insert_ne in H0 by (intros ->; done).
           apply elem_of_app. left. by apply (H2 k0 c).
        -- subst k0. rewrite lookup_insert_eq in H0. injection H0 as <-.
           apply elem_of_app. right. by left.
      * intros c [Hin|Hin%list_elem_of_singleton]%elem_of_app.
        -- destruct (H3 c Hin) as (k' & Hk' & Hfd). exists k'.
           split; [apply elem_of_app; by left|].
           rewrite lookup_insert_ne; [done|]. intros ->. done.
        -- subst c. exists k. split; [apply elem_of_app; right; by left|].
           by rewrite lookup_insert_eq.
      * intros k1 k2 c [Hin1|Hin1%list_elem_of_singleton]%elem_of_app
                        [Hin2|Hin2%list_elem_of_singleton]%elem_of_app Hne Hfd1 Hfd2; subst.
        -- rewrite lookup_insert_ne in Hfd1 by (intros ->; done).
           rewrite lookup_insert_ne in Hfd2 by (intros ->; done).
           by apply (H4 k1 k2 c).
        -- rewrite lookup_insert_ne in Hfd1 by (intros ->; done).
           rewrite lookup_insert_eq in Hfd2. injection Hfd2 as <-.
           by destruct (H2 k1 (AStr s) Hin1 Hfd1).
        -- rewrite lookup_insert_eq in Hfd1. injection Hfd1 as <-.
           rewrite lookup_insert_ne in Hfd2 by (intros ->; done).
           by destruct (H2 k2 (AStr s) Hin2 Hfd2).
        -- done.
      * intros k' c [Hin|Hin%list_elem_of_singleton]%elem_of_app Hc'.
        -- apply elem_of_app. left. by apply (H5 k').
        -- subst k'. apply elem_of_app. right. rewrite Hc in Hc'. injection Hc' as <-.
           by left.
Qed.

(** When the datasets are done with: the loop over the casts starts from a
    dict that differs from the merged one at the serial numbers and at
    multibeam_files and survey_number at most. *)
Lemma finish_casts st fd :
  finish st = Ok fd →
  ∃ fd1,
    fd = keep_unique_casts (cast_dump st) (sorted (map fst (map_to_list (cast_dump st)))) [] fd1 ∧
    ∀ k, is_serial_key k = false → k ≠ "multibeam_files"%string →
         k ≠ "survey_number"%string → fd1 !! k = finaldict st !! k.
Proof.
  intros Hrun. unfold finish in Hrun.
  apply result_bind_Ok in Hrun as (fd1 & Hadd & [= <-]).
  eexists. split; [done|]. intros k Hserial Hfiles Hsurvey.
  assert (k ≠ "system_serial_number"%string ∧ k ≠ "secondary_system_serial_number"%string)
    as [Hs1 Hs2].
  { unfold is_serial_key in Hserial. apply orb_false_iff in Hserial as [H1 H2].
    apply String.eqb_neq in H1, H2. done. }
  assert (fd1 !! k = finaldict st !! k) as Hfd1.
  { unfold add_file_names in Hadd. destruct (fnames st); [by injection Hadd as <-|].
    destruct (finaldict st !! "system_serial_number"%string) as [ssn|]; [|done].
    apply result_bind_Ok in Hadd as (ssn' & _ & Hadd).
    destruct (_ !! "secondary_system_serial_number"%string) as [sec|]; [|done].
    apply result_bind_Ok in Hadd as (sec' & _ & [= <-]).
    by rewrite !lookup_insert_ne. }
  destruct (survey_nums st); [done|]. by rewrite lookup_insert_ne.
Qed.

(** The keys of the casts, sorted: each key once. *)
Lemma sorted_keys (casts : gmap string attr) :
  NoDup (sorted (map fst (map_to_list casts))) ∧
  ∀ k, k ∈ sorted (map fst (map_to_list casts)) ↔ is_Some (casts !! k).
Proof.
  split.
  - rewrite sorted_perm. apply NoDup_fst_map_to_list.
  - intros k. rewrite sorted_perm. rewrite list_elem_of_fmap. split.
    + intros ([k' c] & -> & Hin). apply elem_of_map_to_list in Hin. by eexists.
    + intros [c Hc]. exists (k, c). split; [done|]. by apply elem_of_map_to_list.
Qed.

(** The casts, given as strings under keys that start with 'profile': no
    cast is kept under two keys; a cast that is kept under a key is the
    last one given for the key; and the last cast given for a key is kept,
    under that key or under another. *)
Theorem casts_kept_once (all_attrs : list dict) (fd : gmap string attr) :
  (∀ k v, has_prefix 7 "profile" k = true → (k, v) ∈ concat all_attrs → ∃ s, v = AStr s) →
  combine_xr_attributes all_attrs = Ok fd →
  (∀ k1 k2 c, has_prefix 7 "profile" k1 = true → has_prefix 7 "profile" k2 = true →
              k1 ≠ k2 → fd !! k1 = Some c → fd !! k2 ≠ Some c) ∧
  (∀ k c, has_prefix 7 "profile" k = true → fd !! k = Some c →
          last_given k (concat all_attrs) = Some c) ∧
  (∀ k c, has_prefix 7 "profile" k = true → last_given k (concat all_attrs) = Some c →
          ∃ k', has_prefix 7 "profile" k' = true ∧ fd !! k' = Some c).
Proof.
  intros Hstr Hrun. unfold combine_xr_attributes in Hrun.
  apply result_bind_Ok in Hrun as (st & Hentries & Hfinish).
  destruct (finish_casts _ _ Hfinish) as (fd1 & -> & Hfd1).
  set (casts := cast_dump st) in *.
  set (sorted_kys := sorted (map fst (map_to_list casts))).
  destruct (sorted_keys casts) as [Hnd Hkeys]. fold sorted_kys in Hnd, Hkeys.
  assert (∀ k, has_prefix 7 "profile" k = true →
               casts !! k = last_given k (concat all_attrs) ∧ fd1 !! k = None) as Hprofile.
  { intros k Hk. destruct (entries_casts k Hk _ _ _ Hentries) as [Hc Hf].
    split; [unfold casts; rewrite Hc; by destruct (last_given _ _)|].
    pose proof Hk as Hp. apply has_prefix_head in Hk as [s ->].
    rewrite Hfd1 by done. by rewrite Hf. }
  assert (∀ k, is_Some (casts !! k) → has_prefix 7 "profile" k = true) as Hcastkeys.
  { intros k Hsome. destruct (has_prefix 7 "profile" k) eqn:Hk; [done|].
    unfold casts in Hsome. rewrite (entries_cast_dump _ _ _ _ Hentries Hk) in Hsome.
    by destruct Hsome. }
  assert (∀ k c, casts !! k = Some c → ∃ s, c = AStr s) as Hcaststr.
  { intros k c Hc. pose proof (Hcastkeys k ltac:(by eexists)) as Hk.
    destruct (Hprofile k Hk) as [Hlast _]. rewrite Hlast in Hc.
    apply (Hstr k c Hk). by apply last_given_elem. }
  destruct (keep_unique_casts_kept casts Hcaststr sorted_kys [] [] fd1)
    as (unique_casts & H1 & H2 & H3 & H4 & H5).
  { done. }
  { intros k Hk. by apply Hkeys. }
  { split; [intros k _ Hsome; by apply Hprofile, Hcastkeys|].
    repeat split; intros;
      by match goal with H : _ ∈ [] |- _ => apply elem_of_nil in H end. }
  simpl in H1, H2, H3, H4, H5.
  set (fd := keep_unique_casts casts sorted_kys [] fd1) in *.
  assert (∀ k c, has_prefix 7 "profile" k = true → fd !! k = Some c → k ∈ sorted_kys)
    as Hvisited.
  { intros k c Hk Hc. apply Hkeys. destruct (casts !! k) as [c'|] eqn:Hcast; [done|].
    unfold fd in Hc. rewrite (keep_unique_casts_frame _ _ Hcast) in Hc.
    destruct (Hprofile k Hk) as [_ Hnone]. congruence. }
  split; [|split].
  - intros k1 k2 c Hk1 Hk2 Hne Hc1 Hc2.
    apply (H4 k1 k2 c); [by eapply Hvisited|by eapply Hvisited|done|done|done].
  - intros k c Hk Hc. destruct (H2 k c) as [Hcast _]; [by eapply Hvisited|done|].
    destruct (Hprofile k Hk) as [Hlast _]. congruence.
  - intros k c Hk Hlast. destruct (Hprofile k Hk) as [Hcast _].
    rewrite <- Hcast in Hlast.
    assert (k ∈ sorted_kys) as Hin by (apply Hkeys; by eexists).
    destruct (H3 c (H5 k c Hin Hlast)) as (k' & Hk' & Hfd).
    exists k'. split; [|done]. by apply Hcastkeys, Hkeys.
Qed.

Lemma casts_kept_once_witness :
  ∃ fd, combine_xr_attributes three_casts = Ok fd ∧
    (∀ k1 k2 c, has_prefix 7 "profile" k1 = true → has_prefix 7 "profile" k2 = true →
                k1 ≠ k2 → fd !! k1 = Some c → fd !! k2 ≠ Some c) ∧
    (∀ k c, has_prefix 7 "profile" k = true → fd !! k = Some c →
            last_given k (concat three_casts) = Some c) ∧
    (∀ k c, has_prefix 7 "profile" k = true → last_given k (concat three_casts) = Some c →
            ∃ k', has_prefix 7 "profile" k' = true ∧ fd !! k' = Some c).
Proof.
  eexists. split; [reflexivity|].
  apply (casts_kept_once three_casts); [|reflexivity].
  intros k v _ Hv. simpl in Hv.
  repeat (apply elem_of_cons in Hv as [Hv|Hv]; [by (simplify_eq; eauto)|]).
  by apply elem_of_nil in Hv.
Defined.

(** Of two lines with the same cast the earlier key is kept. *)
Example combine_three_casts :
  ∃ fd, combine_xr_attributes three_casts = Ok fd ∧
        fd !! "profile_1495599960"%string = Some cast_a ∧
        fd !! "profile_1495601112"%string = None ∧
        fd !! "profile_1495603000"%string = Some cast_b.
Proof. eexists. split; [reflexivity|]. repeat split; reflexivity. Qed.

End CastsFacts.
